(** * sqs-issue-notifier: the durable local store and its relay loop

    A shallow embedding of [server/local_storage] (the file-system backed
    store, its item handles and its notifier), of the relay goroutine
    of [server/main.go], of [parseArgs] ([server/arg_parse.go]) and of
    the HTTP handlers of [server/web.go], followed by the properties
    that the system description states about them and by further
    properties of the code.

    Conventions.
    - The file system, the advisory locks and the clock are the
      environment of the program.  They are modelled as an explicit
      state ([FS]) that every operation threads through, each system
      call being a function on that state.
    - A Go [error] result is an [option]: [None] is [nil].
    - [log.Printf] calls have no effect on the store and are left out.
    - A critical section guarded by the notifier's mutex is one atomic
      state transformer; a goroutine parked in [cond.Wait()] is the
      result [Blocked]. *)

From Stdlib Require Import ZArith Lia Strings.Byte Strings.Ascii.
From stdpp Require Import gmap strings list sorting fin_maps pretty.

Local Open Scope Z_scope.

(** ** Errors ([local_storage/error.go], [sender/error.go]) *)

Module local_storage.

(** [type error_code uint], constants numbered by [iota]. *)
Inductive error_code :=
| ErrStoreLockFailed
| ErrDuplicatedStore
| ErrStoreFailed
| ErrGetLockFailed
| ErrGetFailed
| ErrGetEmpty
| ErrRemoveFailed
| ErrTimedOut
| ErrStoreClosed.

Definition error_code_value (e : error_code) : Z :=
  match e with
  | ErrStoreLockFailed => 0
  | ErrDuplicatedStore => 1
  | ErrStoreFailed => 2
  | ErrGetLockFailed => 3
  | ErrGetFailed => 4
  | ErrGetEmpty => 5
  | ErrRemoveFailed => 6
  | ErrTimedOut => 7
  | ErrStoreClosed => 8
  end.

(** [error_code.Error], on the [uint] under the code. *)
Definition Error (e : Z) : string :=
  match e with
  | 0 => "Couldn't lock the file for storing the data."
  | 1 => "Trying to store a duplicated data."
  | 2 => "Couldn't save the data."
  | 3 => "Couldn't lock the file for reading the data."
  | 4 => "Couldn't read any local data."
  | 5 => "Couldn't find any file for reading."
  | 6 => "Couldn't remove the local data."
  | 7 => "Wait timed out."
  | 8 => "The local storage was closed."
  | _ => "Invalid local_storage error."
  end%string.

#[global] Instance error_code_eq_dec : EqDecision error_code.
Proof. solve_decision. Defined.

(** A value of Go's [error] interface as the store meets it: one of its
    own codes, the sentinel [fs.SkipDir], or an error of the operating
    system. *)
Inductive error :=
| Code (e : error_code)
| SkipDir
| OSError.

#[global] Instance error_eq_dec : EqDecision error.
Proof. solve_decision. Defined.

(** ** Machine integers

    [notifier.queued] is a Go [int]: 64 bits on the platform the
    repository builds for (linux-amd64). *)

Definition int_min : Z := - 2 ^ 63.
Definition int_max : Z := 2 ^ 63 - 1.

Definition wrap_int (z : Z) : Z := (z + 2 ^ 63) mod 2 ^ 64 - 2 ^ 63.

(** [x++] and [x--] on an [int]. *)
Definition int_incr (x : Z) : Z := wrap_int (x + 1).
Definition int_decr (x : Z) : Z := wrap_int (x - 1).

(** ** Strings and bytes *)

Definition bytes := list byte.

(** [s[n:]] on a Go string. *)
Fixpoint string_drop (n : nat) (s : string) : string :=
  match n, s with
  | O, _ => s
  | S n', String _ s' => string_drop n' s'
  | S _, EmptyString => EmptyString
  end.

Definition hextable : string := "0123456789abcdef".

Definition hex_digit (n : nat) : ascii :=
  match String.get n hextable with
  | Some c => c
  | None => "0"%char
  end.

(** [hex.EncodeToString]. *)
Fixpoint hex_EncodeToString (src : bytes) : string :=
  match src with
  | [] => EmptyString
  | b :: rest =>
      let v := Byte.to_nat b in
      String (hex_digit (v / 16)%nat)
        (String (hex_digit (v mod 16)%nat) (hex_EncodeToString rest))
  end.

(** ** The clock and [Time.Format]

    [time.Now()] is an input of [Store].  Only the calendar fields and
    the sub-second part matter to the layout the store uses. *)

Record Time := {
  year : Z;
  month : Z;
  day : Z;
  hour : Z;
  minute : Z;
  second : Z;
  nsec : Z;
}.

Definition digit (u : Z) : ascii := hex_digit (Z.to_nat u).

(** The decimal digits of [u], most significant first: the loop of
    [appendInt] in package [time], which fills a buffer of 20 bytes
    from its end. *)
Fixpoint decimal (fuel : nat) (u : Z) (acc : string) : string :=
  match fuel with
  | O => acc
  | S fuel' =>
      if u <? 10 then String (digit u) acc
      else decimal fuel' (u / 10) (String (digit (u mod 10)) acc)
  end.

Fixpoint zeros (n : nat) : string :=
  match n with
  | O => EmptyString
  | S n' => String "0"%char (zeros n')
  end.

(** [appendInt(b, x, width)]: a sign for a negative [x], then the
    digits zero padded to [width], never truncated. *)
Definition appendInt (x : Z) (width : nat) : string :=
  let ds := decimal 20 (Z.abs x) EmptyString in
  (if x <? 0 then "-" else "") +:+ zeros (width - String.length ds) +:+ ds.

(** The format of the time used in file names. *)
Definition time_format : string := "2006-01-02-15-04-05-".

(** [t.Format(time_format)]: long year, then zero padded month, day,
    hour, minute and second, each followed by a dash. *)
Definition Format (t : Time) : string :=
  appendInt (year t) 4 +:+ "-" +:+
  appendInt (month t) 2 +:+ "-" +:+
  appendInt (day t) 2 +:+ "-" +:+
  appendInt (hour t) 2 +:+ "-" +:+
  appendInt (minute t) 2 +:+ "-" +:+
  appendInt (second t) 2 +:+ "-".

(** A reading of the wall clock as [time.Now()] gives it: a year of
    four digits and fields within their calendar ranges. *)
Definition clock_ok (t : Time) : bool :=
  (0 <=? year t) && (year t <? 10000) &&
  (1 <=? month t) && (month t <=? 12) &&
  (1 <=? day t) && (day t <=? 31) &&
  (0 <=? hour t) && (hour t <? 24) &&
  (0 <=? minute t) && (minute t <? 60) &&
  (0 <=? second t) && (second t <? 60).

(** Two readings within the same second. *)
Definition same_second (t1 t2 : Time) : Prop :=
  year t1 = year t2 ∧ month t1 = month t2 ∧ day t1 = day t2 ∧
  hour t1 = hour t2 ∧ minute t1 = minute t2 ∧ second t1 = second t2.

(** ** The environment: storage directory, lock files, advisory locks *)

(** An entry of the storage directory: a regular file with its
    contents, or a sub-directory (whose contents no operation of the
    store ever reads). *)
Inductive node :=
| File (data : bytes)
| Dir.

(** Failures of the operating system that the store has no hand in:
    each flag makes the named call on the storage directory fail. *)
Record Faults := {
  lstat_fails : bool;      (* os.Lstat(dir), the first step of WalkDir *)
  readdir_fails : bool;    (* reading the entries of dir *)
  stat_fails : bool;       (* os.Stat fails with an error other than ErrNotExist *)
  write_fails : bool;      (* os.WriteFile *)
  readfile_fails : bool;   (* os.ReadFile *)
  remove_fails : bool;     (* os.Remove of a payload file *)
  removeall_fails : bool;  (* os.RemoveAll(lock_dir) *)
  mkdirall_fails : bool;   (* os.MkdirAll(lock_dir) *)
}.

(** The name of the lock directory inside the storage directory:
    [filepath.Join(dir, ".lock")]. *)
Definition lock_dir_name : string := ".lock".

(** The state of the file system as far as one storage directory goes.
    - [entries]: the directory itself, by entry name; the lock directory
      is the entry [".lock"].
    - [locks]: the files of the lock directory, each with the inode it
      names.
    - [held]: the [flock(2)] locks in force, from the [Flock] object
      holding one to the inode it is taken on.  A lock is on the inode,
      not on the name: it outlives the unlinking of its file.
    - [next_ino], [next_flock]: allocation counters for inodes and for
      [Flock] objects. *)
Record FS := {
  faults : Faults;
  entries : gmap string node;
  locks : gmap string nat;
  held : gmap nat nat;
  next_ino : nat;
  next_flock : nat;
}.

Definition set_entries (f : gmap string node → gmap string node) (s : FS) : FS :=
  {| faults := faults s; entries := f (entries s); locks := locks s;
     held := held s; next_ino := next_ino s; next_flock := next_flock s |}.

Definition set_locks (f : gmap string nat → gmap string nat) (s : FS) : FS :=
  {| faults := faults s; entries := entries s; locks := f (locks s);
     held := held s; next_ino := next_ino s; next_flock := next_flock s |}.

Definition set_held (f : gmap nat nat → gmap nat nat) (s : FS) : FS :=
  {| faults := faults s; entries := entries s; locks := locks s;
     held := f (held s); next_ino := next_ino s; next_flock := next_flock s |}.

(** *** Package [flock] *)

(** A [flock.Flock] behind its pointer: the identity of the object and
    the path it was created for (a name inside the lock directory). *)
Record Flock := {
  flock_id : nat;
  flock_path : string;
}.

(** [flock.New(path)] allocates a fresh, unlocked object. *)
Definition flock_New (name : string) (s : FS) : Flock * FS :=
  ({| flock_id := next_flock s; flock_path := name |},
   {| faults := faults s; entries := entries s; locks := locks s;
      held := held s; next_ino := next_ino s; next_flock := S (next_flock s) |}).

(** The lock directory exists. *)
Definition lock_dir_exists (s : FS) : bool :=
  match entries s !! lock_dir_name with
  | Some Dir => true
  | _ => false
  end.

(** Some [Flock] object holds the lock on inode [ino]. *)
Definition ino_locked (ino : nat) (s : FS) : bool :=
  bool_decide (ino ∈ (map_img (held s) : gset nat)).

(** [os.OpenFile(path, O_CREATE|O_RDONLY, 0600)] on a lock file: the
    inode behind the name, created when there is none. *)
Definition open_lock_file (name : string) (s : FS) : nat * FS :=
  match locks s !! name with
  | Some ino => (ino, s)
  | None =>
      (next_ino s,
       {| faults := faults s; entries := entries s;
          locks := <[name := next_ino s]> (locks s);
          held := held s; next_ino := S (next_ino s);
          next_flock := next_flock s |})
  end.

(** [Flock.TryLock]: [(locked, err)].  Opening the lock file fails
    when its directory is missing; [flock(LOCK_EX|LOCK_NB)] reports
    [EWOULDBLOCK], which is [(false, nil)], when another object holds
    the lock on the same inode. *)
Definition TryLock (l : Flock) (s : FS) : bool * option error * FS :=
  match held s !! flock_id l with
  | Some _ => (true, None, s)
  | None =>
      if lock_dir_exists s then
        let '(ino, s1) := open_lock_file (flock_path l) s in
        if ino_locked ino s1 then (false, None, s1)
        else (true, None, set_held (insert (flock_id l) ino) s1)
      else (false, Some OSError, s)
  end.

(** [Flock.Unlock]: a no-op on an object that holds no lock; the
    lock file stays. *)
Definition Unlock (l : Flock) (s : FS) : FS :=
  set_held (delete (flock_id l)) s.

(** *** Package [os] *)

Inductive stat_result :=
| StatOk
| StatNotExist
| StatError.

(** [os.Stat(file)] on an entry of the storage directory. *)
Definition os_Stat (name : string) (s : FS) : stat_result :=
  if stat_fails (faults s) then StatError
  else match entries s !! name with
       | Some _ => StatOk
       | None => StatNotExist
       end.

(** [os.WriteFile(file, data, 0600)]: creates or truncates the file;
    [None] is a failure. *)
Definition os_WriteFile (name : string) (data : bytes) (s : FS) : option FS :=
  if write_fails (faults s) then None
  else match entries s !! name with
       | Some Dir => None
       | _ => Some (set_entries (insert name (File data)) s)
       end.

(** [os.ReadFile(path)]. *)
Definition os_ReadFile (name : string) (s : FS) : option bytes :=
  if readfile_fails (faults s) then None
  else match entries s !! name with
       | Some (File data) => Some data
       | _ => None
       end.

(** [os.Remove(path)] on a payload file. *)
Definition os_Remove (name : string) (s : FS) : option FS :=
  if remove_fails (faults s) then None
  else match entries s !! name with
       | Some (File _) => Some (set_entries (delete name) s)
       | _ => None
       end.

(** [os.Remove(lock.Path())]: unlinks the lock file.  The caller only
    logs a failure, so the result is the state alone. *)
Definition os_Remove_lock (name : string) (s : FS) : FS :=
  if lock_dir_exists s then set_locks (delete name) s else s.

(** [os.RemoveAll(lock_dir)]: the directory and every lock file go;
    locks held on their inodes stay in force. *)
Definition os_RemoveAll_lock_dir (s : FS) : option FS :=
  if removeall_fails (faults s) then None
  else Some (set_locks (λ _, ∅) (set_entries (delete lock_dir_name) s)).

(** [os.MkdirAll(lock_dir, 0755)]. *)
Definition os_MkdirAll_lock_dir (s : FS) : option FS :=
  if mkdirall_fails (faults s) then None
  else match entries s !! lock_dir_name with
       | Some (File _) => None
       | Some Dir => Some s
       | None => Some (set_entries (insert lock_dir_name Dir) s)
       end.

(** *** [filepath.WalkDir] *)

Definition entry_le (a b : string * node) : Prop :=
  String.leb a.1 b.1 = true.

#[global] Instance entry_le_dec a b : Decision (entry_le a b).
Proof. unfold entry_le. apply _. Defined.

(** [readDir]: the entries of the storage directory sorted by name. *)
Definition readDir (s : FS) : option (list (string * node)) :=
  if readdir_fails (faults s) then None
  else Some (merge_sort entry_le (map_to_list (entries s))).

(** What a call yields: a run-time panic, or a value and the state. *)
Inductive result (St A : Type) :=
| Panic
| Ret (a : A) (st : St).
Arguments Panic {St A}.
Arguments Ret {St A} a st.

(** [fs.DirEntry], of which the store only asks [IsDir()]. *)
Record DirEntry := { IsDir : bool }.

Definition entry_of (n : node) : DirEntry :=
  match n with
  | File _ => {| IsDir := false |}
  | Dir => {| IsDir := true |}
  end.

(** The [(path, d)] arguments of a walk function.  The walk is always
    started on the storage directory, so the root is either reported
    without an entry ([Lstat] failed, [d] is [nil]) or is a directory
    with [path = dir]; every other call is on an entry of it. *)
Inductive walk_arg :=
| RootNil
| RootDir
| Entry (name : string) (d : DirEntry).

Section WalkDir.

Context {St : Type} (fs_of : St → FS).

(** [fs.WalkDirFunc], with the state it closes over made explicit. *)
Definition WalkDirFunc : Type :=
  walk_arg → option error → St → result St (option error).

Variable fn : WalkDirFunc.

(** [walkDir] on one entry of the root.  A sub-directory for which
    [fn] returns [nil] would be read in turn; the contents of
    sub-directories are not part of the model and the loop over them
    is empty. *)
Definition walkDir_entry (name : string) (n : node) (st : St)
  : result St (option error) :=
  let d := entry_of n in
  match fn (Entry name d) None st with
  | Panic => Panic
  | Ret err st' =>
      if bool_decide (err ≠ None) || negb (IsDir d) then
        if bool_decide (err = Some SkipDir) && IsDir d
        then Ret None st'
        else Ret err st'
      else Ret None st'
  end.

(** The loop of [walkDir] over the sorted entries: [SkipDir] from a
    file breaks out of it, any other error is returned. *)
Fixpoint walk_entries (dirs : list (string * node)) (st : St)
  : result St (option error) :=
  match dirs with
  | [] => Ret None st
  | (name, n) :: rest =>
      match walkDir_entry name n st with
      | Panic => Panic
      | Ret None st' => walk_entries rest st'
      | Ret (Some SkipDir) st' => Ret None st'
      | Ret (Some e) st' => Ret (Some e) st'
      end
  end.

(** [walkDir] on the root: [fn] first, then the entries; a failure to
    read them is reported to [fn] in a second call. *)
Definition walkDir_root (st : St) : result St (option error) :=
  match fn RootDir None st with
  | Panic => Panic
  | Ret (Some e) st' => Ret (Some e) st'
  | Ret None st' =>
      match readDir (fs_of st') with
      | None =>
          match fn RootDir (Some OSError) st' with
          | Panic => Panic
          | Ret (Some e) st'' => Ret (Some e) st''
          | Ret None st'' => Ret None st''
          end
      | Some dirs => walk_entries dirs st'
      end
  end.

(** [filepath.WalkDir(dir, fn)]. *)
Definition WalkDir (st : St) : result St (option error) :=
  let r :=
    if lstat_fails (faults (fs_of st))
    then fn RootNil (Some OSError) st
    else walkDir_root st in
  match r with
  | Ret (Some SkipDir) st' => Ret None st'
  | _ => r
  end.

End WalkDir.

(** ** The notifier *)

Inductive Timer :=
| TimerArmed
| TimerStopped.

(** [notifier].  The condition variable is represented by what can be
    observed of it: [signals] counts the calls of [cond.Signal()]. *)
Record notifier := {
  signals : nat;
  timer : option Timer;
  queued : Z;
  run : bool;
  forceWake : bool;
}.

Definition Signal (n : notifier) : notifier :=
  {| signals := S (signals n); timer := timer n; queued := queued n;
     run := run n; forceWake := forceWake n |}.

Definition set_queued (q : Z) (n : notifier) : notifier :=
  {| signals := signals n; timer := timer n; queued := q;
     run := run n; forceWake := forceWake n |}.

Definition set_forceWake (b : bool) (n : notifier) : notifier :=
  {| signals := signals n; timer := timer n; queued := queued n;
     run := run n; forceWake := b |}.

(** ** The store

    [fsStore] holds two constant paths and a pointer to its notifier.
    Its state is the directory it names and that notifier. *)
Record World := {
  disk : FS;
  wait : notifier;
}.

Definition set_disk (s : FS) (w : World) : World :=
  {| disk := s; wait := wait w |}.

(** [fsData]; its [wait] pointer is the notifier of the world. *)
Record fsData := {
  data : bytes;
  file_path : string;
  lock : Flock;
}.

(** [crypto/sha256]: the digest function is an interface of the
    development. *)
Class Digest := Sum256 : bytes → bytes.

Section Store.

Context {digest : Digest}.

(** The file name of a payload: ["<time>-<hash>"]. *)
Definition file_name (now : Time) (payload : bytes) : string :=
  Format now +:+ hex_EncodeToString (Sum256 payload).

(** The part of [fsStore.Store] that runs with the lock of the file
    name held, from [defer lock.Unlock()] to the return. *)
Definition Store_locked (filename : string) (payload : bytes)
    (lock : Flock) (w : World) : option error_code * World :=
  match os_Stat filename (disk w) with
  | StatNotExist =>
      match os_WriteFile filename payload (disk w) with
      | None => (Some ErrStoreFailed, set_disk (Unlock lock (disk w)) w)
      | Some s2 =>
          let n := set_queued (int_incr (queued (wait w))) (wait w) in
          (None, {| disk := Unlock lock s2; wait := Signal n |})
      end
  | _ => (Some ErrDuplicatedStore, set_disk (Unlock lock (disk w)) w)
  end.

(** [fsStore.Store], with the reading of the clock as an argument. *)
Definition Store (now : Time) (payload : bytes) (w : World)
  : option error_code * World :=
  let filename := file_name now payload in
  let '(lock, s0) := flock_New filename (disk w) in
  let '(locked, err, s1) := TryLock lock s0 in
  match err with
  | Some _ => (Some ErrStoreLockFailed, set_disk s1 w)
  | None =>
      if negb locked then (Some ErrDuplicatedStore, set_disk s1 w)
      else Store_locked filename payload lock (set_disk s1 w)
  end.

(** The walk function of [Get].  Its state is the file system and the
    variable [data] it assigns. *)
Definition get_walk : WalkDirFunc (St := FS * option fsData) :=
  λ arg err st,
  let '(s, found) := st in
  match arg with
  | RootNil => Panic   (* d.IsDir() on a nil DirEntry *)
  | RootDir => Ret err st
  | Entry filename d =>
      if IsDir d then Ret (Some SkipDir) st
      else
        let '(lock, s0) := flock_New filename s in
        let '(locked, lerr, s1) := TryLock lock s0 in
        match lerr with
        | Some _ => Ret (Some (Code ErrGetLockFailed)) (s1, found)
        | None =>
            if negb locked then Ret None (s1, found)
            else
              (* deferred: lock.Unlock() unless the result is SkipDir *)
              let hash_offset := String.length time_format in
              if (String.length filename <? hash_offset)%nat
              then Ret None (Unlock lock s1, found)
              else
                let hash_str := string_drop hash_offset filename in
                match os_ReadFile filename s1 with
                | None => Ret None (Unlock lock s1, found)
                | Some file_data =>
                    let hash_hex := hex_EncodeToString (Sum256 file_data) in
                    if bool_decide (hash_hex ≠ hash_str)
                    then Ret None (Unlock lock s1, found)
                    else Ret (Some SkipDir)
                           (s1, Some {| data := file_data;
                                        file_path := filename;
                                        lock := lock |})
                end
        end
  end.

(** [fsStore.Get]. *)
Definition Get (w : World) : result World (fsData + error_code) :=
  match WalkDir fst get_walk (disk w, None) with
  | Panic => Panic
  | Ret (Some _) (s, _) => Ret (inr ErrGetFailed) (set_disk s w)
  | Ret None (s, None) => Ret (inr ErrGetEmpty) (set_disk s w)
  | Ret None (s, Some d) => Ret (inl d) (set_disk s w)
  end.

End Store.

(** The outcome of [Wait]: the goroutine is parked in [cond.Wait()]
    (and evaluates the loop condition again when it is signalled), or
    the call returns. *)
Inductive wait_result :=
| Blocked
| Returns (err : option error_code).

(** [fsStore.Wait]. *)
Definition Wait (w : World) : wait_result * World :=
  let n := wait w in
  if (queued n =? 0) && run n && negb (forceWake n) then (Blocked, w)
  else if forceWake n
  then (Returns (Some ErrTimedOut),
        {| disk := disk w; wait := set_forceWake false n |})
  else if negb (run n) then (Returns (Some ErrStoreClosed), w)
  else (Returns None, w).

(** [fsStore.Close]. *)
Definition Close (w : World) : option error_code * World :=
  let n := wait w in
  let n1 := {| signals := signals n;
               timer := match timer n with
                        | Some _ => Some TimerStopped
                        | None => None
                        end;
               queued := queued n; run := false;
               forceWake := forceWake n |} in
  (None, {| disk := disk w; wait := Signal n1 |}).

(** Modelled from the spec: [Count], which the tests and the web
    server call on a store but whose method is not among the sources.
    It returns the current pending count, read under the shared lock
    (one atomic read of the notifier). *)
Definition Count (w : World) : Z * World :=
  (queued (wait w), w).

(** [fsData.Bytes]: a copy of the contents. *)
Definition Bytes (fd : fsData) : bytes :=
  [] ++ data fd.

(** [fsData.Remove]. *)
Definition Remove (fd : fsData) (w : World) : option error_code * World :=
  match os_Remove (file_path fd) (disk w) with
  | None => (Some ErrRemoveFailed, w)
  | Some s1 =>
      let s2 := Unlock (lock fd) s1 in
      let s3 := os_Remove_lock (flock_path (lock fd)) s2 in
      let n := wait w in
      let n1 := if 0 <? queued n
                then set_queued (int_decr (queued n)) n
                else n in
      (None, {| disk := s3; wait := n1 |})
  end.

(** [fsData.Close]. *)
Definition Data_Close (fd : fsData) (w : World) : option error_code * World :=
  (None, set_disk (Unlock (lock fd) (disk w)) w).

(** The walk function of [NewFS]: one more queued message per file. *)
Definition count_walk : WalkDirFunc (St := World) :=
  λ arg err w,
  match arg with
  | RootNil => Panic   (* d.IsDir() on a nil DirEntry *)
  | RootDir => Ret err w
  | Entry _ d =>
      if IsDir d then Ret (Some SkipDir) w
      else Ret None {| disk := disk w;
                       wait := set_queued (int_incr (queued (wait w))) (wait w) |}
  end.

(** [NewFS(dir, timeout)] on the directory as it is found; [timeout] is
    a [time.Duration].  Every failure is a panic. *)
Definition NewFS (timeout : Z) (s : FS) : result World unit :=
  let n := {| signals := 0; timer := None; queued := 0; run := true;
              forceWake := false |} in
  match os_RemoveAll_lock_dir s with
  | None => Panic
  | Some s1 =>
      match os_MkdirAll_lock_dir s1 with
      | None => Panic
      | Some s2 =>
          match WalkDir disk count_walk {| disk := s2; wait := n |} with
          | Panic => Panic
          | Ret (Some _) _ => Panic
          | Ret None w =>
              if bool_decide (timeout ≠ 0)
              then Ret tt {| disk := disk w;
                             wait := {| signals := signals (wait w);
                                        timer := Some TimerArmed;
                                        queued := queued (wait w);
                                        run := run (wait w);
                                        forceWake := forceWake (wait w) |} |}
              else Ret tt w
          end
      end
  end.

(** One round of the timer goroutine after its timer fired: the forced
    wake is raised when nothing is queued at that moment, and the
    condition is signalled either way. *)
Definition timer_fire (w : World) : World :=
  let n := wait w in
  let n1 := if queued n =? 0 then set_forceWake true n else n in
  {| disk := disk w; wait := Signal n1 |}.

End local_storage.

(** ** Package [sender]: the interface the relay sends through *)

Module sender.

Inductive error_code :=
| ErrInvalidInput
| ErrSendFailed.

(** [type Sender interface { Send(msg string) error }].  Whether a
    message goes through depends on the far end, which is the state
    [sink] of the implementation. *)
Class Sender := {
  sink : Type;
  Send : string → sink → option error_code * sink;
}.

End sender.

(** ** Package [main]: the relay goroutine of [startStorage] *)

Module main.

Import local_storage.

(** [string(b)]. *)
Definition string_of_bytes (b : bytes) : string :=
  String.string_of_list_byte b.

(** The calls one round of the loop makes on the store, on the handle
    it retrieved and on the sender, in order. *)
Inductive call :=
| CallWait
| CallGet
| CallSend (msg : string)
| CallRemove (fd : fsData)
| CallClose (fd : fsData).

(** How a round ends: [continue] (or the end of the body), [return],
    the goroutine parked inside [Wait], or a panic. *)
Inductive flow :=
| LoopAgain
| Exit
| Parked
| Crashed.

Section Relay.

Context {digest : Digest} {sink_impl : sender.Sender}.

(** The body of the [for] loop. *)
Definition iteration (w : World) (q : sender.sink)
  : flow * list call * (World * sender.sink) :=
  match Wait w with
  | (Blocked, w1) => (Parked, [CallWait], (w1, q))
  | (Returns err, w1) =>
      if bool_decide (err = Some ErrStoreClosed)
      then (Exit, [CallWait], (w1, q))
      else if bool_decide (err ≠ None) && bool_decide (err ≠ Some ErrTimedOut)
      then (LoopAgain, [CallWait], (w1, q))
      else
        match Get w1 with
        | Panic => (Crashed, [CallWait; CallGet], (w1, q))
        | Ret (inr _) w2 => (LoopAgain, [CallWait; CallGet], (w2, q))
        | Ret (inl fd) w2 =>
            let msg := string_of_bytes (Bytes fd) in
            match sender.Send msg q with
            | (Some _, q1) =>
                (* Release this data so it may be retrieved again. *)
                let '(_, w3) := Data_Close fd w2 in
                (LoopAgain,
                 [CallWait; CallGet; CallSend msg; CallClose fd], (w3, q1))
            | (None, q1) =>
                match Remove fd w2 with
                | (Some _, w3) =>
                    (* Release the data, although it's already been sent. *)
                    let '(_, w4) := Data_Close fd w3 in
                    (LoopAgain,
                     [CallWait; CallGet; CallSend msg; CallRemove fd;
                      CallClose fd], (w4, q1))
                | (None, w3) =>
                    (LoopAgain,
                     [CallWait; CallGet; CallSend msg; CallRemove fd],
                     (w3, q1))
                end
            end
        end
  end.

(** The loop, for as many rounds as [fuel] allows: the calls made and
    how the last round ended. *)
Fixpoint relay (fuel : nat) (w : World) (q : sender.sink)
  : flow * list call * (World * sender.sink) :=
  match fuel with
  | O => (LoopAgain, [], (w, q))
  | S fuel' =>
      match iteration w q with
      | (LoopAgain, calls, (w1, q1)) =>
          let '(fl, calls', st) := relay fuel' w1 q1 in
          (fl, calls ++ calls', st)
      | stop => stop
      end
  end.

End Relay.

(** ** [arg_parse.go] *)

Record Args := {
  IP : string;
  Port : Z;
  TimeoutMS : Z;
  LocalStore : string;
  Endpoint : string;
  Queue : string;
}.

(** The command line as [flag.Parse] leaves it: for each flag, the
    value it was given when it was set. *)
Record CommandLine := {
  cli_IP : option string;
  cli_Port : option Z;
  cli_TimeoutMS : option Z;
  cli_LocalStore : option string;
  cli_Endpoint : option string;
  cli_Queue : option string;
  cli_confFile : option string;
}.

Definition defaultIP : string := "0.0.0.0".
Definition defaultPort : Z := 8888.
Definition defaultTimeoutMS : Z := 60000.
Definition defaultLocalStore : string := "/tmp/local-store".

(** The flags the program defines. *)
Inductive flag_name :=
| FlagEndpoint
| FlagIP
| FlagLocalStore
| FlagPort
| FlagQueue
| FlagTimeoutMS
| FlagconfFile.

(** [flag.Visit] goes through the flags that were set, in
    lexicographical order of their names (upper case first). *)
Definition is_set (c : CommandLine) (f : flag_name) : bool :=
  match f with
  | FlagEndpoint => bool_decide (is_Some (cli_Endpoint c))
  | FlagIP => bool_decide (is_Some (cli_IP c))
  | FlagLocalStore => bool_decide (is_Some (cli_LocalStore c))
  | FlagPort => bool_decide (is_Some (cli_Port c))
  | FlagQueue => bool_decide (is_Some (cli_Queue c))
  | FlagTimeoutMS => bool_decide (is_Some (cli_TimeoutMS c))
  | FlagconfFile => bool_decide (is_Some (cli_confFile c))
  end.

Definition Visit {A} (c : CommandLine) (fn : flag_name → A → A) (a : A) : A :=
  foldl (λ a f, fn f a) a
    (filter (λ f, is_set c f = true)
       [FlagEndpoint; FlagIP; FlagLocalStore; FlagPort; FlagQueue;
        FlagTimeoutMS; FlagconfFile]).

(** The function [parseArgs] passes to [flag.Visit]; [val, _ :=
    get.Get().(T)] is the value of the flag. *)
Definition override (c : CommandLine) (f : flag_name) (jsonArgs : Args) : Args :=
  match f with
  | FlagconfFile => jsonArgs   (* Skip the file itself *)
  | FlagIP =>
      {| IP := default ""%string (cli_IP c); Port := Port jsonArgs;
         TimeoutMS := TimeoutMS jsonArgs; LocalStore := LocalStore jsonArgs;
         Endpoint := Endpoint jsonArgs; Queue := Queue jsonArgs |}
  | FlagPort => jsonArgs       (* logged, not assigned *)
  | FlagTimeoutMS =>
      {| IP := IP jsonArgs; Port := Port jsonArgs;
         TimeoutMS := default 0 (cli_TimeoutMS c);
         LocalStore := LocalStore jsonArgs;
         Endpoint := Endpoint jsonArgs; Queue := Queue jsonArgs |}
  | FlagLocalStore =>
      {| IP := IP jsonArgs; Port := Port jsonArgs;
         TimeoutMS := TimeoutMS jsonArgs;
         LocalStore := default ""%string (cli_LocalStore c);
         Endpoint := Endpoint jsonArgs; Queue := Queue jsonArgs |}
  | FlagEndpoint =>
      {| IP := IP jsonArgs; Port := Port jsonArgs;
         TimeoutMS := TimeoutMS jsonArgs; LocalStore := LocalStore jsonArgs;
         Endpoint := default ""%string (cli_Endpoint c);
         Queue := Queue jsonArgs |}
  | FlagQueue =>
      {| IP := IP jsonArgs; Port := Port jsonArgs;
         TimeoutMS := TimeoutMS jsonArgs; LocalStore := LocalStore jsonArgs;
         Endpoint := Endpoint jsonArgs;
         Queue := default ""%string (cli_Queue c) |}
  end.

(** [parseArgs].  [read_conf path] is what opening [path] and decoding
    it into a zero [Args] gives, [None] when either fails; the result
    [None] is the exit of [log.Fatalf]. *)
Definition parseArgs (read_conf : string → option Args) (c : CommandLine)
  : option Args :=
  let args := {| IP := default defaultIP (cli_IP c);
                 Port := default defaultPort (cli_Port c);
                 TimeoutMS := default defaultTimeoutMS (cli_TimeoutMS c);
                 LocalStore := default defaultLocalStore (cli_LocalStore c);
                 Endpoint := default ""%string (cli_Endpoint c);
                 Queue := default ""%string (cli_Queue c) |} in
  let confFile := default ""%string (cli_confFile c) in
  if negb (String.length confFile =? 0)%nat then
    match read_conf confFile with
    | None => None
    | Some jsonArgs => Some (Visit c (override c) jsonArgs)
    end
  else Some args.

(** ** [web.go] *)

(** [io.Writer]: [Write p] gives the number of bytes it took, which
    is at most [len(p)], whether it failed, and the writer then. *)
Class Writer := {
  writer : Type;
  io_Write : bytes → writer → nat * bool * writer;
  io_Write_le : ∀ p w, ((io_Write p w).1.1 ≤ length p)%nat;
}.

(** [writeData]: the loop, for as many rounds as [fuel] allows. *)
Fixpoint writeData `{Writer} (fuel : nat) (data : bytes) (w : writer)
  : option writer :=
  match data with
  | [] => Some w
  | _ :: _ =>
      match fuel with
      | O => None
      | S fuel' =>
          let '(n, err, w1) := io_Write data w in
          if err : bool then Some w1   (* logged *)
          else writeData fuel' (drop n data) w1
      end
  end.

(** An [http.ResponseWriter] that records the reply: the header as it
    is sent, the status once it is written, and the body. *)
Record ResponseWriter := {
  Header : gmap string string;
  status : option Z;
  body : bytes;
}.

Definition Header_Set (key value : string) (w : ResponseWriter)
  : ResponseWriter :=
  match status w with
  | Some _ => w
  | None => {| Header := <[key := value]> (Header w); status := None;
               body := body w |}
  end.

Definition WriteHeader (code : Z) (w : ResponseWriter) : ResponseWriter :=
  match status w with
  | Some _ => w
  | None => {| Header := Header w; status := Some code; body := body w |}
  end.

(** A reply of status 1xx, 204 or 304 has no body. *)
Definition bodyAllowedForStatus (code : Z) : bool :=
  negb ((100 <=? code) && (code <=? 199)) &&
  negb (code =? 204) && negb (code =? 304).

Definition ResponseWriter_Write (p : bytes) (w : ResponseWriter)
  : nat * bool * ResponseWriter :=
  let w1 := WriteHeader 200 w in
  if bodyAllowedForStatus (default 200 (status w1))
  then (length p, false,
        {| Header := Header w1; status := status w1; body := body w1 ++ p |})
  else (O, true, w1).

#[global] Instance ResponseWriter_Writer : Writer.
Proof.
  refine {| writer := ResponseWriter; io_Write := ResponseWriter_Write |}.
  intros p w. unfold ResponseWriter_Write.
  destruct (bodyAllowedForStatus _); simpl; lia.
Defined.

(** What the handlers read of an [http.Request]; [URL_clean] is
    [path.Clean(req.URL.EscapedPath())]. *)
Record Request := {
  Method : string;
  URL_clean : string;
  Accept : string;
  Body : bytes;
}.

(** [encoding/json] on the two structures of the handlers: the message
    of a POST ([Channel], [Message]) and the count of a GET. *)
Class Json := {
  Decode_message : bytes → option (string * string);
  Marshal_message : string * string → option bytes;
  Marshal_count : Z → option bytes;
}.

(** [strings.Split(s, "/")]. *)
Fixpoint Split (s : string) : list string :=
  match s with
  | EmptyString => [EmptyString]
  | String c rest =>
      if Ascii.eqb c "/" then EmptyString :: Split rest
      else match Split rest with
           | [] => [String c EmptyString]
           | h :: t => String c h :: t
           end
  end.

(** [cleanURL], on the cleaned path. *)
Definition cleanURL (resUrl : string) : string :=
  match resUrl with
  | String c rest =>
      if Ascii.eqb c "/" then rest
      else if (String.length resUrl =? 1)%nat && Ascii.eqb c "."
      then EmptyString
      else resUrl
  | EmptyString => resUrl
  end.

Definition httpTextReply (fuel : nat) (code : Z) (msg : string)
    (w : ResponseWriter) : option ResponseWriter :=
  writeData fuel (String.list_byte_of_string msg)
    (WriteHeader code (Header_Set "Content-Type" "text/plain" w)).

(** The keys of [server.handlers]. *)
Inductive endpointHandler :=
| HandleGetMessage
| HandlePostMessage.

Definition handlers (resource method : string) : option endpointHandler :=
  if bool_decide (resource = "message"%string) then
    if bool_decide (method = "GET"%string) then Some HandleGetMessage
    else if bool_decide (method = "POST"%string) then Some HandlePostMessage
    else None
  else None.

Section Web.

Context {digest : Digest} {json : Json}.

Definition GetMessage (fuel : nat) (req : Request) (res : list string)
    (rw : ResponseWriter) (w : World) : option (ResponseWriter * World) :=
  let '(num, w1) := Count w in
  if (1 <? length res)%nat then
    rw1 ← httpTextReply fuel 404 "Invalid resource" rw; Some (rw1, w1)
  else if bool_decide (Accept req = "application/json"%string) then
    match Marshal_count num with
    | None =>
        rw1 ← httpTextReply fuel 500 "Failed to encode the response" rw;
        Some (rw1, w1)
    | Some data =>
        rw1 ← writeData fuel data
                (WriteHeader 200
                   (Header_Set "Content-Type" "application/json" rw));
        Some (rw1, w1)
    end
  else
    rw1 ← httpTextReply fuel 200
            ("Local message count: " +:+ pretty num) rw;
    Some (rw1, w1).

Definition PostMessage (fuel : nat) (now : Time) (req : Request)
    (res : list string) (rw : ResponseWriter) (w : World)
  : option (ResponseWriter * World) :=
  if (1 <? length res)%nat then
    rw1 ← httpTextReply fuel 404 "Invalid resource" rw; Some (rw1, w)
  else
    match Decode_message (Body req) with
    | None => rw1 ← httpTextReply fuel 400 "Invalid data" rw; Some (rw1, w)
    | Some msg =>
        (* Re-encode the message, to possibly add more fields. *)
        match Marshal_message msg with
        | None =>
            rw1 ← httpTextReply fuel 500 "Failed to encode the message" rw;
            Some (rw1, w)
        | Some data =>
            match Store now data w with
            | (Some _, w1) =>
                rw1 ← httpTextReply fuel 500 "Failed to store the message" rw;
                Some (rw1, w1)
            | (None, w1) => Some (WriteHeader 204 rw, w1)
            end
        end
    end.

(** [server.ServeHTTP]. *)
Definition ServeHTTP (fuel : nat) (now : Time) (req : Request)
    (rw : ResponseWriter) (w : World) : option (ResponseWriter * World) :=
  let uri := cleanURL (URL_clean req) in
  match Split uri with
  | [] =>
      rw1 ← httpTextReply fuel 404 "No resource was specified" rw;
      Some (rw1, w)
  | (resource :: _) as res =>
      match handlers resource (Method req) with
      | None =>
          rw1 ← httpTextReply fuel 404 "Invalid resource" rw; Some (rw1, w)
      | Some HandleGetMessage => GetMessage fuel req res rw w
      | Some HandlePostMessage => PostMessage fuel now req res rw w
      end
  end.

End Web.

End main.

(** * Properties *)

Import local_storage.

(** ** Notions the statements use *)

(** The contents of an entry that is a regular file. *)
Definition file_data (n : node) : option bytes :=
  match n with
  | File d => Some d
  | Dir => None
  end.

(** The payload files of a directory, by name. *)
Definition files (s : FS) : gmap string bytes :=
  omap file_data (entries s).

(** No lock file of the lock directory is locked. *)
Definition all_free (s : FS) : Prop :=
  ∀ n i, locks s !! n = Some i → ino_locked i s = false.

(** The allocation counters are ahead of every [Flock] object and every
    inode in use: what [flock.New] and the creation of a lock file hand
    out is fresh. *)
Definition wf_fs (s : FS) : Prop :=
  map_Forall (λ k i, (k < next_flock s)%nat ∧ (i < next_ino s)%nat) (held s) ∧
  map_Forall (λ _ i, (i < next_ino s)%nat) (locks s).

#[global] Instance wf_fs_dec s : Decision (wf_fs s).
Proof. unfold wf_fs. apply _. Defined.

(** No call of the operating system fails. *)
Definition healthy (s : FS) : bool :=
  negb (lstat_fails (faults s)) && negb (readdir_fails (faults s)) &&
  negb (stat_fails (faults s)) && negb (write_fails (faults s)) &&
  negb (readfile_fails (faults s)) && negb (remove_fails (faults s)) &&
  negb (removeall_fails (faults s)) && negb (mkdirall_fails (faults s)).

(** The storage directory can be walked and its files read. *)
Definition readable (s : FS) : bool :=
  negb (lstat_fails (faults s)) && negb (readdir_fails (faults s)) &&
  negb (readfile_fails (faults s)).

(** What a pass over the lock directory may change between two states:
    lock files are only added, with inodes allocated in between, and
    the counters only grow; the storage directory and the failures of
    the environment stay as they are. *)
Definition frame (s s' : FS) : Prop :=
  faults s' = faults s ∧ entries s' = entries s ∧
  locks s ⊆ locks s' ∧
  (∀ n i, locks s' !! n = Some i → locks s !! n = Some i ∨ (next_ino s ≤ i)%nat) ∧
  (next_flock s ≤ next_flock s')%nat ∧ (next_ino s ≤ next_ino s')%nat.

Section Notions.

Context {digest : Digest}.

(** A file passes the integrity check of [Get]: its name is long
    enough to carry a time stamp and ends in the digest of its
    contents. *)
Definition intact (name : string) (d : bytes) : Prop :=
  (String.length time_format ≤ String.length name)%nat ∧
  hex_EncodeToString (Sum256 d) = string_drop (String.length time_format) name.

(** Every payload file is one that [Store] wrote: named after a
    reading of the clock and the digest of its contents. *)
Definition written_by_store (s : FS) : Prop :=
  ∀ name d, entries s !! name = Some (File d) →
    ∃ now, clock_ok now = true ∧ name = file_name now d.

(** [Get] handed out [fd] between [s] and [s']: the item was on disk
    and intact, its lock was free, and the fresh [Flock] object of the
    handle now holds it. *)
Definition granted (fd : fsData) (s s' : FS) : Prop :=
  flock_path (lock fd) = file_path fd ∧
  entries s !! file_path fd = Some (File (data fd)) ∧
  intact (file_path fd) (data fd) ∧
  readfile_fails (faults s) = false ∧
  lock_dir_exists s = true ∧
  held s !! flock_id (lock fd) = None ∧
  (next_flock s ≤ flock_id (lock fd) < next_flock s')%nat ∧
  ∃ ino, locks s' !! file_path fd = Some ino ∧
         held s' = <[flock_id (lock fd) := ino]> (held s) ∧
         ino_locked ino s = false ∧
         (∀ i, locks s !! file_path fd = Some i → i = ino).

(** Why a pass of [Get] leaves a file behind: its lock is held, its
    name is too short to carry a digest, it cannot be read, or its
    contents do not match the digest in its name. *)
Definition skipped (name : string) (s : FS) : Prop :=
  (∃ ino, locks s !! name = Some ino ∧ ino_locked ino s = true) ∨
  (String.length name < String.length time_format)%nat ∨
  os_ReadFile name s = None ∨
  (∃ d, os_ReadFile name s = Some d ∧ ¬ intact name d).

(** The handle [fd] is open: its item is on disk, intact and with the
    contents the handle carries, and its [Flock] object is the one
    holder of the lock on the inode that the lock file of the item
    names. *)
Definition Open (fd : fsData) (s : FS) : Prop :=
  flock_path (lock fd) = file_path fd ∧
  entries s !! file_path fd = Some (File (data fd)) ∧
  intact (file_path fd) (data fd) ∧
  ∃ ino, held s !! flock_id (lock fd) = Some ino ∧
         locks s !! file_path fd = Some ino ∧
         ∀ k, held s !! k = Some ino → k = flock_id (lock fd).

(** What holds of a handle from the moment [Get] returns it until
    it is closed or removed. *)
Definition Inv (fd : fsData) (s : FS) : Prop :=
  wf_fs s ∧ lock_dir_exists s = true ∧ Open fd s.

(** The item of [fd] is the only payload file of the directory. *)
Definition only_item (fd : fsData) (s : FS) : Prop :=
  ∀ name d, entries s !! name = Some (File d) → name = file_path fd.

(** A store as [NewFS] leaves it on a directory of files that [Store]
    wrote: every call of the system succeeds, no lock is taken, and
    the pending count is the number of payload files. *)
Definition recoverable (w : World) : Prop :=
  wf_fs (disk w) ∧ healthy (disk w) = true ∧
  lock_dir_exists (disk w) = true ∧ all_free (disk w) ∧
  written_by_store (disk w) ∧
  queued (wait w) = Z.of_nat (size (files (disk w))) ∧
  Z.of_nat (size (files (disk w))) ≤ int_max.

(** The operations of a running store and of the handles it gave
    out. *)
Inductive op :=
| OpStore (now : Time) (payload : bytes)
| OpGet
| OpWait
| OpClose
| OpCount
| OpTimer
| OpDataClose (fd : fsData)
| OpDataRemove (fd : fsData).

Definition do_op (o : op) (w : World) : option World :=
  match o with
  | OpStore now payload => Some (Store now payload w).2
  | OpGet => match Get w with
             | Panic => None
             | Ret _ w' => Some w'
             end
  | OpWait => Some (Wait w).2
  | OpClose => Some (Close w).2
  | OpCount => Some (Count w).2
  | OpTimer => Some (timer_fire w)
  | OpDataClose fd => Some (Data_Close fd w).2
  | OpDataRemove fd => Some (Remove fd w).2
  end.

Fixpoint do_ops (os : list op) (w : World) : option World :=
  match os with
  | [] => Some w
  | o :: rest =>
      match do_op o w with
      | None => None
      | Some w' => do_ops rest w'
      end
  end.

(** [fd'] is the handle of another item than [fd]. *)
Definition other_item (fd fd' : fsData) : Prop :=
  flock_id (lock fd') ≠ flock_id (lock fd) ∧
  file_path fd' ≠ file_path fd ∧
  flock_path (lock fd') ≠ file_path fd.

(** The operation leaves the handle [fd] alone: it is neither its
    [Close] nor its [Remove], and where it closes or removes a handle
    that is the handle of another item. *)
Definition leaves (fd : fsData) (o : op) : Prop :=
  match o with
  | OpDataClose fd' | OpDataRemove fd' => other_item fd fd'
  | _ => True
  end.

(** The consumer of the tests: [n] rounds of [Get], [Bytes],
    [Remove], collecting what was read. *)
Fixpoint drain (n : nat) (w : World) : option (list bytes * World) :=
  match n with
  | O => Some ([], w)
  | S n' =>
      match Get w with
      | Ret (inl fd) w1 =>
          match Remove fd w1 with
          | (None, w2) =>
              match drain n' w2 with
              | Some (l, w3) => Some (Bytes fd :: l, w3)
              | None => None
              end
          | (Some _, _) => None
          end
      | _ => None
      end
  end.

End Notions.

(** ** A directory, a clock and a sender to run the operations on *)

Definition no_faults : Faults :=
  {| lstat_fails := false; readdir_fails := false; stat_fails := false;
     write_fails := false; readfile_fails := false; remove_fails := false;
     removeall_fails := false; mkdirall_fails := false |}.

(** An empty storage directory on which nothing was ever locked. *)
Definition empty_dir : FS :=
  {| faults := no_faults; entries := ∅; locks := ∅; held := ∅;
     next_ino := 0; next_flock := 0 |}.

(** The store of the tests, [NewFS(dir, time.Millisecond)] on an empty
    directory: the lock directory is there and the timer is armed. *)
Definition fresh_store : World :=
  {| disk := set_entries (insert lock_dir_name Dir) empty_dir;
     wait := {| signals := 0; timer := Some TimerArmed; queued := 0;
                run := true; forceWake := false |} |}.

(** A stand-in for SHA-256 in the examples: the contents themselves. *)
Definition plain_digest : Digest := λ b, b.

Definition noon : Time :=
  {| year := 2022; month := 2; day := 7; hour := 12; minute := 0;
     second := 0; nsec := 0 |}.

Definition noon_and_a_half : Time :=
  {| year := 2022; month := 2; day := 7; hour := 12; minute := 0;
     second := 0; nsec := 500000000 |}.

Definition hello : bytes := String.list_byte_of_string "hello".

Definition world : bytes := String.list_byte_of_string "world".

(** A sender whose far end is up ([true]) or down. *)
Definition switch_sender : sender.Sender :=
  {| sender.sink := bool;
     sender.Send := λ _ up,
       (if up then None else Some sender.ErrSendFailed, up) |}.

(** The fresh store after ["hello"] was stored in it at noon. *)
Definition one_item : World :=
  (Store (digest := plain_digest) noon hello fresh_store).2.

(** The handle that [Get] gives out on [one_item], and the store
    then. *)
Definition hello_handle : fsData :=
  {| data := hello;
     file_path := file_name (digest := plain_digest) noon hello;
     lock := {| flock_id := 1;
                flock_path := file_name (digest := plain_digest) noon hello |} |}.

Definition one_item_claimed : World :=
  match Get (digest := plain_digest) one_item with
  | Ret _ w => w
  | Panic => one_item
  end.

(** What a producer and the timer do while the consumer holds the
    handle, and the store after it. *)
Definition meanwhile : list op :=
  [OpWait; OpStore noon_and_a_half hello; OpCount; OpGet; OpTimer].

Definition one_item_later : World :=
  default one_item_claimed
    (do_ops (digest := plain_digest) meanwhile one_item_claimed).

(** A directory as a store that stopped left it: two payload files,
    the lock directory and the lock files of both. *)
Definition left_behind : FS :=
  {| faults := no_faults;
     entries :=
       <[lock_dir_name := Dir]>
         (<[file_name (digest := plain_digest) noon hello := File hello]>
            (<[file_name (digest := plain_digest) noon world := File world]> ∅));
     locks :=
       <[file_name (digest := plain_digest) noon hello := 0%nat]>
         (<[file_name (digest := plain_digest) noon world := 1%nat]> ∅);
     held := ∅; next_ino := 2; next_flock := 2 |}.

(** A storage directory that lost its lock directory, with one payload
    file in it. *)
Definition unlockable : World :=
  {| disk := {| faults := no_faults;
                entries := {[ "2022-02-07-12-00-00-68656c6c6f"%string :=
                                File hello ]};
                locks := ∅; held := ∅; next_ino := 0; next_flock := 0 |};
     wait := wait fresh_store |}.

(** ** Further notions *)

(** The lock of the file [name] is held at the moment. *)
Definition busy (name : string) (s : FS) : bool :=
  match locks s !! name with
  | Some ino => ino_locked ino s
  | None => false
  end.

(** The messages passed to [Send] among the calls of the relay, in
    order. *)
Definition sent (calls : list main.call) : list string :=
  omap (λ c, match c with main.CallSend msg => Some msg | _ => None end) calls.

(** Reading a decimal number back from its digits. *)
Definition undigit (c : ascii) : Z :=
  Z.of_nat (nat_of_ascii c) - 48.

Fixpoint read_decimal (s : string) (acc : Z) : Z :=
  match s with
  | EmptyString => acc
  | String c rest => read_decimal rest (10 * acc + undigit c)
  end.

(** ** More stores, a command line and requests to run the code on *)

Definition world_of {A} (r : result World A) (w : World) : World :=
  match r with
  | Ret _ w' => w'
  | Panic => w
  end.


(** A sender that accepts every message and keeps it. *)
Definition accepting_sender : sender.Sender :=
  {| sender.sink := list string;
     sender.Send := λ msg q, (None, q ++ [msg]) |}.

(** A sender whose far end is down: it refuses every message and
    counts the attempts. *)
Definition down_sender : sender.Sender :=
  {| sender.sink := nat;
     sender.Send := λ _ q, (Some sender.ErrSendFailed, S q) |}.




(** A directory that holds nothing but such a file, and the store
    that [NewFS] builds on it. *)
Definition stray_dir : FS :=
  {| faults := no_faults;
     entries := {[ "0notes"%string := File world ]};
     locks := ∅; held := ∅; next_ino := 0; next_flock := 0 |}.

Definition stray_store : World :=
  world_of (NewFS 1000000 stray_dir) fresh_store.

(** The store that [NewFS] builds on [left_behind]. *)
Definition recovered : World :=
  world_of (NewFS 1000000 left_behind) fresh_store.

(** [one_item] once its handle was removed, and once it was closed. *)
Definition one_item_removed : World :=
  (Remove hello_handle one_item_claimed).2.

Definition closed_item : World := (Close one_item).2.

(** Two rounds of the relay on [one_item], the far end being up. *)
Definition delivered : main.flow * list main.call * (World * bool) :=
  main.relay (digest := plain_digest) (sink_impl := switch_sender)
    2 one_item true.

(** A writer that takes two bytes at a time. *)
Definition pair_writer : main.Writer.
Proof.
  refine {| main.writer := bytes;
            main.io_Write := λ p w,
              (Nat.min 2 (length p), false,
               w ++ take (Nat.min 2 (length p)) p) |}.
  intros p w. apply Nat.le_min_r.
Defined.

(** A stand-in for [encoding/json] in the examples: the message is the
    body itself, on no channel. *)
Definition plain_json : main.Json :=
  {| main.Decode_message := λ b, Some (""%string, main.string_of_bytes b);
     main.Marshal_message := λ m, Some (String.list_byte_of_string m.2);
     main.Marshal_count := λ n, Some (String.list_byte_of_string (pretty n)) |}.


Definition get_elsewhere : main.Request :=
  {| main.Method := "GET"; main.URL_clean := "/message/1";
     main.Accept := ""; main.Body := [] |}.

Definition no_reply : main.ResponseWriter :=
  {| main.Header := ∅; main.status := None; main.body := [] |}.

(** [server -IP 127.0.0.1 -Port 9999 -confFile conf.json], and what
    the file decodes to. *)
Definition command_line : main.CommandLine :=
  {| main.cli_IP := Some "127.0.0.1"%string; main.cli_Port := Some 9999;
     main.cli_TimeoutMS := None; main.cli_LocalStore := None;
     main.cli_Endpoint := None; main.cli_Queue := None;
     main.cli_confFile := Some "conf.json"%string |}.

Definition conf_json : main.Args :=
  {| main.IP := "10.0.0.1"; main.Port := 8080; main.TimeoutMS := 0;
     main.LocalStore := "/var/store"; main.Endpoint := "";
     main.Queue := "http://localhost:4566/000000000000/test-queue" |}.

(** ** Strings and the time stamp *)

Lemma string_length_app (a b : string) :
  String.length (a +:+ b) = (String.length a + String.length b)%nat.
Proof. induction a as [|c a IH]; simpl; [done | by rewrite IH]. Qed.

Lemma string_drop_app (a b : string) :
  string_drop (String.length a) (a +:+ b) = b.
Proof. induction a as [|c a IH]; simpl; [by destruct b | done]. Qed.

Lemma appendInt_length_2 (x : Z) :
  0 ≤ x < 100 → String.length (appendInt x 2) = 2%nat.
Proof.
  intros Hx. unfold appendInt.
  replace (x <? 0) with false by lia.
  rewrite Z.abs_eq by lia. cbn [decimal].
  destruct (x <? 10) eqn:H10; [done |].
  replace (x / 10 <? 10) with true; [done |].
  symmetry. apply Z.ltb_lt. apply Z.div_lt_upper_bound; lia.
Qed.

Lemma appendInt_length_4 (x : Z) :
  0 ≤ x < 10000 → String.length (appendInt x 4) = 4%nat.
Proof.
  intros Hx. unfold appendInt.
  replace (x <? 0) with false by lia.
  rewrite Z.abs_eq by lia. cbn [decimal].
  destruct (x <? 10) eqn:H1; [done |].
  destruct (x / 10 <? 10) eqn:H2; [done |].
  destruct (x / 10 / 10 <? 10) eqn:H3; [done |].
  replace (x / 10 / 10 / 10 <? 10) with true; [done |].
  symmetry. apply Z.ltb_lt.
  repeat (apply Z.div_lt_upper_bound; [lia |]). lia.
Qed.

Lemma Format_length (t : Time) :
  clock_ok t = true → String.length (Format t) = String.length time_format.
Proof.
  unfold clock_ok. rewrite !andb_true_iff.
  intros [[[[[[[[[[[? ?] ?] ?] ?] ?] ?] ?] ?] ?] ?] ?].
  unfold Format. rewrite !string_length_app.
  rewrite appendInt_length_4 by lia.
  rewrite !appendInt_length_2 by lia. done.
Qed.

Lemma Format_same_second (t1 t2 : Time) :
  same_second t1 t2 → Format t1 = Format t2.
Proof.
  intros (Hy & Hmo & Hd & Hh & Hmi & Hs). unfold Format.
  by rewrite Hy, Hmo, Hd, Hh, Hmi, Hs.
Qed.

(** ** Locks *)

Lemma frame_refl s : frame s s.
Proof. unfold frame. naive_solver. Qed.

Lemma frame_trans s1 s2 s3 : frame s1 s2 → frame s2 s3 → frame s1 s3.
Proof.
  intros (Hf1 & He1 & Hl1 & Hn1 & Hk1 & Hi1) (Hf2 & He2 & Hl2 & Hn2 & Hk2 & Hi2).
  unfold frame. repeat split; try congruence; try lia.
  - by etrans.
  - intros n i Hn. destruct (Hn2 n i Hn) as [Hn'|Hn']; [|right; lia].
    destruct (Hn1 n i Hn'); [by left | right; lia].
Qed.

Lemma ino_locked_true ino s :
  ino_locked ino s = true ↔ ∃ k, held s !! k = Some ino.
Proof.
  unfold ino_locked. rewrite bool_decide_eq_true. apply elem_of_map_img.
Qed.

Lemma ino_locked_false ino s :
  ino_locked ino s = false ↔ ∀ k, held s !! k ≠ Some ino.
Proof.
  unfold ino_locked. rewrite bool_decide_eq_false, elem_of_map_img.
  split; [intros Hn k Hk; apply Hn; eauto | intros Hn [k Hk]; by eapply Hn].
Qed.

Lemma wf_fresh_flock s : wf_fs s → held s !! next_flock s = None.
Proof.
  intros [Hh _]. destruct (held s !! next_flock s) as [i|] eqn:E; [|done].
  apply Hh in E. lia.
Qed.

Lemma wf_fresh_ino s : wf_fs s → ino_locked (next_ino s) s = false.
Proof.
  intros [Hh _]. apply ino_locked_false. intros k E. apply Hh in E. lia.
Qed.

Lemma wf_Unlock l s : wf_fs s → wf_fs (Unlock l s).
Proof.
  intros [Hh Hl]. split; simpl; [|done]. by apply map_Forall_delete.
Qed.

(** The outcome of [flock.New] followed by [TryLock]. *)
Lemma acquire_spec name s b e s1 :
  wf_fs s →
  TryLock (flock_New name s).1 (flock_New name s).2 = (b, e, s1) →
  frame s s1 ∧ wf_fs s1 ∧ next_flock s1 = S (next_flock s) ∧
  ((e = Some OSError ∧ b = false ∧ held s1 = held s ∧ lock_dir_exists s = false) ∨
   (e = None ∧ b = false ∧ held s1 = held s ∧ lock_dir_exists s = true ∧
    ∃ ino, locks s !! name = Some ino ∧ ino_locked ino s = true) ∨
   (e = None ∧ b = true ∧ lock_dir_exists s = true ∧
    held s !! next_flock s = None ∧
    ∃ ino, locks s1 !! name = Some ino ∧
           held s1 = <[next_flock s := ino]> (held s) ∧
           ino_locked ino s = false ∧
           (∀ i, locks s !! name = Some i → i = ino))).
Proof.
  intros Hwf. pose proof (wf_fresh_flock s Hwf) as Hk.
  pose proof (wf_fresh_ino s Hwf) as Hi.
  destruct Hwf as [Hh Hl].
  unfold TryLock, flock_New; simpl. rewrite Hk.
  change (lock_dir_exists _) with (lock_dir_exists s).
  destruct (lock_dir_exists s) eqn:Hd.
  2:{ intros [= <- <- <-]. split_and!.
      - unfold frame; simpl. split_and!; auto with lia.
      - split; simpl; [|done]. eapply map_Forall_impl; [exact Hh|]. simpl. lia.
      - done.
      - left. done. }
  unfold open_lock_file; simpl.
  destruct (locks s !! name) as [ino|] eqn:Hn; simpl.
  - change (ino_locked ino _) with (ino_locked ino s).
    destruct (ino_locked ino s) eqn:Hlk; intros [= <- <- <-]; split_and!.
    + unfold frame; simpl. split_and!; auto with lia.
    + split; simpl; [|done]. eapply map_Forall_impl; [exact Hh|]. simpl. lia.
    + done.
    + right; left. split_and!; eauto.
    + unfold frame; simpl. split_and!; auto with lia.
    + split; simpl; [|done]. apply map_Forall_insert_2.
      * split; [lia|]. by apply Hl in Hn.
      * eapply map_Forall_impl; [exact Hh|]. simpl. lia.
    + done.
    + right; right. split_and!; eauto. exists ino. split_and!; auto. congruence.
  - change (ino_locked (next_ino s) _) with (ino_locked (next_ino s) s).
    rewrite Hi. intros [= <- <- <-]; split_and!.
    + unfold frame; simpl. split_and!; auto with lia.
      * by apply insert_subseteq.
      * intros n i. rewrite lookup_insert. case_decide; [|by left].
        intros [= <-]. right. lia.
    + split; simpl.
      * apply map_Forall_insert_2; [lia|].
        eapply map_Forall_impl; [exact Hh|]. simpl. lia.
      * apply map_Forall_insert_2; [lia|].
        eapply map_Forall_impl; [exact Hl|]. simpl. lia.
    + done.
    + right; right. split_and!; eauto. exists (next_ino s). split_and!; auto.
      * simpl. by rewrite lookup_insert_eq.
      * congruence.
Qed.

Section StoreProperties.

Context {digest : Digest}.

Lemma os_ReadFile_frame name s s' :
  frame s s' → os_ReadFile name s' = os_ReadFile name s.
Proof. intros (Hf & He & _). unfold os_ReadFile. by rewrite Hf, He. Qed.

Lemma os_ReadFile_Some name s d :
  os_ReadFile name s = Some d ↔
  readfile_fails (faults s) = false ∧ entries s !! name = Some (File d).
Proof.
  unfold os_ReadFile. destruct (readfile_fails _).
  { split; [done | by intros [? _]]. }
  destruct (entries s !! name) as [[d'|]|].
  - split; [by intros [= ->] | by intros [_ [= ->]]].
  - split; [done | by intros [_ ?]].
  - split; [done | by intros [_ ?]].
Qed.

Lemma lock_dir_exists_frame s s' :
  frame s s' → lock_dir_exists s' = lock_dir_exists s.
Proof. intros (_ & He & _). unfold lock_dir_exists. by rewrite He. Qed.

Lemma frame_Unlock l s s' : frame s s' → frame s (Unlock l s').
Proof. done. Qed.

Lemma get_walk_file name s found r s' found' :
  wf_fs s →
  get_walk (Entry name {| IsDir := false |}) None (s, found) = Ret r (s', found') →
  frame s s' ∧ wf_fs s' ∧
  ((r = Some (Code ErrGetLockFailed) ∧ found' = found ∧ held s' = held s ∧
    lock_dir_exists s = false) ∨
   (r = None ∧ found' = found ∧ held s' = held s ∧
    lock_dir_exists s = true ∧ skipped name s) ∨
   (r = Some SkipDir ∧
    ∃ fd, found' = Some fd ∧ file_path fd = name ∧ granted fd s s')).
Proof.
  intros Hwf. unfold get_walk. cbn beta iota delta [IsDir].
  destruct (flock_New name s) as [l s0] eqn:HN.
  destruct (TryLock l s0) as [[b e] s1] eqn:HT.
  assert (l = (flock_New name s).1 ∧ s0 = (flock_New name s).2) as [-> ->]
    by (by rewrite HN).
  apply acquire_spec in HT as (Hfr & Hwf1 & Hnf & Hcase); [|done].
  assert (next_flock s < next_flock s1)%nat as Hlt by lia.
  destruct Hcase as [(-> & -> & Hh & Hd)|[(-> & -> & Hh & Hd & ino & Hn & Hlk)|
                     (-> & -> & Hd & Hk & ino & Hn & Hh & Hlk & Huniq)]].
  - intros [= <- <- <-]. split_and!; auto.
  - simpl. intros [= <- <- <-]. split_and!; auto.
    right; left. split_and!; auto. left. eauto.
  - cbn beta iota zeta delta [negb].
    assert (held (Unlock (flock_New name s).1 s1) = held s) as Hrel.
    { simpl. rewrite Hh, delete_insert_eq. by apply delete_id. }
    destruct (String.length name <? String.length time_format)%nat eqn:Hlen.
    { intros [= <- <- <-]. split_and!; auto using wf_Unlock.
      right; left. split_and!; auto. right; left. by apply Nat.ltb_lt. }
    apply Nat.ltb_ge in Hlen.
    rewrite (os_ReadFile_frame _ _ _ Hfr).
    destruct (os_ReadFile name s) as [d|] eqn:Hrd.
    2:{ intros [= <- <- <-]. split_and!; auto using wf_Unlock.
        right; left. split_and!; auto. right; right; left. done. }
    case_bool_decide as Hhash.
    { intros [= <- <- <-]. split_and!; auto using wf_Unlock.
      right; left. split_and!; auto. right; right; right.
      exists d. split; [done|]. intros [_ Hi]. done. }
    intros [= <- <- <-]. split_and!; auto.
    right; right. split; [done|]. eexists. split; [done|]. simpl.
    apply os_ReadFile_Some in Hrd as [Hrf Hent].
    split; [done|]. unfold granted; simpl. split_and!; auto.
    + by split.
    + exists ino. split_and!; auto.
Qed.

Lemma ino_locked_held i s s' : held s' = held s → ino_locked i s' = ino_locked i s.
Proof. unfold ino_locked. by intros ->. Qed.

Lemma skipped_frame name s s' :
  wf_fs s → frame s s' → held s' = held s → skipped name s' → skipped name s.
Proof.
  intros [Hwh _] Hfr Hh [(ino & Hn & Hlk)|[Hlen|[Hrd|(d & Hrd & Hi)]]].
  - left. exists ino. rewrite (ino_locked_held _ _ _ Hh) in Hlk.
    split; [|done]. destruct Hfr as (_ & _ & _ & Hnew & _).
    destruct (Hnew _ _ Hn) as [|Hge]; [done|].
    apply ino_locked_true in Hlk as [k Hk]. apply Hwh in Hk. simpl in Hk. lia.
  - right; left. done.
  - right; right; left. by rewrite <- (os_ReadFile_frame _ _ _ Hfr).
  - right; right; right. exists d. by rewrite <- (os_ReadFile_frame _ _ _ Hfr).
Qed.

Lemma granted_frame fd s s1 s' :
  frame s s1 → held s1 = held s → granted fd s1 s' → granted fd s s'.
Proof.
  intros Hfr Hh (Hp & He & Hi & Hrf & Hd & Hk & Hid & ino & Hn & Hh' & Hlk & Hu).
  pose proof Hfr as (Hf1 & He1 & Hsub & _ & Hnf & _).
  unfold granted. split_and!; try done.
  - by rewrite <- He1.
  - by rewrite <- Hf1.
  - by rewrite <- (lock_dir_exists_frame _ _ Hfr).
  - by rewrite <- Hh.
  - lia.
  - lia.
  - exists ino. split_and!; try done.
    + by rewrite <- Hh.
    + by rewrite <- (ino_locked_held _ _ _ Hh).
    + intros i Hl. apply Hu. by eapply lookup_weaken.
Qed.

(** What one pass of [Get] over the entries [l] yields. *)
Lemma walk_entries_get l : ∀ s r s' found',
  wf_fs s →
  walk_entries get_walk l (s, None) = Ret r (s', found') →
  frame s s' ∧ wf_fs s' ∧
  ((r = Some (Code ErrGetLockFailed) ∧ found' = None ∧ held s' = held s ∧
    lock_dir_exists s = false ∧ ∃ name d, (name, File d) ∈ l) ∨
   (r = None ∧ found' = None ∧ held s' = held s ∧
    ∀ name d, (name, File d) ∈ l → lock_dir_exists s = true ∧ skipped name s) ∨
   (r = None ∧ ∃ fd, found' = Some fd ∧ (∃ d, (file_path fd, File d) ∈ l) ∧
                     granted fd s s')).
Proof.
  induction l as [|[name n] l IH]; intros s r s' found' Hwf; cbn [walk_entries].
  { intros [= <- <- <-]. split_and!; auto using frame_refl.
    right; left. split_and!; auto. intros ?? Hin. by apply elem_of_nil in Hin. }
  unfold walkDir_entry. destruct n as [d|]; cbn [entry_of].
  2:{ simpl. intros Hw. apply IH in Hw as (Hfr & Hwf' & Hcase); [|done].
      split_and!; auto.
      destruct Hcase as [(-> & -> & Hh & Hd & n' & d' & Hin)|
                         [(-> & -> & Hh & Hall)|(-> & fd & -> & (d' & Hin) & Hg)]].
      - left. split_and!; auto. exists n', d'. by right.
      - right; left. split_and!; auto. intros n' d' Hin.
        apply elem_of_cons in Hin as [[=]|Hin]. eauto.
      - right; right. split; [done|]. exists fd. split_and!; auto.
        exists d'. by right. }
  destruct (get_walk (Entry name {| IsDir := false |}) None (s, None))
    as [|r1 [s1 f1]] eqn:Hcb.
  { unfold get_walk in Hcb. cbn beta iota delta [IsDir] in Hcb.
    destruct (flock_New name s) as [l0 s0].
    destruct (TryLock l0 s0) as [[b e] s1]. destruct e; [done|].
    destruct (negb b); [done|].
    destruct (_ <? _)%nat; [done|]. destruct (os_ReadFile _ _); [|done].
    by case_bool_decide. }
  apply get_walk_file in Hcb as (Hfr1 & Hwf1 & Hcase1); [|done].
  destruct Hcase1 as [(-> & -> & Hh1 & Hd1)|[(-> & -> & Hh1 & Hd1 & Hsk1)|
                      (-> & fd & -> & Hp & Hg)]]; simpl.
  - intros [= <- <- <-]. split_and!; auto. left. split_and!; auto.
    exists name, d. by left.
  - intros Hw. apply IH in Hw as (Hfr & Hwf' & Hcase); [|done].
    split_and!; eauto using frame_trans.
    destruct Hcase as [(-> & -> & Hh & Hd & n' & d' & Hin)|
                       [(-> & -> & Hh & Hall)|(-> & fd & -> & (d' & Hin) & Hg)]].
    + rewrite (lock_dir_exists_frame _ _ Hfr1) in Hd. congruence.
    + right; left. split_and!; auto; [congruence|]. intros n' d' Hin.
      apply elem_of_cons in Hin as [[= -> ->]|Hin]; [done|].
      destruct (Hall _ _ Hin) as [_ Hsk]. split; [done|].
      by eapply skipped_frame.
    + right; right. split; [done|]. exists fd. split_and!; auto.
      * exists d'. by right.
      * by eapply granted_frame.
  - intros [= <- <- <-]. split_and!; auto. right; right. split; [done|].
    exists fd. split_and!; auto. exists d. rewrite Hp. by left.
Qed.


Lemma readDir_elem s l name n :
  readDir s = Some l → (name, n) ∈ l ↔ entries s !! name = Some n.
Proof.
  unfold readDir. destruct (readdir_fails _); [done|]. intros [= <-].
  rewrite merge_sort_Permutation. apply elem_of_map_to_list.
Qed.

Lemma walk_entries_get_total l : ∀ st,
  ∃ r st', walk_entries get_walk l st = Ret r st'.
Proof.
  induction l as [|[name n] l IH]; intros [s found]; cbn [walk_entries]; [eauto|].
  unfold walkDir_entry, get_walk. destruct n as [d|]; cbn [entry_of IsDir].
  2:{ simpl. apply IH. }
  destruct (flock_New name s) as [l0 s0].
  destruct (TryLock l0 s0) as [[b [e|]] s1]; simpl; [eauto|].
  destruct b; simpl; [|apply IH].
  destruct (_ <? _)%nat; simpl; [apply IH|].
  destruct (os_ReadFile _ _); simpl; [|apply IH].
  case_bool_decide; simpl; [apply IH | eauto].
Qed.

(** The specification of [Get]. *)
Lemma Get_spec w :
  wf_fs (disk w) →
  if lstat_fails (faults (disk w)) then Get w = Panic
  else
    ∃ r w', Get w = Ret r w' ∧ wait w' = wait w ∧
      frame (disk w) (disk w') ∧ wf_fs (disk w') ∧
      match r with
      | inl fd =>
          readdir_fails (faults (disk w)) = false ∧
          granted fd (disk w) (disk w')
      | inr e =>
          held (disk w') = held (disk w) ∧
          ((e = ErrGetFailed ∧
            (readdir_fails (faults (disk w)) = true ∨
             (lock_dir_exists (disk w) = false ∧
              ∃ name d, entries (disk w) !! name = Some (File d)))) ∨
           (e = ErrGetEmpty ∧ readdir_fails (faults (disk w)) = false ∧
            ∀ name d, entries (disk w) !! name = Some (File d) →
                      lock_dir_exists (disk w) = true ∧ skipped name (disk w)))
      end.
Proof.
  intros Hwf. unfold Get, WalkDir. cbn [fst].
  destruct (lstat_fails _) eqn:Hls; [done|].
  unfold walkDir_root. cbn [get_walk fst].
  destruct (readDir (disk w)) as [dirs|] eqn:Hrd.
  2:{ eexists _, _. split; [done|]. simpl. split_and!; auto using frame_refl.
      left. split; [done|]. left. unfold readDir in Hrd.
      by destruct (readdir_fails _). }
  assert (readdir_fails (faults (disk w)) = false) as Hrf.
  { unfold readDir in Hrd. by destruct (readdir_fails _). }
  destruct (walk_entries_get_total dirs (disk w, None)) as (r & [s' f'] & Hw).
  rewrite Hw. apply walk_entries_get in Hw as (Hfr & Hwf' & Hcase); [|done].
  destruct Hcase as [(-> & -> & Hh & Hd & n' & d' & Hin)|
                     [(-> & -> & Hh & Hall)|(-> & fd & -> & (d' & Hin) & Hg)]].
  - eexists _, _. split; [done|]. simpl. split_and!; auto.
    left. split; [done|]. right. split; [done|]. exists n', d'.
    by apply (readDir_elem _ _ _ _ Hrd).
  - eexists _, _. split; [done|]. simpl. split_and!; auto.
    right. split_and!; auto. intros n' d' Hl. apply (Hall n' d').
    by apply (readDir_elem _ _ _ _ Hrd).
  - eexists _, _. split; [done|]. simpl. split_and!; auto.
Qed.


(** The specification of [Store]. *)
Lemma Store_spec now payload w r w' :
  wf_fs (disk w) →
  Store now payload w = (r, w') →
  ∃ s1, frame (disk w) s1 ∧ wf_fs s1 ∧ held s1 = held (disk w) ∧
    match r with
    | None =>
        disk w' = set_entries (insert (file_name now payload) (File payload)) s1 ∧
        wait w' = Signal (set_queued (int_incr (queued (wait w))) (wait w)) ∧
        entries (disk w) !! file_name now payload = None ∧
        stat_fails (faults (disk w)) = false ∧
        write_fails (faults (disk w)) = false ∧
        lock_dir_exists (disk w) = true ∧
        ∃ ino, locks s1 !! file_name now payload = Some ino ∧
               ino_locked ino (disk w) = false
    | Some e =>
        disk w' = s1 ∧ wait w' = wait w ∧
        ((e = ErrStoreLockFailed ∧ lock_dir_exists (disk w) = false) ∨
         (e = ErrDuplicatedStore ∧ lock_dir_exists (disk w) = true ∧
          ((∃ ino, locks (disk w) !! file_name now payload = Some ino ∧
                   ino_locked ino (disk w) = true) ∨
           os_Stat (file_name now payload) (disk w) ≠ StatNotExist)) ∨
         (e = ErrStoreFailed ∧ lock_dir_exists (disk w) = true ∧
          write_fails (faults (disk w)) = true ∧
          os_Stat (file_name now payload) (disk w) = StatNotExist ∧
          ∀ i, locks (disk w) !! file_name now payload = Some i →
               ino_locked i (disk w) = false))
    end.
Proof.
  intros Hwf. unfold Store.
  set (name := file_name now payload).
  destruct (flock_New name (disk w)) as [l s0] eqn:HN.
  destruct (TryLock l s0) as [[b e] s1] eqn:HT.
  assert (l = (flock_New name (disk w)).1 ∧ s0 = (flock_New name (disk w)).2)
    as [-> ->] by (by rewrite HN).
  apply acquire_spec in HT as (Hfr & Hwf1 & Hnf & Hcase); [|done].
  destruct Hcase as [(-> & -> & Hh & Hd)|[(-> & -> & Hh & Hd & ino & Hn & Hlk)|
                     (-> & -> & Hd & Hk & ino & Hn & Hh & Hlk & Huniq)]].
  - intros [= <- <-]. exists s1. split_and!; auto.
  - simpl. intros [= <- <-]. exists s1. split_and!; auto.
    right; left. split_and!; auto. left. eauto.
  - cbn beta iota zeta delta [negb]. unfold Store_locked. cbn [disk set_disk wait].
    assert (held (Unlock (flock_New name (disk w)).1 s1) = held (disk w)) as Hrel.
    { simpl. rewrite Hh, delete_insert_eq. by apply delete_id. }
    pose proof Hfr as (Hf1 & He1 & _).
    assert (os_Stat name s1 = os_Stat name (disk w)) as ->.
    { unfold os_Stat. by rewrite Hf1, He1. }
    destruct (os_Stat name (disk w)) eqn:Hst.
    + intros [= <- <-]. exists (Unlock (flock_New name (disk w)).1 s1).
      split_and!; auto using wf_Unlock. right; left. split_and!; auto.
    + unfold os_WriteFile. rewrite Hf1, He1.
      assert (stat_fails (faults (disk w)) = false ∧
              entries (disk w) !! name = None) as [Hsf Hnone].
      { unfold os_Stat in Hst. destruct (stat_fails _); [done|].
        by destruct (entries (disk w) !! name). }
      rewrite Hnone.
      destruct (write_fails (faults (disk w))) eqn:Hwr.
      * intros [= <- <-]. exists (Unlock (flock_New name (disk w)).1 s1).
        split_and!; auto using wf_Unlock. right; right. split_and!; auto.
        by intros i ->%Huniq.
      * intros [= <- <-]. exists (Unlock (flock_New name (disk w)).1 s1).
        split_and!; auto using wf_Unlock. exists ino. done.
    + intros [= <- <-]. exists (Unlock (flock_New name (disk w)).1 s1).
      split_and!; auto using wf_Unlock. right; left. split_and!; auto.
Qed.


Lemma files_lookup s name :
  files s !! name = entries s !! name ≫= file_data.
Proof. unfold files. apply lookup_omap. Qed.

Lemma files_empty s name d :
  files s = ∅ → entries s !! name ≠ Some (File d).
Proof.
  intros He Hl. assert (files s !! name = Some d) as Hf.
  { by rewrite files_lookup, Hl. }
  by rewrite He in Hf.
Qed.

Lemma intact_file_name now payload :
  clock_ok now = true → intact (file_name now payload) payload.
Proof.
  intros Hc. unfold intact, file_name. rewrite string_length_app.
  rewrite <- (Format_length now Hc). split; [lia|].
  by rewrite string_drop_app.
Qed.

Lemma readable_frame s s' : frame s s' → readable s' = readable s.
Proof. intros (Hf & _). unfold readable. by rewrite Hf. Qed.

Lemma readable_inv s :
  readable s = true →
  lstat_fails (faults s) = false ∧ readdir_fails (faults s) = false ∧
  readfile_fails (faults s) = false.
Proof.
  unfold readable. rewrite !andb_true_iff, !negb_true_iff. tauto.
Qed.

(** C1. Round trip: on a store whose directory holds no other payload
    file, a [Store] that succeeds followed by [Get] yields a handle,
    not an error, whose [Bytes] are the payload; [Get] leaves the
    directory and the pending count as they were, so the item is still
    stored.  The clock reading is one of a four-digit year and the
    directory can be read. *)
Theorem round_trip now payload w w1 :
  wf_fs (disk w) → clock_ok now = true → readable (disk w) = true →
  files (disk w) = ∅ →
  Store now payload w = (None, w1) →
  ∃ fd w2, Get w1 = Ret (inl fd) w2 ∧ Bytes fd = payload ∧
           entries (disk w2) !! file_name now payload = Some (File payload) ∧
           entries (disk w2) = entries (disk w1) ∧
           (Count w2).1 = (Count w1).1.
Proof.
  intros Hwf Hclk Hread Hfiles HS.
  pose proof (intact_file_name now payload Hclk) as Hint.
  apply Store_spec in HS as (s1 & Hfr & Hwf1 & Hh & Hd & Hw & Hnone & _ & _ & Hld & ino & Hn & Hlk);
    [|done].
  set (name := file_name now payload) in *. clearbody name.
  apply readable_inv in Hread as (Hls & Hrd & Hrf).
  pose proof Hfr as (Hf1 & He1 & _).
  assert (wf_fs (disk w1)) as Hwf2 by (by rewrite Hd).
  assert (entries (disk w1) = <[name := File payload]> (entries (disk w))) as Hent.
  { rewrite Hd. simpl. by rewrite He1. }
  assert (faults (disk w1) = faults (disk w)) as Hfl by (by rewrite Hd).
  pose proof (Get_spec w1 Hwf2) as HG. rewrite Hfl, Hls in HG.
  destruct HG as (r & w2 & HG & Hwait & Hfr2 & Hwf3 & Hr).
  assert (entries (disk w1) !! name = Some (File payload)) as Hlook.
  { by rewrite Hent, lookup_insert_eq. }
  destruct r as [fd|e].
  - destruct Hr as (_ & Hp & Hfile & _).
    assert (file_path fd = name ∧ data fd = payload) as [Hpn Hdp].
    { rewrite Hent in Hfile. rewrite lookup_insert in Hfile.
      case_decide as Hc; [by simplify_eq|].
      by apply files_empty in Hfile. }
    exists fd, w2. split_and!; auto.
    + destruct Hfr2 as (_ & -> & _). done.
    + by destruct Hfr2 as (_ & -> & _).
    + unfold Count; simpl. by rewrite Hwait.
  - exfalso. destruct Hr as (_ & [(_ & [Hr|(Hr & _)])|(_ & _ & Hall)]).
    + congruence.
    + rewrite Hd in Hr. unfold lock_dir_exists in *. simpl in Hr.
      rewrite He1 in Hr.
      destruct (decide (name = lock_dir_name)) as [Heq|Hne].
      * rewrite Heq in Hnone. by rewrite Hnone in Hld.
      * rewrite lookup_insert_ne in Hr by done. congruence.
    + destruct (Hall _ _ Hlook) as (_ & Hsk).
      destruct Hsk as [(i & Hi & Hil)|[Hlen|[Hrdf|(d & Hrdf & Hni)]]].
      * rewrite Hd in Hi, Hil. simpl in Hi. rewrite Hn in Hi. simplify_eq.
        rewrite (ino_locked_held _ (disk w)) in Hil by done. congruence.
      * destruct Hint. lia.
      * assert (os_ReadFile name (disk w1) = Some payload); [|congruence].
        apply os_ReadFile_Some. by rewrite Hfl.
      * apply os_ReadFile_Some in Hrdf as [_ Hrdf].
        rewrite Hlook in Hrdf. simplify_eq.
        by apply Hni.
Qed.

(** ** Handles *)

Lemma granted_Inv fd s s' :
  wf_fs s' → frame s s' → granted fd s s' → Inv fd s'.
Proof.
  intros Hwf Hfr (Hp & He & Hi & Hrf & Hd & Hk & Hid & ino & Hn & Hh & Hlk & Hu).
  split; [done|]. split; [by rewrite (lock_dir_exists_frame _ _ Hfr)|].
  unfold Open. split_and!; auto.
  - destruct Hfr as (_ & -> & _). done.
  - exists ino. split_and!; auto.
    + by rewrite Hh, lookup_insert_eq.
    + intros k. rewrite Hh, lookup_insert. case_decide; [done|].
      intros Hk'. by destruct (proj1 (ino_locked_false _ _) Hlk k).
Qed.

Lemma wf_set_entries f s : wf_fs (set_entries f s) ↔ wf_fs s.
Proof. done. Qed.

Lemma os_Remove_lock_faults n s : faults (os_Remove_lock n s) = faults s.
Proof. unfold os_Remove_lock. by destruct (lock_dir_exists _). Qed.

Lemma os_Remove_lock_entries n s : entries (os_Remove_lock n s) = entries s.
Proof. unfold os_Remove_lock. by destruct (lock_dir_exists _). Qed.

Lemma os_Remove_lock_held n s : held (os_Remove_lock n s) = held s.
Proof. unfold os_Remove_lock. by destruct (lock_dir_exists _). Qed.

Lemma os_Remove_lock_locks_ne n n' s :
  n ≠ n' → locks (os_Remove_lock n s) !! n' = locks s !! n'.
Proof.
  intros Hne. unfold os_Remove_lock. destruct (lock_dir_exists s); [|done].
  simpl. by rewrite lookup_delete_ne.
Qed.

Lemma lock_dir_exists_os_Remove_lock n s :
  lock_dir_exists (os_Remove_lock n s) = lock_dir_exists s.
Proof. unfold lock_dir_exists. by rewrite os_Remove_lock_entries. Qed.

Lemma wf_os_Remove_lock n s : wf_fs s → wf_fs (os_Remove_lock n s).
Proof.
  intros [Hh Hl]. unfold os_Remove_lock. destruct (lock_dir_exists _); [|done].
  split; simpl; [done|]. by apply map_Forall_delete.
Qed.

Lemma Wait_disk w : disk (Wait w).2 = disk w.
Proof.
  unfold Wait. destruct (_ && _); [done|].
  destruct (forceWake _); [done|]. by destruct (negb _).
Qed.

Lemma do_op_Inv fd o w w' :
  Inv fd (disk w) → leaves fd o → do_op o w = Some w' →
  Inv fd (disk w') ∧ faults (disk w') = faults (disk w).
Proof.
  intros HI Hl.
  pose proof HI as (Hwf & Hd & Hp & He & Hi & ino & Hh & Hn & Hsole).
  assert (entries (disk w) !! lock_dir_name = Some Dir) as Hdir.
  { unfold lock_dir_exists in Hd.
    by destruct (entries (disk w) !! lock_dir_name) as [[]|]. }
  destruct o as [now payload| | | | | |fd'|fd']; simpl.
  - destruct (Store now payload w) as [r w1] eqn:HS. intros [= <-].
    apply Store_spec in HS as (s1 & Hfr & Hwf1 & Hh1 & Hr); [|done].
    pose proof Hfr as (Hf1 & He1 & Hsub & _).
    assert (Inv fd s1) as HI1.
    { split; [done|]. split; [by rewrite (lock_dir_exists_frame _ _ Hfr)|].
      unfold Open. rewrite He1, Hh1. split_and!; auto.
      exists ino. split_and!; auto. by eapply lookup_weaken. }
    destruct r as [e|].
    + destruct Hr as (-> & _). done.
    + destruct Hr as (-> & _ & Hnone & _). simpl. split; [|done].
      destruct HI1 as (_ & Hd1 & Hp1 & He1' & Hi1 & Hlk1).
      split; [done|]. unfold lock_dir_exists, Open in *. simpl.
      rewrite He1 in *.
      rewrite !lookup_insert_ne by congruence. done.
  - pose proof (Get_spec w Hwf) as HG.
    destruct (lstat_fails _).
    { by rewrite HG. }
    destruct HG as (r & w1 & -> & _ & Hfr & Hwf1 & Hr). intros [= <-].
    pose proof Hfr as (Hf1 & He1 & Hsub & _). split; [|done].
    split; [done|]. split; [by rewrite (lock_dir_exists_frame _ _ Hfr)|].
    unfold Open. rewrite He1. split_and!; auto. exists ino.
    destruct r as [fd'|e].
    + destruct Hr as (_ & _ & _ & _ & _ & _ & Hk' & _ & ino' & Hn' & Hh' & Hlk' & _).
      rewrite Hh'. split_and!.
      * rewrite lookup_insert_ne; [done|]. congruence.
      * by eapply lookup_weaken.
      * intros k. rewrite lookup_insert. case_decide; [|by auto].
        intros [= ->].
        by destruct (proj1 (ino_locked_false _ _) Hlk' (flock_id (lock fd))).
    + destruct Hr as (Hheq & _). rewrite Hheq.
      split_and!; [done | exact (lookup_weaken _ _ _ _ Hn Hsub) | done].
  - intros [= <-]. rewrite Wait_disk. done.
  - intros [= <-]. done.
  - intros [= <-]. done.
  - intros [= <-]. done.
  - intros [= <-]. simpl. destruct Hl as (Hid & _). split; [|done].
    split; [by apply wf_Unlock|]. split; [done|].
    unfold Open; simpl. split_and!; auto. exists ino. split_and!; auto.
    + by rewrite lookup_delete_ne.
    + intros k Hk. apply lookup_delete_Some in Hk as [_ Hk]. auto.
  - destruct Hl as (Hid & Hpath & Hlpath). unfold Remove, os_Remove.
    destruct (remove_fails _); [by intros [= <-]|].
    destruct (entries (disk w) !! file_path fd') as [[d'|]|] eqn:He';
      [|by intros [= <-]..].
    intros [= <-]. cbn [disk].
    assert (file_path fd' ≠ lock_dir_name) as Hnl by congruence.
    rewrite os_Remove_lock_faults. split; [|done].
    split; [|split].
    + apply wf_os_Remove_lock, wf_Unlock. done.
    + rewrite lock_dir_exists_os_Remove_lock. unfold lock_dir_exists. simpl.
      rewrite lookup_delete_ne by done. by rewrite Hdir.
    + unfold Open. rewrite os_Remove_lock_entries, os_Remove_lock_held. simpl.
      rewrite !lookup_delete_ne by done.
      split_and!; auto. exists ino. split_and!; auto.
      * by rewrite os_Remove_lock_locks_ne.
      * intros k Hk. apply lookup_delete_Some in Hk as [_ Hk]. auto.
Qed.

Lemma do_ops_Inv fd os : ∀ w w',
  Inv fd (disk w) → Forall (leaves fd) os → do_ops os w = Some w' →
  Inv fd (disk w') ∧ faults (disk w') = faults (disk w).
Proof.
  induction os as [|o os IH]; intros w w' HI Hl; simpl.
  { by intros [= <-]. }
  apply Forall_cons in Hl as [Ho Hl].
  destruct (do_op o w) as [w1|] eqn:Hop; [|done].
  apply do_op_Inv with (fd := fd) in Hop as [HI1 Hf1]; [|done..].
  intros Hos. apply IH in Hos as [HI2 Hf2]; [|done..].
  split; [done|]. congruence.
Qed.


Lemma Get_Ret_lstat w r w' :
  wf_fs (disk w) → Get w = Ret r w' → lstat_fails (faults (disk w)) = false.
Proof.
  intros Hwf HG. pose proof (Get_spec w Hwf) as HS.
  destruct (lstat_fails _); [|done]. congruence.
Qed.

Lemma Get_granted w fd w1 :
  wf_fs (disk w) → Get w = Ret (inl fd) w1 →
  frame (disk w) (disk w1) ∧ wf_fs (disk w1) ∧ wait w1 = wait w ∧
  readable (disk w) = true ∧ granted fd (disk w) (disk w1).
Proof.
  intros Hwf HG. pose proof (Get_spec w Hwf) as HS.
  pose proof (Get_Ret_lstat _ _ _ Hwf HG) as Hls. rewrite Hls in HS.
  destruct HS as (r & w' & HG' & Hwait & Hfr & Hwf' & Hr).
  rewrite HG in HG'. injection HG' as <- <-.
  destruct Hr as (Hrd & Hg). split_and!; auto.
  unfold readable. rewrite Hls, Hrd. simpl.
  destruct Hg as (_ & _ & _ & -> & _). done.
Qed.

Lemma Open_not_granted fd fd' s s' :
  Open fd s → granted fd' s s' → file_path fd' ≠ file_path fd.
Proof.
  intros (_ & _ & _ & ino & Hh & Hn & _).
  intros (_ & _ & _ & _ & _ & _ & _ & ino' & _ & _ & Hlk & Hu) Heq.
  rewrite Heq in Hu. apply Hu in Hn as ->.
  by destruct (proj1 (ino_locked_false _ _) Hlk (flock_id (lock fd))).
Qed.

(** C3. Exclusivity: from the moment [Get] returns the handle [fd], and
    through every operation of the store and of the handles of other
    items that is not [fd]'s own [Close] or [Remove], the handle stays
    open and no [Get] returns a handle of the same item; when the item
    is the only one stored, [Get] answers [ErrGetEmpty], and after
    [fd]'s [Close] the next [Get] returns the item again with the same
    bytes. *)
Theorem exclusivity w fd w1 os w2 :
  wf_fs (disk w) →
  Get w = Ret (inl fd) w1 →
  Forall (leaves fd) os →
  do_ops os w1 = Some w2 →
  Open fd (disk w2) ∧
  (∀ fd' w3, Get w2 = Ret (inl fd') w3 → file_path fd' ≠ file_path fd) ∧
  (only_item fd (disk w2) →
   (∃ w3, Get w2 = Ret (inr ErrGetEmpty) w3) ∧
   (∃ fd' w3, Get (Data_Close fd w2).2 = Ret (inl fd') w3 ∧
              file_path fd' = file_path fd ∧ Bytes fd' = Bytes fd)).
Proof.
  intros Hwf HG Hl Hops.
  apply Get_granted in HG as (Hfr & Hwf1 & _ & Hread & Hg); [|done].
  rewrite <- (readable_frame _ _ Hfr) in Hread.
  pose proof (granted_Inv _ _ _ Hwf1 Hfr Hg) as HI1.
  apply do_ops_Inv with (fd := fd) in Hops as [HI2 Hf2]; [|done..].
  assert (readable (disk w2) = true) as Hread2.
  { unfold readable in *. by rewrite Hf2. }
  apply readable_inv in Hread2 as (Hls & Hrd & Hrf).
  pose proof HI2 as (Hwf2 & Hd2 & HO2).
  assert (∀ fd' w3, Get w2 = Ret (inl fd') w3 → file_path fd' ≠ file_path fd)
    as Hexcl.
  { intros fd' w3 HG'. apply Get_granted in HG' as (_ & _ & _ & _ & Hg'); [|done].
    by eapply Open_not_granted. }
  split; [done|]. split; [done|]. intros Honly.
  pose proof HO2 as (Hp & He & Hi & ino & Hh & Hn & Hsole).
  split.
  - pose proof (Get_spec w2 Hwf2) as HS. rewrite Hls in HS.
    destruct HS as (r & w3 & HG' & _ & _ & _ & Hr).
    destruct r as [fd'|e].
    + exfalso. apply (Hexcl _ _ HG').
      destruct Hr as (_ & _ & He' & _). by apply Honly in He'.
    + destruct Hr as (_ & [(_ & [Hr|(Hr & _)])|(-> & _)]); [congruence..|].
      by exists w3.
  - set (w3 := (Data_Close fd w2).2).
    assert (wf_fs (disk w3)) as Hwf3 by (by apply wf_Unlock).
    pose proof (Get_spec w3 Hwf3) as HS.
    change (faults (disk w3)) with (faults (disk w2)) in HS.
    change (entries (disk w3)) with (entries (disk w2)) in HS.
    change (lock_dir_exists (disk w3)) with (lock_dir_exists (disk w2)) in HS.
    rewrite Hls in HS. destruct HS as (r & w4 & HG' & _ & _ & _ & Hr).
    destruct r as [fd'|e].
    + exists fd', w4. split; [done|].
      destruct Hr as (_ & _ & He' & _).
      change (entries (disk w3)) with (entries (disk w2)) in He'.
      pose proof (Honly _ _ He') as Hpath. split; [done|].
      rewrite Hpath, He in He'. unfold Bytes. congruence.
    + exfalso.
      destruct Hr as (_ & [(_ & [Hr|(Hr & _)])|(_ & _ & Hall)]); [congruence..|].
      destruct (Hall _ _ He) as (_ & Hsk).
      destruct Hsk as [(i & Hi' & Hil)|[Hlen|[Hrdf|(d & Hrdf & Hni)]]].
      * change (locks (disk w3)) with (locks (disk w2)) in Hi'.
        rewrite Hn in Hi'. injection Hi' as <-.
        apply ino_locked_true in Hil as [k Hk]. simpl in Hk.
        apply lookup_delete_Some in Hk as [Hne Hk]. by apply Hsole in Hk.
      * destruct Hi. lia.
      * assert (os_ReadFile (file_path fd) (disk w3) = Some (data fd));
          [|congruence].
        by apply os_ReadFile_Some.
      * apply os_ReadFile_Some in Hrdf as [_ Hrdf].
        change (entries (disk w3)) with (entries (disk w2)) in Hrdf.
        rewrite He in Hrdf. by injection Hrdf as <-.
Qed.

(** ** Storing *)

Lemma int_incr_spec q : int_min ≤ q < int_max → int_incr q = q + 1.
Proof.
  unfold int_min, int_max, int_incr, wrap_int. intros Hq.
  rewrite Z.mod_small by lia. lia.
Qed.

Lemma int_decr_spec q : int_min < q ≤ int_max → int_decr q = q - 1.
Proof.
  unfold int_min, int_max, int_decr, wrap_int. intros Hq.
  rewrite Z.mod_small by lia. lia.
Qed.

(** [Store] answers [ErrDuplicatedStore], and changes nothing of the
    payload or of the notifier, when the lock of the name is held or a
    file of the name is there. *)
Lemma Store_duplicate now payload w :
  wf_fs (disk w) → lock_dir_exists (disk w) = true →
  (∃ ino, locks (disk w) !! file_name now payload = Some ino ∧
          ino_locked ino (disk w) = true) ∨
  is_Some (entries (disk w) !! file_name now payload) →
  ∃ w', Store now payload w = (Some ErrDuplicatedStore, w') ∧
        wait w' = wait w ∧ frame (disk w) (disk w') ∧
        held (disk w') = held (disk w) ∧ wf_fs (disk w').
Proof.
  intros Hwf Hd Hcase.
  destruct (Store now payload w) as [r w'] eqn:HS.
  apply Store_spec in HS as (s1 & Hfr & Hwf1 & Hh1 & Hr); [|done].
  assert (os_Stat (file_name now payload) (disk w) = StatNotExist →
          (∀ i, locks (disk w) !! file_name now payload = Some i →
                ino_locked i (disk w) = false) → False) as Hno.
  { intros Hst Hfree. destruct Hcase as [(ino & Hn & Hlk)|[n Hn]].
    - apply Hfree in Hn. congruence.
    - unfold os_Stat in Hst. destruct (stat_fails _); [done|].
      by rewrite Hn in Hst. }
  destruct r as [e|].
  - destruct Hr as (Hdw & Hw & [(-> & Hd')|[(-> & _)|(-> & _ & _ & Hst & Hfree)]]).
    + congruence.
    + exists w'. rewrite Hdw. split_and!; auto.
    + by destruct Hno.
  - destruct Hr as (_ & _ & Hnone & Hsf & _ & _ & ino & Hn & Hlk).
    destruct Hno.
    + unfold os_Stat. by rewrite Hsf, Hnone.
    + intros i Hi. destruct Hfr as (_ & _ & Hsub & _).
      eapply lookup_weaken in Hi; [|done]. congruence.
Qed.

(** C2. Duplicate suppression: two readings of the clock within the
    same second give identical bytes the same file name, and after a
    first [Store] that succeeded the second answers
    [ErrDuplicatedStore], both when it runs after the first returned
    (the data file exists) and when it runs while the first still
    holds the lock it took; the pending count is the one the first
    call left, 1 on a store that had nothing pending. *)
Theorem duplicate_suppression t1 t2 payload w w1 :
  wf_fs (disk w) → same_second t1 t2 →
  Store t1 payload w = (None, w1) →
  file_name t2 payload = file_name t1 payload ∧
  (∃ w2, Store t2 payload w1 = (Some ErrDuplicatedStore, w2) ∧
         (Count w2).1 = (Count w1).1 ∧
         (Count w1).1 = int_incr (queued (wait w)) ∧
         (queued (wait w) = 0 → (Count w2).1 = 1)) ∧
  (∃ lock s0 s1 wB wC,
     flock_New (file_name t1 payload) (disk w) = (lock, s0) ∧
     TryLock lock s0 = (true, None, s1) ∧
     Store t2 payload (set_disk s1 w) = (Some ErrDuplicatedStore, wB) ∧
     Store_locked (file_name t1 payload) payload lock wB = (None, wC) ∧
     (Count wC).1 = int_incr (queued (wait w)) ∧
     (queued (wait w) = 0 → (Count wC).1 = 1)).
Proof.
  intros Hwf Hsame HS.
  assert (file_name t2 payload = file_name t1 payload) as Hname.
  { unfold file_name. by rewrite (Format_same_second t1 t2). }
  assert (∀ w0, Store t2 payload w0 = Store t1 payload w0) as HStore.
  { intros w0. unfold Store. by rewrite Hname. }
  split; [done|]. setoid_rewrite HStore. clear HStore Hname Hsame t2. split.
  - pose proof HS as HS'.
    apply Store_spec in HS' as (s1 & Hfr & Hwf1 & Hh & Hd & Hw & Hnone & _ & _ & Hld & _);
      [|done].
    destruct Hfr as (_ & He1 & _).
    destruct (Store_duplicate t1 payload w1) as (w2 & HS2 & Hw2 & _).
    + by rewrite Hd.
    + rewrite Hd. unfold lock_dir_exists in *. simpl. rewrite He1.
      destruct (decide (file_name t1 payload = lock_dir_name)) as [Heq|Hne].
      * rewrite Heq in Hnone. by rewrite Hnone in Hld.
      * by rewrite lookup_insert_ne.
    + right. rewrite Hd. simpl. by rewrite lookup_insert_eq.
    + exists w2. split; [done|]. unfold Count; simpl. rewrite Hw2, Hw. simpl.
      split_and!; auto. by intros ->.
  - unfold Store in HS.
    destruct (flock_New (file_name t1 payload) (disk w)) as [l s0] eqn:HN.
    destruct (TryLock l s0) as [[b e] s1] eqn:HT.
    destruct e as [e|]; [done|]. destruct b; simpl in HS; [|done].
    exists l, s0, s1. pose proof HT as HT'.
    assert (l = (flock_New (file_name t1 payload) (disk w)).1 ∧
            s0 = (flock_New (file_name t1 payload) (disk w)).2)
      as [El Es] by (by rewrite HN).
    rewrite El, Es in HT'.
    apply acquire_spec in HT' as (Hfr & Hwf1 & Hnf & Hcase); [|done].
    destruct Hcase as [(? & _)|[(_ & ? & _)|
                       (_ & _ & Hd & Hk & ino & Hn & Hh & Hlk & Huniq)]];
      [done..|].
    destruct (Store_duplicate t1 payload (set_disk s1 w)) as (wB & HSB & HwB & HfrB & _).
    + done.
    + simpl. by rewrite (lock_dir_exists_frame _ _ Hfr).
    + left. exists ino. split; [done|]. apply ino_locked_true.
      exists (next_flock (disk w)). simpl. by rewrite Hh, lookup_insert_eq.
    + simpl in HwB, HfrB.
      unfold Store_locked in HS. cbn [disk set_disk wait] in HS.
      pose proof (frame_trans _ _ _ Hfr HfrB) as (Hf2 & He2 & _).
      destruct Hfr as (Hf1 & He1 & _).
      assert (os_Stat (file_name t1 payload) (disk wB) =
              os_Stat (file_name t1 payload) s1) as HstB.
      { unfold os_Stat. by rewrite Hf2, He2, Hf1, He1. }
      assert (∃ sB, os_WriteFile (file_name t1 payload) payload (disk wB) = Some sB)
        as [sB HwrB].
      { unfold os_WriteFile in *. rewrite Hf2, He2. rewrite Hf1, He1 in HS.
        destruct (os_Stat _ s1); try done.
        destruct (write_fails _); [done|].
        destruct (entries (disk w) !! _) as [[]|]; eauto. done. }
      eexists wB, _. split_and!; [done..| | |].
      * unfold Store_locked. rewrite HstB, HwrB.
        destruct (os_Stat _ s1); try done.
      * unfold Count; simpl. by rewrite HwB.
      * unfold Count; simpl. rewrite HwB. by intros ->.
Qed.

(** C10. [Store] either fails with one of its three errors, and then
    leaves the notifier untouched (same pending count, no [Signal]), or
    succeeds, and then has raised the pending count by one and called
    [Signal] exactly once.  The pending count is below the largest
    [int]. *)
Theorem Store_atomic now payload w r w' :
  int_min ≤ queued (wait w) < int_max →
  Store now payload w = (r, w') →
  match r with
  | Some e =>
      (e = ErrDuplicatedStore ∨ e = ErrStoreLockFailed ∨ e = ErrStoreFailed) ∧
      queued (wait w') = queued (wait w) ∧
      signals (wait w') = signals (wait w) ∧
      wait w' = wait w
  | None =>
      queued (wait w') = queued (wait w) + 1 ∧
      signals (wait w') = S (signals (wait w))
  end.
Proof.
  intros Hq. unfold Store, Store_locked.
  destruct (flock_New _ _) as [l s0].
  destruct (TryLock l s0) as [[b [e|]] s1].
  { intros [= <- <-]. auto. }
  destruct b; simpl.
  2:{ intros [= <- <-]. auto. }
  destruct (os_Stat _ s1).
  - intros [= <- <-]. auto.
  - destruct (os_WriteFile _ _ s1).
    + intros [= <- <-]. simpl. by rewrite int_incr_spec.
    + intros [= <- <-]. auto 6.
  - intros [= <- <-]. auto.
Qed.

(** ** Construction and recovery *)

Lemma size_omap_file_data (m : gmap string node) :
  size (omap file_data m) =
  length (omap (λ e : string * node, file_data e.2) (map_to_list m)).
Proof.
  induction m as [|i x m Hi IH] using map_ind.
  { by rewrite omap_empty, map_to_list_empty, map_size_empty. }
  rewrite (map_to_list_insert m i x Hi). cbn [omap list_omap snd].
  rewrite omap_insert. destruct (file_data x) as [d|]; simpl.
  - rewrite map_size_insert_None; [by rewrite IH|].
    by rewrite lookup_omap, Hi.
  - rewrite delete_id; [done|]. by rewrite lookup_omap, Hi.
Qed.

Lemma walk_entries_count l : ∀ w,
  int_min ≤ queued (wait w) →
  queued (wait w) +
    Z.of_nat (length (omap (λ e : string * node, file_data e.2) l)) ≤ int_max →
  ∃ w', walk_entries count_walk l w = Ret None w' ∧ disk w' = disk w ∧
        queued (wait w') =
          queued (wait w) +
          Z.of_nat (length (omap (λ e : string * node, file_data e.2) l)) ∧
        signals (wait w') = signals (wait w) ∧
        timer (wait w') = timer (wait w) ∧
        run (wait w') = run (wait w) ∧
        forceWake (wait w') = forceWake (wait w).
Proof.
  induction l as [|[name n] l IH]; intros w Hlo Hhi; cbn [walk_entries].
  { exists w. simpl. split_and!; auto. lia. }
  unfold walkDir_entry.
  destruct n as [d|];
    cbn [omap list_omap snd file_data length entry_of count_walk IsDir] in *.
  2:{ simpl. apply IH; done. }
  rewrite Nat2Z.inj_succ in *. simpl.
  assert (int_min ≤ queued (wait w) < int_max) as Hb.
  { unfold int_min, int_max in *. lia. }
  destruct (IH {| disk := disk w;
                  wait := set_queued (int_incr (queued (wait w))) (wait w) |})
    as (w' & Hw & Hd & Hq & Hs & Ht & Hr & Hf); simpl.
  - rewrite int_incr_spec by done. unfold int_min in *. lia.
  - rewrite int_incr_spec by done. lia.
  - exists w'. simpl in *. rewrite int_incr_spec in Hq by done.
    split_and!; auto. lia.
Qed.

Lemma healthy_inv s :
  healthy s = true →
  lstat_fails (faults s) = false ∧ readdir_fails (faults s) = false ∧
  stat_fails (faults s) = false ∧ write_fails (faults s) = false ∧
  readfile_fails (faults s) = false ∧ remove_fails (faults s) = false ∧
  removeall_fails (faults s) = false ∧ mkdirall_fails (faults s) = false.
Proof.
  unfold healthy. rewrite !andb_true_iff, !negb_true_iff. tauto.
Qed.

Lemma written_no_lock_dir s :
  written_by_store s → files s !! lock_dir_name = None.
Proof.
  intros Hw. rewrite files_lookup.
  destruct (entries s !! lock_dir_name) as [[d|]|] eqn:E; [|done..].
  destruct (Hw _ _ E) as (now & Hc & Hn). exfalso.
  destruct (intact_file_name now d Hc) as [Hlen _]. rewrite <- Hn in Hlen.
  simpl in Hlen. lia.
Qed.

(** What [NewFS] builds on a directory whose system calls succeed. *)
Lemma NewFS_spec timeout s :
  healthy s = true → files s !! lock_dir_name = None →
  Z.of_nat (size (files s)) ≤ int_max →
  ∃ w, NewFS timeout s = Ret tt w ∧
       entries (disk w) = <[lock_dir_name := Dir]> (entries s) ∧
       files (disk w) = files s ∧
       locks (disk w) = ∅ ∧ held (disk w) = held s ∧
       faults (disk w) = faults s ∧
       next_ino (disk w) = next_ino s ∧ next_flock (disk w) = next_flock s ∧
       queued (wait w) = Z.of_nat (size (files s)) ∧
       run (wait w) = true ∧ forceWake (wait w) = false ∧
       signals (wait w) = 0%nat.
Proof.
  intros Hh Hnl Hsz.
  apply healthy_inv in Hh as (Hls & Hrd & _ & _ & _ & _ & Hra & Hmk).
  set (s1 := set_locks (λ _, ∅) (set_entries (delete lock_dir_name) s)).
  set (s2 := set_entries (insert lock_dir_name Dir) s1).
  assert (os_RemoveAll_lock_dir s = Some s1) as H1.
  { unfold os_RemoveAll_lock_dir. by rewrite Hra. }
  assert (os_MkdirAll_lock_dir s1 = Some s2) as H2.
  { unfold os_MkdirAll_lock_dir. simpl. by rewrite Hmk, lookup_delete_eq. }
  assert (entries s2 = <[lock_dir_name := Dir]> (entries s)) as He2.
  { simpl. by rewrite insert_delete_eq. }
  assert (files s2 = files s) as Hfiles.
  { unfold files at 1. rewrite He2, omap_insert_None by done.
    by apply delete_id. }
  unfold NewFS. rewrite H1, H2.
  set (w0 := {| disk := s2; wait := _ |}).
  unfold WalkDir. cbn [disk w0 faults s2 s1 set_entries set_locks].
  rewrite Hls. unfold walkDir_root. cbn [count_walk].
  assert (readDir (disk w0) =
          Some (merge_sort entry_le (map_to_list (entries s2)))) as ->.
  { unfold readDir. simpl. by rewrite Hrd. }
  destruct (walk_entries_count (merge_sort entry_le (map_to_list (entries s2))) w0)
    as (w' & Hw & Hd & Hq & Hs & Ht & Hr & Hf).
  { simpl. unfold int_min. lia. }
  { rewrite merge_sort_Permutation, <- size_omap_file_data.
    change (omap file_data (entries s2)) with (files s2).
    rewrite Hfiles. simpl. lia. }
  rewrite Hw.
  rewrite merge_sort_Permutation, <- size_omap_file_data in Hq.
  change (omap file_data (entries s2)) with (files s2) in Hq.
  rewrite Hfiles in Hq.
  simpl in Hq, Hs, Hr, Hf.
  case_bool_decide.
  - eexists. split; [done|]. cbn [disk wait queued run forceWake signals].
    rewrite Hd. split_and!; auto.
  - eexists. split; [done|]. rewrite Hd. split_and!; auto.
Qed.


Lemma os_Remove_lock_locks_Some n n' i s :
  locks (os_Remove_lock n s) !! n' = Some i → locks s !! n' = Some i.
Proof.
  unfold os_Remove_lock. destruct (lock_dir_exists s); [|done]. simpl.
  by intros [_ ?]%lookup_delete_Some.
Qed.

Lemma files_Some s name d :
  files s !! name = Some d ↔ entries s !! name = Some (File d).
Proof.
  rewrite files_lookup. destruct (entries s !! name) as [[d'|]|]; simpl.
  - split; by intros [= ->].
  - done.
  - done.
Qed.

(** One round of the consumer on a recovered store that is not empty. *)
Lemma drain_step w :
  recoverable w → size (files (disk w)) ≠ 0%nat →
  ∃ fd w1 w2, Get w = Ret (inl fd) w1 ∧ Remove fd w1 = (None, w2) ∧
    files (disk w) !! file_path fd = Some (data fd) ∧
    files (disk w2) = delete (file_path fd) (files (disk w)) ∧
    recoverable w2.
Proof.
  intros (Hwf & Hhl & Hld & Hfree & Hwr & Hq & Hb) Hne.
  pose proof (healthy_inv _ Hhl) as (Hls & Hrd & _ & _ & Hrf & Hrm & _).
  pose proof (Get_spec w Hwf) as HS. rewrite Hls in HS.
  destruct HS as (r & w1 & HG & Hwait & Hfr & Hwf1 & Hr).
  destruct r as [fd|e].
  2:{ exfalso.
      destruct Hr as (_ & [(_ & [Hr|(Hr & _)])|(_ & _ & Hall)]); [congruence..|].
      apply map_size_ne_0_lookup in Hne as (name & d & Hf).
      apply files_Some in Hf. destruct (Hall _ _ Hf) as (_ & Hsk).
      destruct (Hwr _ _ Hf) as (now & Hc & ->).
      pose proof (intact_file_name now d Hc) as Hint.
      destruct Hsk as [(i & Hi & Hil)|[Hlen|[Hrdf|(d' & Hrdf & Hni)]]].
      - apply Hfree in Hi. congruence.
      - destruct Hint. lia.
      - assert (os_ReadFile (file_name now d) (disk w) = Some d); [|congruence].
        by apply os_ReadFile_Some.
      - apply os_ReadFile_Some in Hrdf as [_ Hrdf]. rewrite Hf in Hrdf.
        by injection Hrdf as <-. }
  destruct Hr as (_ & Hg).
  pose proof Hg as (Hp & He & Hi & _ & _ & Hk & Hid & ino & Hn & Hh & Hlk & Hu).
  pose proof Hfr as (Hf1 & He1 & Hsub & Hnew & _).
  assert (file_path fd ≠ lock_dir_name) as Hnl.
  { intros Heq. unfold lock_dir_exists in Hld. rewrite <- Heq, He in Hld. done. }
  assert (0 < queued (wait w)) as Hpos by lia.
  set (s2 := os_Remove_lock (flock_path (lock fd))
               (Unlock (lock fd)
                  (set_entries (delete (file_path fd)) (disk w1)))).
  assert (entries s2 = delete (file_path fd) (entries (disk w))) as Hes2.
  { unfold s2. rewrite os_Remove_lock_entries. simpl. by rewrite He1. }
  assert (files s2 = delete (file_path fd) (files (disk w))) as Hfs2.
  { unfold files. by rewrite Hes2, omap_delete. }
  assert (held s2 = held (disk w)) as Hhs2.
  { unfold s2. rewrite os_Remove_lock_held. simpl.
    rewrite Hh, delete_insert_eq. by apply delete_id. }
  exists fd, w1,
    {| disk := s2;
       wait := set_queued (int_decr (queued (wait w))) (wait w) |}.
  split; [done|]. split.
  { unfold Remove, os_Remove. rewrite Hf1, Hrm, He1, He, Hwait.
    apply Z.ltb_lt in Hpos. rewrite Hpos. reflexivity. }
  split; [by apply files_Some|]. split; [done|].
  assert (is_Some (files (disk w) !! file_path fd)) as Hsome.
  { exists (data fd). by apply files_Some. }
  unfold recoverable. cbn [disk wait]. rewrite Hfs2.
  rewrite map_size_delete_Some by done.
  split_and!.
  - apply wf_os_Remove_lock, wf_Unlock. done.
  - unfold healthy, s2. rewrite os_Remove_lock_faults. simpl.
    rewrite Hf1. done.
  - unfold lock_dir_exists in *. rewrite Hes2, lookup_delete_ne by done.
    done.
  - intros n i Hl%os_Remove_lock_locks_Some. simpl in Hl.
    unfold ino_locked. rewrite Hhs2.
    destruct (Hnew _ _ Hl) as [Hold|Hge].
    + by apply Hfree in Hold.
    + apply bool_decide_eq_false. rewrite elem_of_map_img.
      intros [k Hk']. destruct Hwf as [Hwh _]. apply Hwh in Hk'.
      simpl in Hk'. lia.
  - intros name d. rewrite Hes2.
    intros [_ Hl]%lookup_delete_Some. by apply Hwr.
  - simpl. rewrite int_decr_spec.
    + lia.
    + unfold int_min, int_max in *. lia.
  - lia.
Qed.

Lemma drain_spec n : ∀ w,
  recoverable w → size (files (disk w)) = n →
  ∃ l w', drain n w = Some (l, w') ∧
          l ≡ₚ (map_to_list (files (disk w))).*2 ∧
          queued (wait w') = 0 ∧ files (disk w') = ∅.
Proof.
  induction n as [|n IH]; intros w Hrec Hsz; cbn [drain].
  { apply map_size_empty_iff in Hsz as Hemp. exists [], w.
    split; [done|]. rewrite Hemp, map_to_list_empty. split; [done|].
    destruct Hrec as (_ & _ & _ & _ & _ & Hq & _). rewrite Hq, Hsz.
    done. }
  destruct (drain_step w Hrec) as (fd & w1 & w2 & HG & HR & Hf & Hfd & Hrec2).
  { lia. }
  rewrite HG, HR.
  destruct (IH w2 Hrec2) as (l & w' & HD & Hperm & Hq & Hemp).
  { rewrite Hfd, map_size_delete_Some by eauto. lia. }
  rewrite HD. exists (Bytes fd :: l), w'. split; [done|]. split; [|done].
  rewrite Hperm, Hfd, <- (map_to_list_delete _ _ _ Hf). done.
Qed.

(** C4. Crash recovery: on a directory of N payload files that a store
    wrote, [NewFS] succeeds with a pending count of N, before any
    [Get], and N rounds of [Get], [Bytes], [Remove] read the contents
    of the N files, each once, and leave the store empty.  The system
    calls succeed and N fits an [int]. *)
Theorem crash_recovery timeout s :
  wf_fs s → healthy s = true → written_by_store s →
  Z.of_nat (size (files s)) ≤ int_max →
  ∃ w, NewFS timeout s = Ret tt w ∧
       (Count w).1 = Z.of_nat (size (files s)) ∧
       files (disk w) = files s ∧
       ∃ l w', drain (size (files s)) w = Some (l, w') ∧
               l ≡ₚ (map_to_list (files s)).*2 ∧
               (Count w').1 = 0 ∧ files (disk w') = ∅.
Proof.
  intros Hwf Hhl Hwr Hb.
  destruct (NewFS_spec timeout s Hhl (written_no_lock_dir _ Hwr) Hb)
    as (w & HN & He & Hf & Hl & Hh & Hfl & Hni & Hnf & Hq & _).
  exists w. split; [done|]. split; [done|]. split; [done|].
  assert (recoverable w) as Hrec.
  { unfold recoverable. rewrite Hf. split_and!; auto.
    - destruct Hwf as [Hw1 Hw2]. split.
      + rewrite Hh, Hni, Hnf. done.
      + rewrite Hl. apply map_Forall_empty.
    - unfold healthy. by rewrite Hfl.
    - unfold lock_dir_exists. by rewrite He, lookup_insert_eq.
    - intros n i. by rewrite Hl.
    - intros name d. rewrite He, lookup_insert. case_decide; [done|].
      apply Hwr. }
  destruct (drain_spec (size (files s)) w Hrec) as (l & w' & HD & Hp & Hq' & Hemp).
  { by rewrite Hf. }
  exists l, w'. rewrite Hf in Hp. done.
Qed.

End StoreProperties.

(** ** The relay loop *)

Import main.

Section RelayProps.

Context {digest : Digest} {sink_impl : sender.Sender}.

Ltac no_send H :=
  repeat (apply elem_of_cons in H as [H|H]; [discriminate H|]);
  by apply elem_of_nil in H.

Lemma Get_wf w r w' : wf_fs (disk w) → Get w = Ret r w' → wf_fs (disk w').
Proof.
  intros Hwf HG. pose proof (Get_spec w Hwf) as HS.
  rewrite (Get_Ret_lstat _ _ _ Hwf HG) in HS.
  destruct HS as (r0 & w0 & HG' & _ & _ & Hwf' & _). congruence.
Qed.

Lemma Remove_wf fd w : wf_fs (disk w) → wf_fs (disk (Remove fd w).2).
Proof.
  intros Hwf. unfold Remove. destruct (os_Remove _ _) as [s1|] eqn:HR; [|done].
  cbn [snd disk]. apply wf_os_Remove_lock, wf_Unlock.
  unfold os_Remove in HR. destruct (remove_fails _); [done|].
  destruct (entries (disk w) !! file_path fd) as [[]|]; [|done..].
  by injection HR as <-.
Qed.

(** Every round of the loop starts from a well-formed state when the
    first one does. *)
Lemma iteration_wf w q fl calls w' q' :
  wf_fs (disk w) → iteration w q = (fl, calls, (w', q')) → wf_fs (disk w').
Proof.
  intros Hwf. unfold iteration.
  destruct (Wait w) as [[|err] w0] eqn:HW.
  { intros [= _ _ <- _]. replace w0 with (Wait w).2 by (by rewrite HW).
    by rewrite Wait_disk. }
  assert (wf_fs (disk w0)) as Hwf0.
  { replace w0 with (Wait w).2 by (by rewrite HW). by rewrite Wait_disk. }
  case_bool_decide; [by intros [= _ _ <- _]|].
  destruct (_ && _); [by intros [= _ _ <- _]|].
  destruct (Get w0) as [|[fd|e] w1] eqn:HG; [by intros [= _ _ <- _]| |].
  2:{ intros [= _ _ <- _]. by eapply Get_wf. }
  apply Get_wf in HG; [|done].
  destruct (sender.Send _ q) as [[se|] q1].
  { intros [= _ _ <- _]. by apply wf_Unlock. }
  pose proof (Remove_wf fd w1 HG) as HR.
  destruct (Remove fd w1) as [[re|] w2]; intros [= _ _ <- _]; [|done].
  by apply wf_Unlock.
Qed.

(** C7. Relay policy: in a round of the loop that gets as far as
    [Send], the message is the bytes of the handle [Get] returned; when
    [Send] fails the round calls [Close] on the handle and no
    [Remove], the item stays on disk, its lock is released and the
    notifier is untouched; when [Send] succeeds the round calls
    [Remove], and [Close] after it when [Remove] failed, which releases
    the lock. *)
Theorem relay_redelivery w q fl calls w' q' :
  wf_fs (disk w) →
  iteration w q = (fl, calls, (w', q')) →
  ∀ msg, CallSend msg ∈ calls →
  ∃ fd w1,
    Get (Wait w).2 = Ret (inl fd) w1 ∧
    msg = string_of_bytes (Bytes fd) ∧ fl = LoopAgain ∧
    match sender.Send msg q with
    | (Some _, _) =>
        calls = [CallWait; CallGet; CallSend msg; CallClose fd] ∧
        (∀ fd', CallRemove fd' ∉ calls) ∧
        w' = (Data_Close fd w1).2 ∧
        entries (disk w') !! file_path fd = Some (File (data fd)) ∧
        held (disk w') !! flock_id (lock fd) = None ∧
        wait w' = wait w1
    | (None, _) =>
        match Remove fd w1 with
        | (None, w2) =>
            calls = [CallWait; CallGet; CallSend msg; CallRemove fd] ∧
            w' = w2
        | (Some _, w2) =>
            calls = [CallWait; CallGet; CallSend msg; CallRemove fd;
                     CallClose fd] ∧
            w' = (Data_Close fd w2).2 ∧
            held (disk w') !! flock_id (lock fd) = None
        end
    end.
Proof.
  intros Hwf. unfold iteration.
  destruct (Wait w) as [[|err] w0] eqn:HW.
  { intros [= <- <- <- <-] msg Hin. no_send Hin. }
  assert (disk w0 = disk w) as Hd0.
  { replace w0 with (Wait w).2 by (by rewrite HW). apply Wait_disk. }
  case_bool_decide.
  { intros [= <- <- <- <-] msg Hin. no_send Hin. }
  destruct (_ && _).
  { intros [= <- <- <- <-] msg Hin. no_send Hin. }
  cbn [snd].
  destruct (Get w0) as [|[fd|e] w1] eqn:HG.
  { intros [= <- <- <- <-] msg Hin. no_send Hin. }
  2:{ intros [= <- <- <- <-] msg Hin. no_send Hin. }
  rewrite <- Hd0 in Hwf.
  apply Get_granted in HG as (Hfr & Hwf1 & Hwait & _ & Hg); [|done].
  destruct Hg as (_ & He & _).
  destruct Hfr as (_ & He1 & _).
  destruct (sender.Send (string_of_bytes (Bytes fd)) q) as [[se|] q1] eqn:HSend.
  - intros [= <- <- <- <-] msg Hin.
    assert (msg = string_of_bytes (Bytes fd)) as ->.
    { repeat (apply elem_of_cons in Hin as [Hin|Hin]; [by simplify_eq|]).
      by apply elem_of_nil in Hin. }
    exists fd, w1. rewrite HSend. split_and!; auto.
    + intros fd' Hin'. no_send Hin'.
    + simpl. by rewrite He1.
    + simpl. apply lookup_delete_eq.
  - destruct (Remove fd w1) as [[re|] w2] eqn:HR.
    + intros [= <- <- <- <-] msg Hin.
      assert (msg = string_of_bytes (Bytes fd)) as ->.
      { repeat (apply elem_of_cons in Hin as [Hin|Hin]; [by simplify_eq|]).
        by apply elem_of_nil in Hin. }
      exists fd, w1. rewrite HSend, HR. split_and!; auto.
      simpl. apply lookup_delete_eq.
    + intros [= <- <- <- <-] msg Hin.
      assert (msg = string_of_bytes (Bytes fd)) as ->.
      { repeat (apply elem_of_cons in Hin as [Hin|Hin]; [by simplify_eq|]).
        by apply elem_of_nil in Hin. }
      exists fd, w1. rewrite HSend, HR. split_and!; auto.
Qed.

End RelayProps.

(** ** Waiting, closing and counting *)

(** [Wait] answers [ErrTimedOut] exactly when the forced wake is
    raised, whatever the pending count and whether or not the store
    was closed. *)
Lemma Wait_TimedOut w :
  (Wait w).1 = Returns (Some ErrTimedOut) ↔ forceWake (wait w) = true.
Proof.
  unfold Wait. destruct (forceWake (wait w)); simpl.
  - by rewrite andb_false_r.
  - rewrite andb_true_r. destruct (queued (wait w) =? 0); simpl.
    + by destruct (run (wait w)).
    + by destruct (run (wait w)).
Qed.

(** Without a forced wake, a closed store answers [ErrStoreClosed] and
    an open one with something pending answers [nil]. *)
Lemma Wait_no_forced_wake w :
  forceWake (wait w) = false →
  Wait w =
    (if run (wait w)
     then if queued (wait w) =? 0 then Blocked else Returns None
     else Returns (Some ErrStoreClosed), w).
Proof.
  intros Hf. unfold Wait. rewrite Hf, andb_true_r. simpl.
  destruct (queued (wait w) =? 0), (run (wait w)); done.
Qed.

(** On a closed store [Wait] never blocks and never answers [nil]: it
    answers [ErrTimedOut] when a forced wake is pending and
    [ErrStoreClosed] otherwise. *)
Lemma Wait_closed w :
  run (wait w) = false →
  (Wait w).1 =
    Returns (Some (if forceWake (wait w) then ErrTimedOut else ErrStoreClosed)).
Proof.
  intros Hr. unfold Wait. rewrite Hr, andb_false_r. simpl.
  by destruct (forceWake (wait w)).
Qed.

(** The timer raises the forced wake only when nothing is pending. *)
Lemma timer_fire_forceWake w :
  forceWake (wait (timer_fire w)) = true →
  queued (wait w) = 0 ∨ forceWake (wait w) = true.
Proof.
  unfold timer_fire. destruct (queued (wait w) =? 0) eqn:Hq; simpl.
  - left. by apply Z.eqb_eq.
  - by right.
Qed.

(** [Close] lowers [run], leaves the forced wake as it is and calls
    [Signal] once. *)
Lemma Close_spec w :
  run (wait (Close w).2) = false ∧
  forceWake (wait (Close w).2) = forceWake (wait w) ∧
  queued (wait (Close w).2) = queued (wait w) ∧
  signals (wait (Close w).2) = S (signals (wait w)).
Proof. done. Qed.

(** C8. [Count] returns the pending count of the notifier and leaves
    the store as it is. *)
Theorem Count_reports_pending w :
  (Count w).1 = queued (wait w) ∧ (Count w).2 = w.
Proof. done. Qed.

(** C5. The store of the tests, closed after its timer fired on the
    empty directory: the next [Wait] answers [ErrTimedOut] although the
    store is closed, and only the one after it [ErrStoreClosed]. *)
Theorem closed_store_times_out :
  NewFS 1000000 empty_dir = Ret tt fresh_store ∧
  run (wait (Close (timer_fire fresh_store)).2) = false ∧
  (Wait (Close (timer_fire fresh_store)).2).1 = Returns (Some ErrTimedOut) ∧
  (Wait (Wait (Close (timer_fire fresh_store)).2).2).1 =
    Returns (Some ErrStoreClosed).
Proof. by vm_compute. Qed.

Section GetErrors.

Context {digest : Digest}.

(** [Get] never answers [ErrGetLockFailed]: whatever error the walk
    ends with is turned into [ErrGetFailed]. *)
Lemma Get_never_lock_failed w w' : Get w ≠ Ret (inr ErrGetLockFailed) w'.
Proof.
  unfold Get. destruct (WalkDir _ _ _) as [|[e|] [s [fd|]]]; discriminate.
Qed.

(** C9. On a directory whose lock directory is gone the walk function
    of [Get] returns [ErrGetLockFailed] for the payload file, and [Get]
    answers [ErrGetFailed]. *)
Theorem lock_failure_reported_as_GetFailed :
  (∃ s, get_walk (Entry "2022-02-07-12-00-00-68656c6c6f" {| IsDir := false |})
          None (disk unlockable, None) =
        Ret (Some (Code ErrGetLockFailed)) (s, None)) ∧
  (∃ w', Get unlockable = Ret (inr ErrGetFailed) w') ∧
  readable (disk unlockable) = true ∧
  ∀ w w', Get w ≠ Ret (inr ErrGetLockFailed) w'.
Proof.
  split_and!.
  - eexists. by vm_compute.
  - eexists. by vm_compute.
  - done.
  - apply Get_never_lock_failed.
Qed.

End GetErrors.

(** ** The operations on a concrete directory *)

Section Examples.

#[local] Existing Instance plain_digest.
#[local] Existing Instance switch_sender.

Example fresh_store_is_NewFS : NewFS 1000000 empty_dir = Ret tt fresh_store.
Proof. by vm_compute. Qed.

Example hello_file_name :
  file_name noon hello = "2022-02-07-12-00-00-68656c6c6f"%string.
Proof. by vm_compute. Qed.

(** The scenario of [TestLocalFS], the timer firing where the test
    waits for it: the results and the counts are the ones the test
    asserts. *)
Example TestLocalFS :
  let '(r1, w1) := Wait (timer_fire fresh_store) in
  let '(r2, w2) := Store noon hello w1 in
  let '(r3, w3) := Store noon_and_a_half hello w2 in
  let '(n1, w4) := Count w3 in
  let '(r4, w5) := Wait w4 in
  match Get w5 with
  | Ret (inl fd) w6 =>
      let '(n2, w7) := Count w6 in
      match Get w7 with
      | Ret g2 w8 =>
          let '(_, w9) := Data_Close fd w8 in
          match Get w9 with
          | Ret (inl fd2) w10 =>
              let '(r5, w11) := Remove fd2 w10 in
              let '(n3, w12) := Count w11 in
              match Get w12 with
              | Ret g3 w13 =>
                  let '(r6, w14) := Wait (timer_fire w13) in
                  let '(_, w15) := Close w14 in
                  r1 = Returns (Some ErrTimedOut) ∧ r2 = None ∧
                  r3 = Some ErrDuplicatedStore ∧ n1 = 1 ∧
                  r4 = Returns None ∧ Bytes fd = hello ∧ n2 = 1 ∧
                  g2 = inr ErrGetEmpty ∧ Bytes fd2 = hello ∧
                  r5 = None ∧ n3 = 0 ∧ g3 = inr ErrGetEmpty ∧
                  r6 = Returns (Some ErrTimedOut) ∧
                  (Wait w15).1 = Returns (Some ErrStoreClosed)
              | Panic => False
              end
          | _ => False
          end
      | Panic => False
      end
  | _ => False
  end.
Proof. by vm_compute. Qed.

(** C6. The store of the tests, its timer fired on the empty
    directory, then ["hello"] stored: one message is pending on the
    open store and [Wait] answers [ErrTimedOut]. *)
Theorem pending_item_times_out :
  (Store noon hello (timer_fire fresh_store)).1 = None ∧
  (Count (Store noon hello (timer_fire fresh_store)).2).1 = 1 ∧
  run (wait (Store noon hello (timer_fire fresh_store)).2) = true ∧
  (Wait (Store noon hello (timer_fire fresh_store)).2).1 =
    Returns (Some ErrTimedOut).
Proof. by vm_compute. Qed.

Lemma wf_fresh_store : wf_fs (disk fresh_store).
Proof. apply (bool_decide_unpack _). by vm_compute. Defined.

Lemma wf_one_item : wf_fs (disk one_item).
Proof. apply (bool_decide_unpack _). by vm_compute. Defined.

Lemma Store_hello :
  Store noon hello fresh_store = (None, one_item).
Proof. by vm_compute. Defined.

Lemma round_trip_witness :
  wf_fs (disk fresh_store) ∧ clock_ok noon = true ∧
  readable (disk fresh_store) = true ∧ files (disk fresh_store) = ∅ ∧
  Store noon hello fresh_store = (None, one_item) ∧
  ∃ fd w2, Get one_item = Ret (inl fd) w2 ∧
           Bytes fd = hello ∧
           entries (disk w2) !! file_name noon hello = Some (File hello) ∧
           entries (disk w2) = entries (disk one_item) ∧
           (Count w2).1 = (Count one_item).1.
Proof.
  assert (clock_ok noon = true) as H2 by (by vm_compute).
  assert (readable (disk fresh_store) = true) as H3 by (by vm_compute).
  assert (files (disk fresh_store) = ∅) as H4 by (by vm_compute).
  split_and!; [exact wf_fresh_store | done | done | done | exact Store_hello |].
  exact (round_trip noon hello fresh_store _ wf_fresh_store H2 H3 H4 Store_hello).
Defined.

Lemma duplicate_suppression_witness :
  wf_fs (disk fresh_store) ∧ same_second noon noon_and_a_half ∧
  Store noon hello fresh_store = (None, one_item) ∧
  file_name noon_and_a_half hello = file_name noon hello ∧
  (∃ w2, Store noon_and_a_half hello one_item = (Some ErrDuplicatedStore, w2) ∧
         (Count w2).1 = (Count one_item).1 ∧
         (Count one_item).1 = int_incr (queued (wait fresh_store)) ∧
         (queued (wait fresh_store) = 0 → (Count w2).1 = 1)) ∧
  (∃ lock s0 s1 wB wC,
     flock_New (file_name noon hello) (disk fresh_store) = (lock, s0) ∧
     TryLock lock s0 = (true, None, s1) ∧
     Store noon_and_a_half hello (set_disk s1 fresh_store) =
       (Some ErrDuplicatedStore, wB) ∧
     Store_locked (file_name noon hello) hello lock wB = (None, wC) ∧
     (Count wC).1 = int_incr (queued (wait fresh_store)) ∧
     (queued (wait fresh_store) = 0 → (Count wC).1 = 1)).
Proof.
  assert (same_second noon noon_and_a_half) as H2 by (by vm_compute).
  split_and!; [exact wf_fresh_store | by vm_compute.. | exact Store_hello | | |].
  all: by apply (duplicate_suppression noon noon_and_a_half hello fresh_store
                   one_item wf_fresh_store H2 Store_hello).
Defined.

Lemma Store_atomic_witness :
  int_min ≤ queued (wait fresh_store) < int_max ∧
  Store noon hello fresh_store = (None, one_item) ∧
  queued (wait one_item) = queued (wait fresh_store) + 1 ∧
  signals (wait one_item) = S (signals (wait fresh_store)).
Proof.
  assert (int_min ≤ queued (wait fresh_store) < int_max) as H1
    by (by vm_compute).
  split; [done|]. split; [exact Store_hello|].
  exact (Store_atomic noon hello fresh_store None one_item H1 Store_hello).
Defined.


Lemma Get_hello : Get one_item = Ret (inl hello_handle) one_item_claimed.
Proof. by vm_compute. Defined.

Lemma exclusivity_witness :
  wf_fs (disk one_item) ∧
  Get one_item = Ret (inl hello_handle) one_item_claimed ∧
  Forall (leaves hello_handle) meanwhile ∧
  do_ops meanwhile one_item_claimed = Some one_item_later ∧
  Open hello_handle (disk one_item_later) ∧
  (∀ fd' w3, Get one_item_later = Ret (inl fd') w3 →
             file_path fd' ≠ file_path hello_handle) ∧
  (only_item hello_handle (disk one_item_later) →
   (∃ w3, Get one_item_later = Ret (inr ErrGetEmpty) w3) ∧
   (∃ fd' w3, Get (Data_Close hello_handle one_item_later).2 = Ret (inl fd') w3 ∧
              file_path fd' = file_path hello_handle ∧
              Bytes fd' = Bytes hello_handle)).
Proof.
  assert (Forall (leaves hello_handle) meanwhile) as H3
    by (repeat constructor).
  assert (do_ops meanwhile one_item_claimed = Some one_item_later) as H4
    by (by vm_compute).
  split_and!; [exact wf_one_item | exact Get_hello | done | done | | |].
  all: by apply (exclusivity one_item hello_handle one_item_claimed meanwhile
                   one_item_later wf_one_item Get_hello H3 H4).
Defined.

Lemma left_behind_written : written_by_store left_behind.
Proof.
  intros name d. cbn [left_behind entries].
  intros [[_ [=]]|[_ Hl]]%lookup_insert_Some.
  apply lookup_insert_Some in Hl as [[<- [= <-]]|[_ Hl]].
  { exists noon. by vm_compute. }
  apply lookup_insert_Some in Hl as [[<- [= <-]]|[_ Hl]].
  { exists noon. by vm_compute. }
  by rewrite lookup_empty in Hl.
Defined.

Lemma crash_recovery_witness :
  wf_fs left_behind ∧ healthy left_behind = true ∧
  written_by_store left_behind ∧
  Z.of_nat (size (files left_behind)) ≤ int_max ∧
  size (files left_behind) = 2%nat ∧
  ∃ w, NewFS 1000000 left_behind = Ret tt w ∧
       (Count w).1 = Z.of_nat (size (files left_behind)) ∧
       files (disk w) = files left_behind ∧
       ∃ l w', drain (size (files left_behind)) w = Some (l, w') ∧
               l ≡ₚ (map_to_list (files left_behind)).*2 ∧
               (Count w').1 = 0 ∧ files (disk w') = ∅.
Proof.
  assert (wf_fs left_behind) as H1
    by (apply (bool_decide_unpack _); by vm_compute).
  assert (healthy left_behind = true) as H2 by (by vm_compute).
  assert (Z.of_nat (size (files left_behind)) ≤ int_max) as H4
    by (by vm_compute).
  split_and!; [done | done | exact left_behind_written | done | by vm_compute |].
  exact (crash_recovery 1000000 left_behind H1 H2 left_behind_written H4).
Defined.

Lemma relay_redelivery_witness :
  wf_fs (disk one_item) ∧
  iteration one_item false =
    (LoopAgain,
     [CallWait; CallGet; CallSend "hello"; CallClose hello_handle],
     ((Data_Close hello_handle one_item_claimed).2, false)) ∧
  CallSend "hello" ∈ [CallWait; CallGet; CallSend "hello"; CallClose hello_handle] ∧
  ∃ fd w1,
    Get (Wait one_item).2 = Ret (inl fd) w1 ∧
    "hello"%string = string_of_bytes (Bytes fd) ∧ LoopAgain = LoopAgain ∧
    match sender.Send "hello" false with
    | (Some _, _) =>
        [CallWait; CallGet; CallSend "hello"; CallClose hello_handle] =
          [CallWait; CallGet; CallSend "hello"; CallClose fd] ∧
        (∀ fd', CallRemove fd' ∉
                [CallWait; CallGet; CallSend "hello"; CallClose hello_handle]) ∧
        (Data_Close hello_handle one_item_claimed).2 = (Data_Close fd w1).2 ∧
        entries (disk (Data_Close hello_handle one_item_claimed).2) !! file_path fd =
          Some (File (data fd)) ∧
        held (disk (Data_Close hello_handle one_item_claimed).2) !!
          flock_id (lock fd) = None ∧
        wait (Data_Close hello_handle one_item_claimed).2 = wait w1
    | (None, _) =>
        match Remove fd w1 with
        | (None, w2) =>
            [CallWait; CallGet; CallSend "hello"; CallClose hello_handle] =
              [CallWait; CallGet; CallSend "hello"; CallRemove fd] ∧
            (Data_Close hello_handle one_item_claimed).2 = w2
        | (Some _, w2) =>
            [CallWait; CallGet; CallSend "hello"; CallClose hello_handle] =
              [CallWait; CallGet; CallSend "hello"; CallRemove fd;
               CallClose fd] ∧
            (Data_Close hello_handle one_item_claimed).2 = (Data_Close fd w2).2 ∧
            held (disk (Data_Close hello_handle one_item_claimed).2) !!
              flock_id (lock fd) = None
        end
    end.
Proof.
  assert (iteration one_item false =
          (LoopAgain,
           [CallWait; CallGet; CallSend "hello"; CallClose hello_handle],
           ((Data_Close hello_handle one_item_claimed).2, false))) as H2
    by (by vm_compute).
  assert (CallSend "hello" ∈
          [CallWait; CallGet; CallSend "hello"; CallClose hello_handle]) as H3
    by (rewrite !elem_of_cons; auto).
  split_and!; [exact wf_one_item | done | done |].
  exact (relay_redelivery one_item false _ _ _ _ wf_one_item H2 "hello"%string H3).
Defined.

(** Exclusivity is kept by one store.  [NewFS] takes every lock it
    finds for a stale one: a second store built on the directory while
    the handle is open hands the item out again. *)
Example NewFS_discards_locks :
  ∃ w fd w',
    NewFS 1000000 (disk one_item_claimed) = Ret tt w ∧
    Get w = Ret (inl fd) w' ∧
    file_path fd = file_path hello_handle ∧
    is_Some (held (disk w') !! flock_id (lock hello_handle)).
Proof. do 3 eexists. split_and!; [by vm_compute.. | by eexists]. Qed.

End Examples.

(** * Further properties of the code *)

(** ** The order of the walk *)

Lemma ascii_compare_Lt_trans a b c :
  Ascii.compare a b = Lt → Ascii.compare b c ≠ Gt → Ascii.compare a c = Lt.
Proof.
  unfold Ascii.compare. rewrite !N.compare_lt_iff, N.compare_gt_iff. lia.
Qed.

Lemma string_compare_trans a : ∀ b c,
  String.compare a b ≠ Gt → String.compare b c ≠ Gt → String.compare a c ≠ Gt.
Proof.
  induction a as [|x a IH]; intros [|y b] [|z c]; simpl; try done.
  destruct (Ascii.compare x y) eqn:Hxy; [| |done].
  - apply Ascii.compare_eq_iff in Hxy as ->.
    destruct (Ascii.compare y z); [apply IH | done | done].
  - intros _ Hyz.
    rewrite (ascii_compare_Lt_trans x y z Hxy); [done|].
    by destruct (Ascii.compare y z).
Qed.

#[global] Instance entry_le_trans : Transitive entry_le.
Proof.
  intros [a ?] [b ?] [c ?]. unfold entry_le, String.leb. simpl.
  intros Hab Hbc.
  pose proof (string_compare_trans a b c) as Ht.
  destruct (String.compare a b); try done;
  destruct (String.compare b c); try done;
  destruct (String.compare a c); try done; by destruct Ht.
Qed.

#[global] Instance entry_le_total : Total entry_le.
Proof. intros [a ?] [b ?]. apply String.leb_total. Qed.

Section GetOrder.

Context {digest : Digest}.



Lemma Get_entries w r w' :
  wf_fs (disk w) → Get w = Ret r w' →
  entries (disk w') = entries (disk w) ∧ wait w' = wait w.
Proof.
  intros Hwf HG. pose proof (Get_spec w Hwf) as HS.
  rewrite (Get_Ret_lstat _ _ _ Hwf HG) in HS.
  destruct HS as (r0 & w0 & HG' & Hwait & (_ & He & _) & _).
  rewrite HG in HG'. by injection HG' as <- <-.
Qed.

(** X2. What [Get] hands out is what is on disk and passes the integrity
    check: the bytes of the handle are the contents of the file of its
    name, their digest is the one in the name, and the lock of the
    handle is the one of that name. *)
Theorem Get_integrity w fd w' :
  wf_fs (disk w) →
  Get w = Ret (inl fd) w' →
  entries (disk w') !! file_path fd = Some (File (Bytes fd)) ∧
  hex_EncodeToString (Sum256 (Bytes fd)) =
    string_drop (String.length time_format) (file_path fd) ∧
  flock_path (lock fd) = file_path fd ∧
  Open fd (disk w').
Proof.
  intros Hwf HG.
  apply Get_granted in HG as (Hfr & Hwf1 & _ & _ & Hg); [|done].
  destruct (granted_Inv _ _ _ Hwf1 Hfr Hg) as (_ & _ & HO).
  pose proof HO as (Hp & He & [_ Hi] & _). done.
Qed.

(** X3. [Get] reads and locks, nothing else: the storage directory and
    the notifier are as before; a [Get] that returns an error holds no
    lock it did not hold before, and one that returns a handle holds
    exactly one more, the lock of the handle. *)
Theorem Get_footprint w r w' :
  wf_fs (disk w) →
  Get w = Ret r w' →
  entries (disk w') = entries (disk w) ∧ wait w' = wait w ∧
  locks (disk w) ⊆ locks (disk w') ∧
  match r with
  | inl fd =>
      held (disk w) !! flock_id (lock fd) = None ∧
      ∃ ino, held (disk w') = <[flock_id (lock fd) := ino]> (held (disk w))
  | inr e =>
      held (disk w') = held (disk w) ∧ (e = ErrGetFailed ∨ e = ErrGetEmpty)
  end.
Proof.
  intros Hwf HG. pose proof (Get_spec w Hwf) as HS.
  rewrite (Get_Ret_lstat _ _ _ Hwf HG) in HS.
  destruct HS as (r0 & w0 & HG' & Hwait & Hfr & _ & Hr).
  rewrite HG in HG'. injection HG' as <- <-.
  destruct Hfr as (_ & He & Hsub & _). split_and!; auto.
  destruct r as [fd|e].
  - destruct Hr as (_ & _ & _ & _ & _ & _ & Hk & _ & ino & _ & Hh & _). eauto.
  - destruct Hr as (Hh & [(-> & _)|(-> & _)]); auto.
Qed.

End GetOrder.

Section StoreMore.

Context {digest : Digest}.

(** X4. The result of [Store] as a table of what it finds, in the order
    it looks: no lock directory, the lock of the name held, a file of
    the name there (or [os.Stat] failing otherwise than with "not
    exist"), the write failing. *)
Theorem Store_result now payload w :
  wf_fs (disk w) →
  (Store now payload w).1 =
    if negb (lock_dir_exists (disk w)) then Some ErrStoreLockFailed
    else if busy (file_name now payload) (disk w) then Some ErrDuplicatedStore
    else match os_Stat (file_name now payload) (disk w) with
         | StatNotExist =>
             if write_fails (faults (disk w)) then Some ErrStoreFailed
             else None
         | _ => Some ErrDuplicatedStore
         end.
Proof.
  intros Hwf. destruct (Store now payload w) as [r w'] eqn:HS. cbn [fst].
  apply Store_spec in HS as (s1 & Hfr & _ & _ & Hr); [|done].
  unfold busy. destruct r as [e|].
  - destruct Hr as (_ & _ & [(-> & ->)|[(-> & -> & Hc)|
                             (-> & -> & -> & -> & Hfree)]]); simpl.
    + done.
    + destruct Hc as [(ino & -> & ->)|Hst]; [done|].
      destruct (locks (disk w) !! _) as [i|]; [destruct (ino_locked i _)|];
        try done; by destruct (os_Stat _ _).
    + destruct (locks (disk w) !! _) as [i|] eqn:E; [|done].
      by rewrite (Hfree _ eq_refl).
  - destruct Hr as (_ & _ & Hnone & Hsf & -> & -> & ino & Hn & Hlk). simpl.
    assert (os_Stat (file_name now payload) (disk w) = StatNotExist) as ->.
    { unfold os_Stat. by rewrite Hsf, Hnone. }
    destruct (locks (disk w) !! _) as [i|] eqn:E; [|done].
    destruct Hfr as (_ & _ & Hsub & _).
    eapply lookup_weaken in E; [|done]. rewrite Hn in E.
    injection E as <-. by rewrite Hlk.
Qed.

(** X5. What [Store] leaves behind: it holds no lock when it returns,
    whatever the outcome; it touches no entry of the directory but the
    one of its file name, never replaces an entry that is there, and on
    success that entry is the payload. *)
Theorem Store_footprint now payload w r w' :
  wf_fs (disk w) →
  Store now payload w = (r, w') →
  held (disk w') = held (disk w) ∧
  (∀ name, name ≠ file_name now payload →
           entries (disk w') !! name = entries (disk w) !! name) ∧
  (∀ n, entries (disk w) !! file_name now payload = Some n →
        entries (disk w') !! file_name now payload = Some n) ∧
  (r = None →
   entries (disk w) !! file_name now payload = None ∧
   entries (disk w') !! file_name now payload = Some (File payload)).
Proof.
  intros Hwf HS.
  apply Store_spec in HS as (s1 & Hfr & _ & Hh & Hr); [|done].
  destruct Hfr as (_ & He & _). destruct r as [e|].
  - destruct Hr as (-> & _). rewrite He. done.
  - destruct Hr as (-> & _ & Hnone & _). simpl. rewrite He.
    split_and!; auto.
    + intros name Hne. by rewrite lookup_insert_ne.
    + intros n Hn. congruence.
    + intros _. by rewrite lookup_insert_eq.
Qed.

(** X6. A successful [Remove] finalizes the item: its file and its lock
    file are gone, the lock is released, the pending count is one less
    unless it was zero, and no later [Get] hands the item out. *)
Theorem Remove_finalizes fd w w1 :
  wf_fs (disk w) →
  0 ≤ queued (wait w) ≤ int_max →
  Remove fd w = (None, w1) →
  (∃ d, entries (disk w) !! file_path fd = Some (File d)) ∧
  entries (disk w1) = delete (file_path fd) (entries (disk w)) ∧
  (lock_dir_exists (disk w) = true →
   locks (disk w1) !! flock_path (lock fd) = None) ∧
  held (disk w1) = delete (flock_id (lock fd)) (held (disk w)) ∧
  queued (wait w1) = Z.max 0 (queued (wait w) - 1) ∧
  ∀ fd' w2, Get w1 = Ret (inl fd') w2 → file_path fd' ≠ file_path fd.
Proof.
  intros Hwf Hq HR.
  pose proof (Remove_wf fd w Hwf) as Hwf1. rewrite HR in Hwf1. cbn [snd] in Hwf1.
  revert HR. unfold Remove, os_Remove.
  destruct (remove_fails _); [done|].
  destruct (entries (disk w) !! file_path fd) as [[d|]|] eqn:He; [|done..].
  intros [= <-]. cbn [disk wait] in *.
  rewrite os_Remove_lock_entries, os_Remove_lock_held. simpl.
  split_and!; eauto.
  - intros Hd. unfold os_Remove_lock, lock_dir_exists in *. simpl.
    destruct (decide (file_path fd = lock_dir_name)) as [Heq|Hne].
    { rewrite Heq in He. by rewrite He in Hd. }
    rewrite lookup_delete_ne by done.
    destruct (entries (disk w) !! lock_dir_name) as [[]|]; try done.
    simpl. apply lookup_delete_eq.
  - destruct (0 <? queued (wait w)) eqn:Hp; simpl.
    + rewrite int_decr_spec; [lia|]. unfold int_min, int_max in *. lia.
    + lia.
  - intros fd' w2 HG Heq.
    apply Get_granted in HG as (_ & _ & _ & _ & Hg); [|exact Hwf1].
    destruct Hg as (_ & Hfile & _). cbn [disk] in Hfile.
    rewrite os_Remove_lock_entries in Hfile. simpl in Hfile.
    by rewrite Heq, lookup_delete_eq in Hfile.
Qed.

(** X7. [Remove] works once: when it fails it answers
    [ErrRemoveFailed] and changes nothing, so the lock of the handle
    stays held; after it succeeded, a second [Remove] of the same
    handle fails and changes nothing, the pending count included. *)
Theorem Remove_once fd w r w1 :
  Remove fd w = (r, w1) →
  match r with
  | Some e => e = ErrRemoveFailed ∧ w1 = w
  | None => Remove fd w1 = (Some ErrRemoveFailed, w1)
  end.
Proof.
  unfold Remove at 1. unfold os_Remove.
  destruct (remove_fails _) eqn:Hrf; [by intros [= <- <-]|].
  destruct (entries (disk w) !! file_path fd) as [[d|]|] eqn:He;
    [|by intros [= <- <-]..].
  intros [= <- <-]. unfold Remove, os_Remove. cbn [disk].
  rewrite os_Remove_lock_faults, os_Remove_lock_entries. simpl.
  by rewrite Hrf, lookup_delete_eq.
Qed.

End StoreMore.

Section CountInvariant.

Context {digest : Digest}.

Lemma Store_wf now payload w : wf_fs (disk w) → wf_fs (disk (Store now payload w).2).
Proof.
  intros Hwf. destruct (Store now payload w) as [r w'] eqn:HS.
  apply Store_spec in HS as (s1 & _ & Hwf1 & _ & Hr); [|done].
  destruct r as [e|]; cbn [snd].
  - by destruct Hr as (-> & _).
  - by destruct Hr as (-> & _).
Qed.

Lemma do_op_wf o w w' : wf_fs (disk w) → do_op o w = Some w' → wf_fs (disk w').
Proof.
  intros Hwf. destruct o as [now payload| | | | | |fd|fd]; simpl.
  - intros [= <-]. by apply Store_wf.
  - destruct (Get w) as [|r w1] eqn:HG; [done|]. intros [= <-].
    by eapply Get_wf.
  - intros [= <-]. by rewrite Wait_disk.
  - by intros [= <-].
  - by intros [= <-].
  - by intros [= <-].
  - intros [= <-]. by apply wf_Unlock.
  - intros [= <-]. by apply Remove_wf.
Qed.

Lemma Wait_queued w : queued (wait (Wait w).2) = queued (wait w).
Proof.
  unfold Wait. destruct (_ && _); [done|].
  destruct (forceWake _); [done|]. by destruct (negb _).
Qed.

Lemma files_insert_file s name d :
  files (set_entries (insert name (File d)) s) = <[name := d]> (files s).
Proof. unfold files. simpl. by rewrite omap_insert. Qed.

Lemma do_op_mirrors o w w' :
  wf_fs (disk w) →
  queued (wait w) = Z.of_nat (size (files (disk w))) →
  Z.of_nat (size (files (disk w))) < int_max →
  do_op o w = Some w' →
  queued (wait w') = Z.of_nat (size (files (disk w'))) ∧
  (size (files (disk w')) ≤ S (size (files (disk w))))%nat.
Proof.
  intros Hwf Hm Hb.
  destruct o as [now payload| | | | | |fd|fd]; simpl.
  - destruct (Store now payload w) as [r w1] eqn:HS. intros [= <-].
    apply Store_spec in HS as (s1 & Hfr & _ & _ & Hr); [|done].
    destruct Hfr as (_ & He & _).
    assert (files s1 = files (disk w)) as Hf by (unfold files; by rewrite He).
    destruct r as [e|].
    + destruct Hr as (-> & -> & _). rewrite Hf. auto with lia.
    + destruct Hr as (-> & -> & Hnone & _).
      rewrite files_insert_file, Hf. simpl.
      rewrite map_size_insert_None by (by rewrite files_lookup, Hnone).
      split; [|lia]. rewrite int_incr_spec; [lia|].
      unfold int_min in *. lia.
  - destruct (Get w) as [|r w1] eqn:HG; [done|]. intros [= <-].
    apply Get_entries in HG as (He & ->); [|done].
    unfold files. rewrite He. auto with lia.
  - intros [= <-]. rewrite Wait_queued, Wait_disk. auto with lia.
  - intros [= <-]. simpl. auto with lia.
  - intros [= <-]. simpl. auto with lia.
  - intros [= <-]. unfold timer_fire. simpl.
    destruct (queued (wait w) =? 0); simpl; auto with lia.
  - intros [= <-]. simpl. auto with lia.
  - intros [= <-]. unfold Remove, os_Remove.
    destruct (remove_fails _); [auto with lia|].
    destruct (entries (disk w) !! file_path fd) as [[d|]|] eqn:He;
      [|auto with lia..].
    cbn [snd disk wait].
    assert (files (os_Remove_lock (flock_path (lock fd))
                     (Unlock (lock fd)
                        (set_entries (delete (file_path fd)) (disk w)))) =
            delete (file_path fd) (files (disk w))) as ->.
    { unfold files. rewrite os_Remove_lock_entries. simpl.
      by rewrite omap_delete. }
    assert (is_Some (files (disk w) !! file_path fd)) as Hs.
    { exists d. by apply files_Some. }
    rewrite map_size_delete_Some by done.
    assert (size (files (disk w)) ≠ 0%nat) as Hne.
    { apply map_size_ne_0_lookup. eauto. }
    assert ((0 <? queued (wait w)) = true) as -> by (apply Z.ltb_lt; lia).
    simpl. split; [|lia]. rewrite int_decr_spec; [lia|].
    unfold int_min, int_max in *. lia.
Qed.

(** X8. The pending count mirrors the directory: when it is the number
    of payload files, as [NewFS] leaves it, it is so again after every
    sequence of operations of the store and of its handles, as long as
    the count cannot overflow. *)
Theorem count_mirrors_files os : ∀ w w',
  wf_fs (disk w) →
  queued (wait w) = Z.of_nat (size (files (disk w))) →
  Z.of_nat (size (files (disk w))) + Z.of_nat (length os) ≤ int_max →
  do_ops os w = Some w' →
  queued (wait w') = Z.of_nat (size (files (disk w'))).
Proof.
  induction os as [|o os IH]; intros w w' Hwf Hm Hb; simpl.
  { by intros [= <-]. }
  destruct (do_op o w) as [w1|] eqn:Hop; [|done].
  pose proof (do_op_wf _ _ _ Hwf Hop) as Hwf1.
  apply do_op_mirrors in Hop as [Hm1 Hsz]; [|done..|].
  2:{ simpl in Hb. lia. }
  apply IH; [done..|]. simpl in Hb. lia.
Qed.

End CountInvariant.

Section NewFSMore.

Context {digest : Digest}.

(** X9. [NewFS] panics exactly when one of the four calls it makes on
    the directory fails; otherwise it returns a running store whose
    pending count is the number of regular files it found, whether or
    not they are payloads [Get] would accept, over an emptied lock
    directory, with no forced wake pending and the timer armed when a
    timeout is given. *)
Theorem NewFS_outcome timeout s :
  Z.of_nat (size (files s)) ≤ int_max →
  if removeall_fails (faults s) || mkdirall_fails (faults s) ||
     lstat_fails (faults s) || readdir_fails (faults s)
  then NewFS timeout s = Panic
  else ∃ w, NewFS timeout s = Ret tt w ∧
            entries (disk w) = <[lock_dir_name := Dir]> (entries s) ∧
            locks (disk w) = ∅ ∧ held (disk w) = held s ∧
            (Count w).1 = Z.of_nat (size (files (disk w))) ∧
            files (disk w) = delete lock_dir_name (files s) ∧
            run (wait w) = true ∧ forceWake (wait w) = false ∧
            timer (wait w) =
              if bool_decide (timeout ≠ 0) then Some TimerArmed else None.
Proof.
  intros Hsz. unfold NewFS, os_RemoveAll_lock_dir, os_MkdirAll_lock_dir.
  destruct (removeall_fails (faults s)) eqn:Hra; [done|].
  cbn [faults set_locks set_entries entries orb].
  destruct (mkdirall_fails (faults s)) eqn:Hmk; [done|].
  rewrite lookup_delete_eq. cbn [orb].
  set (s2 := set_entries _ _).
  assert (entries s2 = <[lock_dir_name := Dir]> (entries s)) as He2.
  { unfold s2. simpl. by rewrite insert_delete_eq. }
  assert (files s2 = delete lock_dir_name (files s)) as Hfiles.
  { unfold files. by rewrite He2, omap_insert_None. }
  unfold WalkDir. cbn [disk].
  change (faults s2) with (faults s).
  destruct (lstat_fails (faults s)) eqn:Hls; [done|].
  unfold walkDir_root, readDir. cbn [count_walk disk orb].
  change (faults s2) with (faults s).
  destruct (readdir_fails (faults s)) eqn:Hrd; [done|].
  set (w0 := {| disk := s2; wait := _ |}).
  assert (size (files s2) ≤ size (files s))%nat as Hle.
  { rewrite Hfiles. apply map_subseteq_size, delete_subseteq. }
  destruct (walk_entries_count (merge_sort entry_le (map_to_list (entries s2))) w0)
    as (w' & Hw & Hd & Hq & Hs & Ht & Hr & Hf).
  { simpl. unfold int_min. lia. }
  { rewrite merge_sort_Permutation, <- size_omap_file_data.
    change (omap file_data (entries s2)) with (files s2). simpl. lia. }
  rewrite Hw.
  rewrite merge_sort_Permutation, <- size_omap_file_data in Hq.
  change (omap file_data (entries s2)) with (files s2) in Hq.
  simpl in Hq, Hs, Hr, Hf, Ht.
  case_bool_decide.
  - eexists. split; [done|]. unfold Count.
    cbn [disk wait queued run forceWake signals timer fst].
    rewrite Hd. split_and!; auto.
  - eexists. split; [done|]. unfold Count. cbn [fst]. rewrite Hd.
    split_and!; auto.
Qed.

End NewFSMore.

Section RelayMore.

Context {digest : Digest} {sink_impl : sender.Sender}.

Lemma Get_wait w r w' : Get w = Ret r w' → wait w' = wait w.
Proof.
  unfold Get. destruct (WalkDir _ _ _) as [|[e|] [s [fd|]]]; [done|..];
    by intros [= _ <-].
Qed.

Lemma Remove_flags fd w :
  run (wait (Remove fd w).2) = run (wait w) ∧
  forceWake (wait (Remove fd w).2) = forceWake (wait w).
Proof.
  unfold Remove. destruct (os_Remove _ _); [|done]. simpl.
  by destruct (0 <? queued (wait w)).
Qed.

Lemma Wait_flags w :
  run (wait (Wait w).2) = run (wait w) ∧
  forceWake (wait (Wait w).2) = false.
Proof.
  unfold Wait. destruct (forceWake (wait w)) eqn:Hf.
  - by rewrite andb_false_r.
  - rewrite andb_true_r. simpl.
    destruct (_ && _); [done|]. by destruct (negb _).
Qed.

(** A round leaves [run] as it is and no forced wake pending. *)
Lemma iteration_flags w q fl calls w' q' :
  iteration w q = (fl, calls, (w', q')) →
  run (wait w') = run (wait w) ∧ forceWake (wait w') = false.
Proof.
  unfold iteration. pose proof (Wait_flags w) as [Hr Hf].
  destruct (Wait w) as [[|err] w0]; cbn [snd] in *.
  { by intros [= _ _ <- _]. }
  case_bool_decide; [by intros [= _ _ <- _]|].
  destruct (_ && _); [by intros [= _ _ <- _]|].
  destruct (Get w0) as [|[fd|e] w1] eqn:HG; [by intros [= _ _ <- _]| |].
  2:{ intros [= _ _ <- _]. by rewrite (Get_wait _ _ _ HG). }
  apply Get_wait in HG.
  destruct (sender.Send _ q) as [[se|] q1].
  { intros [= _ _ <- _]. simpl. by rewrite HG. }
  pose proof (Remove_flags fd w1) as [Hr1 Hf1].
  destruct (Remove fd w1) as [[re|] w2]; intros [= _ _ <- _]; cbn [snd] in *;
    simpl; by rewrite ?Hr1, ?Hf1, HG.
Qed.

Lemma iteration_sent w q fl calls st :
  iteration w q = (fl, calls, st) → (length (sent calls) ≤ 1)%nat.
Proof.
  unfold iteration.
  destruct (Wait w) as [[|err] w0]; [intros [= _ <- _]; simpl; lia|].
  case_bool_decide; [intros [= _ <- _]; simpl; lia|].
  destruct (_ && _); [intros [= _ <- _]; simpl; lia|].
  destruct (Get w0) as [|[fd|e] w1]; [intros [= _ <- _]; simpl; lia| |intros [= _ <- _]; simpl; lia].
  destruct (sender.Send _ q) as [[se|] q1].
  { destruct (Data_Close fd w1). intros [= _ <- _]; simpl; lia. }
  destruct (Remove fd w1) as [[re|] w2].
  { destruct (Data_Close fd w2). intros [= _ <- _]; simpl; lia. }
  intros [= _ <- _]; simpl; lia.
Qed.

Lemma relay_S n w q :
  relay (S n) w q =
  match iteration w q with
  | (LoopAgain, calls, (w1, q1)) =>
      let '(fl, calls', st) := relay n w1 q1 in (fl, calls ++ calls', st)
  | stop => stop
  end.
Proof. done. Qed.

(** X10. The relay goroutine ends after [Close]: on a closed store the
    loop returns in its first round, or in its second when a forced
    wake was pending (the first round then still tries one delivery);
    it cannot go on unless [Get] panics. *)
Theorem relay_returns_after_Close w q n :
  run (wait w) = false →
  let '(fl, calls, _) := relay (S (S n)) w q in
  (fl = Exit ∨ fl = Crashed) ∧ (length (sent calls) ≤ 1)%nat ∧
  (forceWake (wait w) = false → fl = Exit ∧ calls = [CallWait]).
Proof.
  intros Hrun.
  assert (∀ w0 q0 m, run (wait w0) = false → forceWake (wait w0) = false →
            relay (S m) w0 q0 = (Exit, [CallWait], (w0, q0))) as Hexit.
  { intros w0 q0 m Hr Hf. rewrite relay_S. unfold iteration.
    rewrite Wait_no_forced_wake, Hr by done. done. }
  destruct (forceWake (wait w)) eqn:Hf.
  2:{ rewrite Hexit by done. simpl. auto with lia. }
  rewrite relay_S.
  destruct (iteration w q) as [[fl calls] [w1 q1]] eqn:Hit.
  pose proof (iteration_flags _ _ _ _ _ _ Hit) as [Hr1 Hf1].
  pose proof (iteration_sent _ _ _ _ _ Hit) as Hs1.
  assert (fl ≠ Exit ∧ fl ≠ Parked) as [HnE HnP].
  { revert Hit. unfold iteration.
    assert (Wait w = (Returns (Some ErrTimedOut),
                      {| disk := disk w; wait := set_forceWake false (wait w) |}))
      as ->.
    { unfold Wait. by rewrite Hf, andb_false_r. }
    simpl. destruct (Get _) as [|[fd|e] w2]; [by intros [= <- _]| |by intros [= <- _]].
    destruct (sender.Send _ q) as [[se|] q2]; [by intros [= <- _]|].
    destruct (Remove fd w2) as [[re|] w3]; by intros [= <- _]. }
  destruct fl; try done; [|split_and!; [by right|done|done]].
  rewrite Hexit by congruence.
  split_and!; [auto | | done].
  unfold sent in *. rewrite omap_app, length_app. simpl. lia.
Qed.

End RelayMore.

Section RelayAccounts.

Context {digest : Digest} {sink_impl : sender.Sender}.

Lemma Remove_entries fd w :
  entries (disk (Remove fd w).2) =
  match (Remove fd w).1 with
  | None => delete (file_path fd) (entries (disk w))
  | Some _ => entries (disk w)
  end.
Proof.
  unfold Remove, os_Remove. destruct (remove_fails _); [done|].
  destruct (entries (disk w) !! file_path fd) as [[d|]|]; [|done..].
  cbn [fst snd disk]. by rewrite os_Remove_lock_entries.
Qed.

(** What one round of the loop sends and what it takes off the disk. *)
Lemma iteration_accounts w q fl calls w' q' :
  wf_fs (disk w) → iteration w q = (fl, calls, (w', q')) →
  (entries (disk w') = entries (disk w) ∧
   (sent calls = [] ∨
    ∃ name d, entries (disk w) !! name = Some (File d) ∧ intact name d ∧
              sent calls = [string_of_bytes d])) ∨
  (∃ name d, entries (disk w) !! name = Some (File d) ∧ intact name d ∧
             entries (disk w') = delete name (entries (disk w)) ∧
             sent calls = [string_of_bytes d] ∧
             (sender.Send (string_of_bytes d) q).1 = None).
Proof.
  intros Hwf. unfold iteration.
  pose proof (Wait_disk w) as HWd.
  destruct (Wait w) as [[|err] w0]; cbn [snd] in HWd.
  { intros [= _ <- <- _]. left. split; [by rewrite HWd|by left]. }
  case_bool_decide; [intros [= _ <- <- _]; left; split; [by rewrite HWd|by left]|].
  destruct (_ && _); [intros [= _ <- <- _]; left; split; [by rewrite HWd|by left]|].
  rewrite <- HWd in *.
  destruct (Get w0) as [|[fd|e] w1] eqn:HG; [intros [= _ <- <- _]; left; split; [done|by left]| |].
  2:{ intros [= _ <- <- _]. left. split; [|by left].
      pose proof (Get_spec w0 Hwf) as HS.
      rewrite (Get_Ret_lstat _ _ _ Hwf HG) in HS.
      destruct HS as (r0 & w2 & HG' & _ & (_ & He & _) & _).
      rewrite HG in HG'. by injection HG' as _ <-. }
  apply Get_granted in HG as ((_ & He & _) & _ & _ & _ & Hgr); [|done].
  destruct Hgr as (_ & Hfile & Hint & _).
  change (Bytes fd) with (data fd).
  destruct (sender.Send _ q) as [[se|] q1] eqn:HS.
  { intros [= _ <- <- _]. left. split; [done|]. right. eauto. }
  pose proof (Remove_entries fd w1) as HRe.
  destruct (Remove fd w1) as [[re|] w2]; cbn [fst snd] in HRe.
  { intros [= _ <- <- _]. left. split; [simpl; congruence|]. right. eauto. }
  intros [= _ <- <- _]. right. exists (file_path fd), (data fd).
  rewrite HS. split_and!; [done|done|congruence|done|done].
Qed.

(** X11. The relay neither invents nor loses messages: over any number
    of rounds, every message it passes to [Send] is the contents of an
    intact payload file of the store, no file appears in the storage
    directory, and a file that is gone at the end was a payload file
    whose contents were passed to [Send]. *)
Theorem relay_accounts n : ∀ w q fl calls w' q',
  wf_fs (disk w) → relay n w q = (fl, calls, (w', q')) →
  (∀ msg, msg ∈ sent calls →
     ∃ name d, entries (disk w) !! name = Some (File d) ∧ intact name d ∧
               msg = string_of_bytes d) ∧
  entries (disk w') ⊆ entries (disk w) ∧
  (∀ name nd, entries (disk w) !! name = Some nd →
     entries (disk w') !! name = None →
     ∃ d, nd = File d ∧ string_of_bytes d ∈ sent calls).
Proof.
  induction n as [|n IH]; intros w q fl calls w' q' Hwf.
  { intros [= _ <- <- _]. split_and!; [by intros ? ?%elem_of_nil|done|congruence]. }
  rewrite relay_S.
  destruct (iteration w q) as [[fl1 calls1] [w1 q1]] eqn:Hit.
  pose proof (iteration_wf _ _ _ _ _ _ Hwf Hit) as Hwf1.
  pose proof (iteration_accounts _ _ _ _ _ _ Hwf Hit) as Hacc.
  assert ((∀ msg, msg ∈ sent calls1 →
             ∃ name d, entries (disk w) !! name = Some (File d) ∧
                       intact name d ∧ msg = string_of_bytes d) ∧
          entries (disk w1) ⊆ entries (disk w) ∧
          (∀ name nd, entries (disk w) !! name = Some nd →
             entries (disk w1) !! name = None →
             ∃ d, nd = File d ∧ string_of_bytes d ∈ sent calls1)) as Hone.
  { destruct Hacc as [(He & Hs)|(name & d & Hf & Hi & He & Hs & _)].
    - rewrite He. split_and!; [|done|congruence].
      intros msg Hm. destruct Hs as [Hs|(name & d & Hf & Hi & Hs)];
        rewrite Hs in Hm.
      + by apply elem_of_nil in Hm.
      + apply list_elem_of_singleton in Hm as ->. eauto.
    - rewrite He, Hs. split_and!.
      + intros msg ->%list_elem_of_singleton. eauto.
      + apply delete_subseteq.
      + intros name' nd Hn Hd. apply lookup_delete_None in Hd as [<-|Hd];
          [|congruence].
        exists d. split; [congruence|]. by apply list_elem_of_singleton. }
  assert ((fl1, calls1, (w1, q1)) = (fl, calls, (w', q')) →
          (∀ msg, msg ∈ sent calls →
             ∃ name d, entries (disk w) !! name = Some (File d) ∧
                       intact name d ∧ msg = string_of_bytes d) ∧
          entries (disk w') ⊆ entries (disk w) ∧
          (∀ name nd, entries (disk w) !! name = Some nd →
             entries (disk w') !! name = None →
             ∃ d, nd = File d ∧ string_of_bytes d ∈ sent calls)) as Hstop.
  { by intros [= _ <- <- _]. }
  destruct fl1; [|done..]. clear Hstop.
  destruct (relay n w1 q1) as [[fl2 calls2] [w2 q2]] eqn:Hrel.
  intros [= _ <- <- _].
  destruct (IH _ _ _ _ _ _ Hwf1 Hrel) as (IH1 & IH2 & IH3).
  destruct Hone as (H1 & H2 & H3).
  unfold sent in *. rewrite omap_app. split_and!.
  - intros msg [Hm|Hm]%elem_of_app; [by apply H1|].
    destruct (IH1 _ Hm) as (name & d & Hf & Hi & ->).
    exists name, d. split_and!; [|done..].
    by apply (lookup_weaken _ _ _ _ Hf).
  - by etrans.
  - intros name nd Hn Hd. setoid_rewrite elem_of_app.
    destruct (entries (disk w1) !! name) as [nd'|] eqn:Hn1.
    + pose proof (lookup_weaken _ _ _ _ Hn1 H2) as Hn'.
      assert (nd' = nd) as -> by congruence.
      destruct (IH3 _ _ Hn1 Hd) as (d & -> & Hm). eauto.
    + destruct (H3 _ _ Hn Hn1) as (d & -> & Hm). eauto.
Qed.

End RelayAccounts.

Section RelayDelivery.

Context {digest : Digest} {sink_impl : sender.Sender}.

(** [NewFS] on a directory of files that [Store] wrote gives a store
    in the state [recoverable] describes. *)
Lemma NewFS_recoverable timeout s :
  wf_fs s → healthy s = true → written_by_store s →
  Z.of_nat (size (files s)) ≤ int_max →
  ∃ w, NewFS timeout s = Ret tt w ∧ recoverable w ∧
       entries (disk w) = <[lock_dir_name := Dir]> (entries s).
Proof.
  intros Hwf Hhl Hwr Hb.
  destruct (NewFS_spec timeout s Hhl (written_no_lock_dir _ Hwr) Hb)
    as (w & HN & He & Hf & Hl & Hh & Hfl & Hni & Hnf & Hq & _).
  exists w. split; [done|]. split; [|done].
  unfold recoverable. rewrite Hf. split_and!; auto.
  - destruct Hwf as [Hw1 Hw2]. split.
    + rewrite Hh, Hni, Hnf. done.
    + rewrite Hl. apply map_Forall_empty.
  - unfold healthy. by rewrite Hfl.
  - unfold lock_dir_exists. by rewrite He, lookup_insert_eq.
  - intros n i. by rewrite Hl.
  - intros name d. rewrite He, lookup_insert. case_decide; [done|].
    apply Hwr.
Qed.

(** X12. Delivery: on a store as [NewFS] leaves it over [n] payload
    files that [Store] wrote, open and with no forced wake pending,
    and with a sender that accepts every message, the relay sends the
    contents of every file, each once, removes them all and then parks
    in [Wait] with nothing pending, within [n + 1] rounds. *)
Theorem relay_delivers_all n : ∀ w q,
  recoverable w → run (wait w) = true → forceWake (wait w) = false →
  (∀ msg q0, (sender.Send msg q0).1 = None) →
  size (files (disk w)) = n →
  ∃ calls w' q',
    relay (S n) w q = (Parked, calls, (w', q')) ∧
    sent calls ≡ₚ string_of_bytes <$> (map_to_list (files (disk w))).*2 ∧
    files (disk w') = ∅ ∧ queued (wait w') = 0.
Proof.
  induction n as [|n IH]; intros w q Hrec Hrun Hfw Hsend Hsz.
  { pose proof Hrec as (_ & _ & _ & _ & _ & Hq & _).
    rewrite Hsz in Hq. rewrite relay_S. unfold iteration.
    rewrite Wait_no_forced_wake, Hrun, Hq by done. simpl.
    eexists _, _, _. split; [done|].
    apply map_size_empty_iff in Hsz. rewrite Hsz, map_to_list_empty.
    by rewrite <- Hsz at 2. }
  destruct (drain_step w Hrec) as (fd & w1 & w2 & HG & HR & Hf & Hfd & Hrec2);
    [lia|].
  pose proof Hrec as (_ & _ & _ & _ & _ & Hq & _).
  rewrite relay_S. unfold iteration.
  rewrite Wait_no_forced_wake, Hrun by done.
  destruct (queued (wait w) =? 0) eqn:Hz; [lia|].
  cbn [bool_decide andb]. rewrite !bool_decide_eq_false_2 by done.
  cbn [andb]. rewrite HG.
  pose proof (Hsend (string_of_bytes (Bytes fd)) q) as Hs.
  destruct (sender.Send _ q) as [r q1]. cbn [fst] in Hs. subst r.
  rewrite HR.
  pose proof (Remove_flags fd w1) as [Hr2 Hf2]. rewrite HR in Hr2, Hf2.
  cbn [snd] in Hr2, Hf2. rewrite (Get_wait _ _ _ HG) in Hr2, Hf2.
  destruct (IH w2 q1 Hrec2) as (calls & w' & q' & Hrel & Hperm & Hemp & Hq0);
    [congruence|congruence|done| |].
  { rewrite Hfd, map_size_delete_Some by eauto. lia. }
  case_bool_decide; [done|]. cbn [andb].
  rewrite Hrel. eexists _, _, _. split; [done|]. split; [|done].
  unfold sent in *. rewrite omap_app. cbn [omap app].
  rewrite Hperm, Hfd, <- (map_to_list_delete _ _ _ Hf). done.
Qed.

End RelayDelivery.

Section RelaySpins.

Context {digest : Digest} {sink_impl : sender.Sender}.

Lemma skipped_frame_forward name s s' :
  frame s s' → held s' = held s → skipped name s → skipped name s'.
Proof.
  intros Hfr Hh [(ino & Hn & Hlk)|[Hlen|[Hrd|(d & Hrd & Hi)]]].
  - left. exists ino. rewrite (ino_locked_held _ _ _ Hh).
    split; [|done]. destruct Hfr as (_ & _ & Hsub & _).
    by apply (lookup_weaken _ _ _ _ Hn).
  - right. by left.
  - right. right. left. by rewrite (os_ReadFile_frame _ _ _ Hfr).
  - right. right. right. exists d. by rewrite (os_ReadFile_frame _ _ _ Hfr).
Qed.

Lemma granted_not_skipped fd s s' :
  granted fd s s' → ¬ skipped (file_path fd) s.
Proof.
  intros (_ & He & Hi & Hrf & _ & _ & _ & ino & _ & _ & Hlk & Hu).
  assert (os_ReadFile (file_path fd) s = Some (data fd)) as Hrd.
  { by apply os_ReadFile_Some. }
  intros [(i & Hn & Hl)|[Hlen|[Hrd'|(d & Hrd' & Hni)]]].
  - apply Hu in Hn as ->. congruence.
  - destruct Hi. lia.
  - congruence.
  - rewrite Hrd in Hrd'. by injection Hrd' as <-.
Qed.

(** X13. The relay does not park while the pending count is not zero:
    on an open store whose count is not zero but every payload file of
    which [Get] passes over (its lock is held elsewhere, or it is not
    an intact file written by [Store]), every round is exactly [Wait]
    then [Get], for as many rounds as one looks at.  Nothing is sent,
    nothing is removed and the count stays as it is. *)
Theorem relay_spins n : ∀ w q,
  wf_fs (disk w) → lstat_fails (faults (disk w)) = false →
  run (wait w) = true → queued (wait w) ≠ 0 →
  (∀ name d, entries (disk w) !! name = Some (File d) →
             skipped name (disk w)) →
  ∃ w', relay n w q =
          (LoopAgain, mjoin (replicate n [CallWait; CallGet]), (w', q)) ∧
        entries (disk w') = entries (disk w) ∧
        held (disk w') = held (disk w) ∧
        queued (wait w') = queued (wait w).
Proof.
  induction n as [|n IH]; intros w q Hwf Hls Hrun Hq Hsk.
  { by exists w. }
  rewrite relay_S. unfold iteration.
  pose proof (Wait_disk w) as HWd. pose proof (Wait_queued w) as HWq.
  pose proof (Wait_flags w) as [HWr _].
  assert (∃ e, (Wait w).1 = Returns e ∧ (e = None ∨ e = Some ErrTimedOut))
    as (e & HWe & He).
  { unfold Wait. apply Z.eqb_neq in Hq. rewrite Hq, Hrun. simpl.
    destruct (forceWake _); simpl; eauto. }
  destruct (Wait w) as [r w0]. cbn [fst snd] in *. subst r.
  assert (bool_decide (e = Some ErrStoreClosed) = false) as ->.
  { apply bool_decide_eq_false_2. by destruct He as [-> | ->]. }
  assert (bool_decide (e ≠ None) && bool_decide (e ≠ Some ErrTimedOut) = false)
    as ->.
  { destruct He as [-> | ->].
    - rewrite (bool_decide_eq_false_2 (None ≠ None)); [done|by intros ?].
    - rewrite andb_comm.
      rewrite (bool_decide_eq_false_2 (Some ErrTimedOut ≠ Some ErrTimedOut));
        [done|by intros ?]. }
  rewrite <- HWd in Hwf, Hls, Hsk.
  pose proof (Get_spec w0 Hwf) as HS. rewrite Hls in HS.
  destruct HS as (r & w1 & HG & Hwait & Hfr & Hwf1 & Hr).
  rewrite HG. destruct r as [fd|e'].
  { exfalso. destruct Hr as (_ & Hgr).
    apply (granted_not_skipped _ _ _ Hgr).
    destruct Hgr as (_ & Hf & _). eauto. }
  destruct Hr as (Hh & _).
  pose proof Hfr as (Hfa & Hent & _).
  destruct (IH w1 q Hwf1) as (w' & Hrel & He' & Hh' & Hq').
  - by rewrite Hfa.
  - by rewrite Hwait, HWr.
  - by rewrite Hwait, HWq.
  - intros name d Hf. rewrite Hent in Hf.
    apply (skipped_frame_forward _ _ _ Hfr Hh). eauto.
  - rewrite Hrel. exists w'. split; [done|].
    rewrite He', Hh', Hq', Hent, Hh, Hwait, HWq, HWd. done.
Qed.

End RelaySpins.

(** X14. The messages of the nine error codes are pairwise different,
    and none of them is the message of an invalid code. *)
Theorem Error_injective a b :
  Error a = Error b → a = b ∨ (¬ 0 ≤ a ≤ 8 ∧ ¬ 0 ≤ b ≤ 8).
Proof.
  intros H.
  destruct (decide (0 ≤ a ≤ 8)) as [Ha|Ha], (decide (0 ≤ b ≤ 8)) as [Hb|Hb].
  - left.
    assert (a = 0 ∨ a = 1 ∨ a = 2 ∨ a = 3 ∨ a = 4 ∨ a = 5 ∨ a = 6 ∨ a = 7 ∨ a = 8)
      as Ha' by lia.
    assert (b = 0 ∨ b = 1 ∨ b = 2 ∨ b = 3 ∨ b = 4 ∨ b = 5 ∨ b = 6 ∨ b = 7 ∨ b = 8)
      as Hb' by lia.
    clear Ha Hb. destruct_or!; subst; (done || by vm_compute in H).
  - exfalso.
    assert (Error b = "Invalid local_storage error."%string) as Hd.
    { destruct b as [|p|p]; [lia| |done].
      repeat (first [done | lia | destruct p as [p|p|]]). }
    rewrite Hd in H.
    assert (a = 0 ∨ a = 1 ∨ a = 2 ∨ a = 3 ∨ a = 4 ∨ a = 5 ∨ a = 6 ∨ a = 7 ∨ a = 8)
      as Ha' by lia.
    clear Ha. destruct_or!; subst; by vm_compute in H.
  - exfalso.
    assert (Error a = "Invalid local_storage error."%string) as Hd.
    { destruct a as [|p|p]; [lia| |done].
      repeat (first [done | lia | destruct p as [p|p|]]). }
    rewrite Hd in H.
    assert (b = 0 ∨ b = 1 ∨ b = 2 ∨ b = 3 ∨ b = 4 ∨ b = 5 ∨ b = 6 ∨ b = 7 ∨ b = 8)
      as Hb' by lia.
    clear Hb. destruct_or!; subst; by vm_compute in H.
  - by right.
Qed.

(** X15. With a configuration file, the options are the ones decoded
    from the file, each replaced by the value of its flag when the
    flag was set on the command line, except the port: [-Port] is
    ignored and the port is the one of the file.  The defaults of the
    flags play no part. *)
Theorem parseArgs_conf_file read_conf c path jsonArgs :
  cli_confFile c = Some path → path ≠ ""%string →
  read_conf path = Some jsonArgs →
  parseArgs read_conf c =
    Some {| IP := default (IP jsonArgs) (cli_IP c);
            Port := Port jsonArgs;
            TimeoutMS := default (TimeoutMS jsonArgs) (cli_TimeoutMS c);
            LocalStore := default (LocalStore jsonArgs) (cli_LocalStore c);
            Endpoint := default (Endpoint jsonArgs) (cli_Endpoint c);
            Queue := default (Queue jsonArgs) (cli_Queue c) |}.
Proof.
  intros Hc Hp Hr. unfold parseArgs. rewrite Hc. cbn [default from_option id].
  destruct (String.length path =? 0)%nat eqn:Hl.
  { by destruct path. }
  cbn [negb]. rewrite Hr. f_equal. unfold Visit.
  destruct c as [ip port tm ls ep qu cf], jsonArgs as [jip jport jtm jls jep jqu].
  cbn [cli_IP cli_Port cli_TimeoutMS cli_LocalStore cli_Endpoint cli_Queue
       cli_confFile IP Port TimeoutMS LocalStore Endpoint Queue] in *.
  subst cf.
  destruct ip, port, tm, ls, ep, qu; reflexivity.
Qed.

Section WriteData.

Context {W : Writer} (out : writer → bytes).

Hypothesis out_Write : ∀ p w,
  out (io_Write p w).2 = out w ++ take (io_Write p w).1.1 p.
Hypothesis Write_progress : ∀ p w,
  p ≠ [] → (io_Write p w).1.2 = false → (0 < (io_Write p w).1.1)%nat.

Lemma writeData_fuel fuel : ∀ data w,
  (length data ≤ fuel)%nat →
  ∃ w' k, writeData fuel data w = Some w' ∧
          out w' = out w ++ take k data ∧
          ((∀ p w0, (io_Write p w0).1.2 = false) → out w' = out w ++ data).
Proof.
  induction fuel as [|fuel IH]; intros data w Hlen.
  { destruct data; [|simpl in Hlen; lia]. exists w, O. simpl.
    rewrite app_nil_r. auto. }
  destruct data as [|b data].
  { exists w, O. simpl. rewrite app_nil_r. auto. }
  cbn [writeData].
  pose proof (out_Write (b :: data) w) as Hout.
  pose proof (Write_progress (b :: data) w) as Hprog.
  pose proof (io_Write_le (b :: data) w) as Hle.
  destruct (io_Write (b :: data) w) as [[n err] w1] eqn:HW. cbn [fst snd] in *.
  destruct err.
  { exists w1, n. split; [done|]. split; [done|].
    intros Hne. specialize (Hne (b :: data) w). by rewrite HW in Hne. }
  specialize (Hprog ltac:(done) eq_refl).
  destruct (IH (drop n (b :: data)) w1) as (w' & k & HD & Hk & Hall).
  { rewrite length_drop. simpl in *. lia. }
  exists w', (n + k)%nat. split; [done|]. split.
  - rewrite Hk, Hout, <- app_assoc. f_equal. by rewrite take_take_drop.
  - intros Hne. rewrite (Hall Hne), Hout, <- app_assoc. f_equal.
    apply take_drop.
Qed.

(** X16. [writeData] gets everything through a writer that takes only
    part of what it is given: if every [Write] appends the bytes it
    took to the output and takes at least one byte unless it fails,
    the loop ends within [len(data)] rounds with a prefix of [data]
    appended to the output, and with all of [data] when no [Write]
    fails. *)
Theorem writeData_complete data w :
  ∃ w' k, writeData (length data) data w = Some w' ∧
          out w' = out w ++ take k data ∧
          ((∀ p w0, (io_Write p w0).1.2 = false) → out w' = out w ++ data).
Proof. by apply writeData_fuel. Qed.

End WriteData.

Section WebProps.

Context {digest : Digest} {json : Json}.

Lemma Split_cons s : ∃ r rest, Split s = r :: rest.
Proof.
  destruct s as [|c s]; cbn [Split]; [eauto|].
  destruct (Ascii.eqb c "/"); [eauto|]. destruct (Split s); eauto.
Qed.

Lemma Split_singleton s : ∀ r, Split s = [r] → s = r.
Proof.
  induction s as [|c s IH]; intros r; cbn [Split]; [by intros [= <-]|].
  destruct (Ascii.eqb c "/").
  { destruct (Split_cons s) as (r0 & rest & ->). done. }
  destruct (Split s) as [|h t] eqn:HS;
    [destruct (Split_cons s) as (? & ? & ?); congruence|].
  intros [= <- ->]. by rewrite (IH h).
Qed.

(** The recorder takes everything in one [Write]. *)
Lemma writeData_ResponseWriter fuel data rw code :
  status rw = Some code → bodyAllowedForStatus code = true →
  writeData (S fuel) data rw =
    Some {| Header := Header rw; status := Some code;
            body := body rw ++ data |}.
Proof.
  intros Hs Hb. destruct data as [|b l].
  { simpl. rewrite app_nil_r, <- Hs. by destruct rw. }
  cbn [writeData io_Write ResponseWriter_Writer].
  unfold ResponseWriter_Write, WriteHeader. rewrite Hs.
  rewrite !Hs. cbn [default from_option id]. rewrite Hb, drop_all.
  by destruct fuel.
Qed.

(** The reply of [httpTextReply] on a writer nothing was written to. *)
Lemma httpTextReply_spec fuel code msg rw :
  status rw = None → bodyAllowedForStatus code = true →
  httpTextReply (S fuel) code msg rw =
    Some {| Header := <["Content-Type"%string := "text/plain"%string]> (Header rw);
            status := Some code;
            body := body rw ++ String.list_byte_of_string msg |}.
Proof.
  intros Hs Hb. unfold httpTextReply, Header_Set, WriteHeader. rewrite Hs.
  cbn [status Header body].
  by rewrite (writeData_ResponseWriter _ _ _ code).
Qed.

(** X17. Routing: [ServeHTTP] always replies, and the reply is 404
    exactly when the request is not a GET or a POST of the one
    resource [message]; its text is then [Invalid resource], and the
    store is not touched by a request for another resource or with
    another method. *)
Theorem ServeHTTP_routing fuel now req rw w :
  status rw = None →
  ∃ rw' w', ServeHTTP (S fuel) now req rw w = Some (rw', w') ∧
    (status rw' = Some 404 ↔
     ¬ (cleanURL (URL_clean req) = "message"%string ∧
        (Method req = "GET"%string ∨ Method req = "POST"%string))) ∧
    (status rw' = Some 404 →
     body rw' = body rw ++ String.list_byte_of_string "Invalid resource") ∧
    (handlers (hd ""%string (Split (cleanURL (URL_clean req)))) (Method req)
       = None → w' = w).
Proof.
  intros Hs. unfold ServeHTTP.
  set (uri := cleanURL (URL_clean req)).
  destruct (Split_cons uri) as (r & rest & HSp). rewrite HSp. cbn [hd].
  assert (uri = "message"%string ↔ r = "message"%string ∧ rest = []) as Huri.
  { split.
    - intros Hu. rewrite Hu in HSp. by injection HSp as <- <-.
    - intros [-> ->]. by apply Split_singleton. }
  unfold handlers.
  case_bool_decide as Hr.
  2:{ rewrite httpTextReply_spec by done. cbn [mbind option_bind].
      eexists _, _. split; [done|]. cbn [status body].
      split_and!; [|done|done]. split; [|done]. intros _ [Hu _].
      apply Huri in Hu as [? _]. done. }
  case_bool_decide as Hget.
  { unfold GetMessage, Count.
    destruct rest as [|r1 rest].
    - assert (uri = "message"%string) as Hu by (by apply Huri).
      cbn [length Nat.ltb Nat.leb].
      case_bool_decide.
      + destruct (Marshal_count _) as [data|].
        * unfold Header_Set, WriteHeader. rewrite Hs. cbn [status Header body].
          rewrite (writeData_ResponseWriter _ _ _ 200) by done.
          cbn [mbind option_bind]. eexists _, _. split; [done|].
          cbn [status body].
          split_and!; [|done|done]. split; [done|]. intros []. auto.
        * rewrite httpTextReply_spec by done. cbn [mbind option_bind].
          eexists _, _. split; [done|]. cbn [status body].
          split_and!; [|done|done]. split; [done|]. intros []. auto.
      + rewrite httpTextReply_spec by done. cbn [mbind option_bind].
        eexists _, _. split; [done|]. cbn [status body].
        split_and!; [|done|done]. split; [done|]. intros []. auto.
    - assert ((1 <? length (r :: r1 :: rest))%nat = true) as ->.
      { apply Nat.ltb_lt. simpl. lia. }
      rewrite httpTextReply_spec by done. cbn [mbind option_bind].
      eexists _, _. split; [done|]. cbn [status body].
      split_and!; [|done|done]. split; [|done]. intros _ [Hu _].
      by apply Huri in Hu as [_ ?]. }
  case_bool_decide as Hpost.
  2:{ rewrite httpTextReply_spec by done. cbn [mbind option_bind].
      eexists _, _. split; [done|]. cbn [status body].
      split_and!; [|done|done]. split; [|done]. intros _ [_ [?|?]]; done. }
  unfold PostMessage.
  destruct rest as [|r1 rest].
  2:{ assert ((1 <? length (r :: r1 :: rest))%nat = true) as ->.
      { apply Nat.ltb_lt. simpl. lia. }
      rewrite httpTextReply_spec by done. cbn [mbind option_bind].
      eexists _, _. split; [done|]. cbn [status body].
      split_and!; [|done|done]. split; [|done]. intros _ [Hu _].
      by apply Huri in Hu as [_ ?]. }
  assert (uri = "message"%string) as Hu by (by apply Huri).
  cbn [length Nat.ltb Nat.leb].
  destruct (Decode_message _) as [msg|].
  2:{ rewrite httpTextReply_spec by done. cbn [mbind option_bind].
      eexists _, _. split; [done|]. cbn [status body].
      split_and!; [|done|done]. split; [done|]. intros []. auto. }
  destruct (Marshal_message _) as [data|].
  2:{ rewrite httpTextReply_spec by done. cbn [mbind option_bind].
      eexists _, _. split; [done|]. cbn [status body].
      split_and!; [|done|done]. split; [done|]. intros []. auto. }
  destruct (Store now data w) as [[e|] w1].
  - rewrite httpTextReply_spec by done. cbn [mbind option_bind].
    eexists _, _. split; [done|]. cbn [status body].
    split_and!; [|done|done]. split; [done|]. intros []. auto.
  - eexists _, _. split; [done|]. unfold WriteHeader. rewrite Hs.
    cbn [status body].
    split_and!; [|done|done]. split; [done|]. intros []. auto.
Qed.


End WebProps.

(** ** File names identify the second and the digest *)

Lemma string_app_inj (a a' b b' : string) :
  String.length a = String.length a' → a +:+ b = a' +:+ b' → a = a' ∧ b = b'.
Proof.
  revert a'. induction a as [|c a IH]; intros [|c' a'] Hl; try done.
  simpl in *. intros [= -> H]. destruct (IH a') as [-> ->]; [lia|done|done].
Qed.

Lemma hex_digit_inj n m :
  (n < 16)%nat → (m < 16)%nat → hex_digit n = hex_digit m → n = m.
Proof.
  intros Hn Hm.
  assert (Forall (λ n, Forall (λ m, hex_digit n = hex_digit m → n = m)
                         (seq 0 16)) (seq 0 16)) as Hall.
  { apply (bool_decide_unpack _). by vm_compute. }
  rewrite Forall_forall in Hall.
  specialize (Hall n ltac:(apply elem_of_seq; lia)).
  rewrite Forall_forall in Hall.
  apply Hall. apply elem_of_seq. lia.
Qed.

Lemma Byte_to_nat_inj b1 b2 : Byte.to_nat b1 = Byte.to_nat b2 → b1 = b2.
Proof.
  intros H. pose proof (Byte.of_to_nat b1) as H1.
  rewrite H, Byte.of_to_nat in H1. by injection H1.
Qed.

Lemma hex_EncodeToString_inj l1 : ∀ l2,
  hex_EncodeToString l1 = hex_EncodeToString l2 → l1 = l2.
Proof.
  induction l1 as [|b1 l1 IH]; intros [|b2 l2]; try done.
  cbn [hex_EncodeToString]. intros H.
  assert (hex_digit (Byte.to_nat b1 / 16) = hex_digit (Byte.to_nat b2 / 16) ∧
          hex_digit (Byte.to_nat b1 mod 16) = hex_digit (Byte.to_nat b2 mod 16) ∧
          hex_EncodeToString l1 = hex_EncodeToString l2)%nat
    as (Hh & Hl & Hr) by (by injection H).
  pose proof (Byte.to_nat_bounded b1). pose proof (Byte.to_nat_bounded b2).
  apply hex_digit_inj in Hh;
    [|apply Nat.Div0.div_lt_upper_bound; lia..].
  apply hex_digit_inj in Hl; [|apply Nat.mod_upper_bound; lia..].
  f_equal; [|by apply IH]. apply Byte_to_nat_inj.
  rewrite (Nat.div_mod_eq (Byte.to_nat b1) 16).
  rewrite (Nat.div_mod_eq (Byte.to_nat b2) 16). lia.
Qed.

Lemma appendInt_read width bound x :
  forallb (λ x, read_decimal (appendInt x width) 0 =? x) (seqZ 0 bound) = true →
  0 ≤ x < bound → read_decimal (appendInt x width) 0 = x.
Proof.
  intros Hall Hx. rewrite forallb_forall in Hall.
  apply Z.eqb_eq, Hall. apply list_elem_of_In, elem_of_seqZ. lia.
Qed.

Lemma appendInt_inj_2 x y :
  0 ≤ x < 100 → 0 ≤ y < 100 → appendInt x 2 = appendInt y 2 → x = y.
Proof.
  intros Hx Hy H.
  assert (forallb (λ x, read_decimal (appendInt x 2) 0 =? x) (seqZ 0 100)
          = true) as Hall by (by vm_compute).
  by rewrite <- (appendInt_read 2 100 x Hall), <- (appendInt_read 2 100 y Hall), H.
Qed.

Lemma appendInt_inj_4 x y :
  0 ≤ x < 10000 → 0 ≤ y < 10000 → appendInt x 4 = appendInt y 4 → x = y.
Proof.
  intros Hx Hy H.
  assert (forallb (λ x, read_decimal (appendInt x 4) 0 =? x) (seqZ 0 10000)
          = true) as Hall by (by vm_compute).
  by rewrite <- (appendInt_read 4 10000 x Hall), <- (appendInt_read 4 10000 y Hall), H.
Qed.

Lemma Format_inj t1 t2 :
  clock_ok t1 = true → clock_ok t2 = true →
  Format t1 = Format t2 → same_second t1 t2.
Proof.
  unfold clock_ok. rewrite !andb_true_iff.
  intros [[[[[[[[[[[? ?] ?] ?] ?] ?] ?] ?] ?] ?] ?] ?].
  intros [[[[[[[[[[[? ?] ?] ?] ?] ?] ?] ?] ?] ?] ?] ?].
  unfold Format. intros HF.
  apply string_app_inj in HF as [Hy HF];
    [|by rewrite !appendInt_length_4 by lia].
  injection HF as HF.
  apply (string_app_inj (appendInt _ 2) (appendInt _ 2)) in HF as [Hmo HF];
    [|by rewrite !appendInt_length_2 by lia].
  injection HF as HF.
  apply (string_app_inj (appendInt _ 2) (appendInt _ 2)) in HF as [Hd HF];
    [|by rewrite !appendInt_length_2 by lia].
  injection HF as HF.
  apply (string_app_inj (appendInt _ 2) (appendInt _ 2)) in HF as [Hh HF];
    [|by rewrite !appendInt_length_2 by lia].
  injection HF as HF.
  apply (string_app_inj (appendInt _ 2) (appendInt _ 2)) in HF as [Hmi HF];
    [|by rewrite !appendInt_length_2 by lia].
  injection HF as HF.
  apply (string_app_inj (appendInt _ 2) (appendInt _ 2)) in HF as [Hs _];
    [|by rewrite !appendInt_length_2 by lia].
  unfold same_second.
  split_and!; [apply appendInt_inj_4|apply appendInt_inj_2..];
    (assumption || lia).
Qed.

Section FileNames.

Context {digest : Digest}.

Lemma file_name_split t1 t2 d1 d2 :
  clock_ok t1 = true → clock_ok t2 = true →
  file_name t1 d1 = file_name t2 d2 →
  same_second t1 t2 ∧ Sum256 d1 = Sum256 d2.
Proof.
  intros H1 H2 H. unfold file_name in H.
  apply string_app_inj in H as [Hf Hh]; [|by rewrite !Format_length].
  split; [by apply Format_inj|by apply hex_EncodeToString_inj].
Qed.

(** X19. A file name identifies the second and the digest: two payloads
    get the same file name exactly when they are stored within the
    same second and have the same digest. *)
Theorem file_name_injective t1 t2 d1 d2 :
  clock_ok t1 = true → clock_ok t2 = true →
  file_name t1 d1 = file_name t2 d2 ↔
  same_second t1 t2 ∧ Sum256 d1 = Sum256 d2.
Proof.
  intros H1 H2. split; [by apply file_name_split|].
  intros [Hs Hd]. unfold file_name. by rewrite (Format_same_second _ _ Hs), Hd.
Qed.

(** X20. No false duplicate: when [Store] answers [ErrDuplicatedStore]
    on a directory of files that [Store] wrote, with [os.Stat]
    working, then either another call holds the lock of the file name
    or a file of the same second whose contents have the digest of the
    payload is in the store. *)
Theorem duplicate_only_if_stored now payload w :
  wf_fs (disk w) → written_by_store (disk w) →
  stat_fails (faults (disk w)) = false → clock_ok now = true →
  (∀ name, entries (disk w) !! name = Some Dir → name = lock_dir_name) →
  (Store now payload w).1 = Some ErrDuplicatedStore →
  (∃ ino, locks (disk w) !! file_name now payload = Some ino ∧
          ino_locked ino (disk w) = true) ∨
  (∃ t d, entries (disk w) !! file_name now payload = Some (File d) ∧
          clock_ok t = true ∧ file_name now payload = file_name t d ∧
          same_second t now ∧ Sum256 d = Sum256 payload).
Proof.
  intros Hwf Hwr Hst Hc Hdir HS.
  destruct (Store now payload w) as [r w'] eqn:HSt. cbn [fst] in HS. subst r.
  destruct (Store_spec _ _ _ _ _ Hwf HSt) as (s1 & _ & _ & _ & _ & _ & Hcase).
  destruct Hcase as [(? & _)|[(_ & Hld & Hcase)|(? & _)]]; [done| |done].
  destruct Hcase as [Hlk|Hstat]; [by left|]. right.
  unfold os_Stat in Hstat. rewrite Hst in Hstat.
  destruct (entries (disk w) !! file_name now payload) as [[d|]|] eqn:He;
    [| |done].
  - destruct (Hwr _ _ He) as (t & Ht & Hn).
    exists t, d. rewrite <- Hn. split_and!; [done..| |].
    + symmetry in Hn. by apply file_name_split in Hn as [? _].
    + symmetry in Hn. by apply file_name_split in Hn as [_ ?].
  - exfalso. apply Hdir in He.
    pose proof (intact_file_name now payload Hc) as [Hlen _].
    rewrite He in Hlen. vm_compute in Hlen. lia.
Qed.

End FileNames.

Section RelayRetries.

Context {digest : Digest} {sink_impl : sender.Sender}.

(** Handing an item out and closing its handle leaves the store as
    [NewFS] left it. *)
Lemma Get_Close_recoverable w fd w1 :
  recoverable w → Get w = Ret (inl fd) w1 →
  recoverable (Data_Close fd w1).2 ∧
  entries (disk (Data_Close fd w1).2) = entries (disk w) ∧
  held (disk (Data_Close fd w1).2) = held (disk w) ∧
  wait (Data_Close fd w1).2 = wait w.
Proof.
  intros (Hwf & Hhl & Hld & Hfree & Hwr & Hq & Hb) HG.
  apply Get_granted in HG as (Hfr & Hwf1 & Hwait & _ & Hg); [|done].
  destruct Hg as (_ & _ & _ & _ & _ & Hk & _ & ino & _ & Hh & _).
  pose proof Hfr as (Hfa & He & _ & Hnew & _).
  assert (held (Unlock (lock fd) (disk w1)) = held (disk w)) as Hheld.
  { cbn [Unlock held set_held]. simpl. rewrite Hh.
    by rewrite delete_insert_id. }
  unfold Data_Close. cbn [snd set_disk disk wait].
  split; [|by rewrite Hwait].
  unfold recoverable. cbn [disk wait].
  assert (entries (Unlock (lock fd) (disk w1)) = entries (disk w)) as Hent
    by done.
  split_and!.
  - by apply wf_Unlock.
  - unfold healthy in *. simpl. by rewrite Hfa.
  - unfold lock_dir_exists in *. simpl. by rewrite He.
  - intros n i Hl.
    change (locks (disk w1) !! n = Some i) in Hl.
    change (ino_locked i (Unlock (lock fd) (disk w1)) = false).
    rewrite (ino_locked_held i (disk w) _ Hheld).
    destruct (Hnew n i Hl) as [Hold|Hfresh]; [by eapply Hfree|].
    apply ino_locked_false. intros k Hkk.
    destruct Hwf as [Hwh _]. apply Hwh in Hkk as [_ Hlt]. lia.
  - intros name d. simpl. rewrite He. apply Hwr.
  - unfold files. simpl. by rewrite Hwait, He.
  - unfold files. simpl. by rewrite He.
Qed.

(** X21. No pause while the sender is down: on a store as [NewFS]
    leaves it with at least one payload file, open, and with a sender
    that refuses every message, every round of the relay hands an item
    out, calls [Send] and closes the handle again, for as many rounds
    as one looks at.  The loop never parks in [Wait]; no file is
    removed, no lock stays held and the pending count stays as it
    is. *)
Theorem relay_retries_while_sender_down n : ∀ w q,
  recoverable w → size (files (disk w)) ≠ 0%nat → run (wait w) = true →
  (∀ msg q0, (sender.Send msg q0).1 ≠ None) →
  ∃ calls w' q',
    relay n w q = (LoopAgain, calls, (w', q')) ∧
    length (sent calls) = n ∧
    entries (disk w') = entries (disk w) ∧
    held (disk w') = held (disk w) ∧
    queued (wait w') = queued (wait w).
Proof.
  induction n as [|n IH]; intros w q Hrec Hne Hrun Hsend.
  { by exists [], w, q. }
  rewrite relay_S. unfold iteration.
  pose proof (Wait_disk w) as HWd. pose proof (Wait_queued w) as HWq.
  pose proof (Wait_flags w) as [HWr _].
  pose proof Hrec as (_ & _ & _ & _ & _ & Hq & _).
  assert (∃ e, (Wait w).1 = Returns e ∧ (e = None ∨ e = Some ErrTimedOut))
    as (e & HWe & He).
  { unfold Wait. replace (queued (wait w) =? 0) with false by lia.
    rewrite Hrun. simpl. destruct (forceWake _); simpl; eauto. }
  destruct (Wait w) as [r w0]. cbn [fst snd] in *. subst r.
  assert (bool_decide (e = Some ErrStoreClosed) = false) as ->.
  { apply bool_decide_eq_false_2. by destruct He as [-> | ->]. }
  assert (bool_decide (e ≠ None) && bool_decide (e ≠ Some ErrTimedOut) = false)
    as ->.
  { destruct He as [-> | ->].
    - rewrite (bool_decide_eq_false_2 (None ≠ None)); [done|by intros ?].
    - rewrite andb_comm.
      rewrite (bool_decide_eq_false_2 (Some ErrTimedOut ≠ Some ErrTimedOut));
        [done|by intros ?]. }
  assert (recoverable w0) as Hrec0.
  { unfold recoverable in *. by rewrite HWd, HWq. }
  destruct (drain_step w0 Hrec0) as (fd & w1 & w2 & HG & _); [by rewrite HWd|].
  rewrite HG.
  pose proof (Hsend (string_of_bytes (Bytes fd)) q) as Hs.
  destruct (sender.Send _ q) as [[se|] q1]; [|done].
  destruct (Get_Close_recoverable _ _ _ Hrec0 HG) as (Hrec1 & He1 & Hh1 & Hw1).
  destruct (Data_Close fd w1) as [r3 w3]. cbn [snd] in *.
  destruct (IH w3 q1 Hrec1) as (calls & w' & q' & Hrel & Hlen & He' & Hh' & Hq');
    [unfold files; by rewrite He1, HWd|by rewrite Hw1, HWr|done|].
  rewrite Hrel. eexists _, _, _. split; [done|].
  unfold sent in *. rewrite omap_app, length_app. cbn [omap length].
  rewrite Hlen, He', Hh', Hq', He1, Hh1, Hw1, HWd, HWq. done.
Qed.

End RelayRetries.

Section TimerTick.

Context {digest : Digest} {sink_impl : sender.Sender}.

(** X22. A tick of the timer on an idle store costs one walk of the
    directory: when the store is open, nothing is pending, no forced
    wake is raised and [Get] would pass over every file there is, the
    relay, parked in [Wait] before the tick, makes exactly one round
    of [Wait] (which times out) and [Get] after it and parks in
    [Wait] again; nothing is sent and nothing changes on disk. *)
Theorem timer_tick_one_round n w q :
  wf_fs (disk w) → lstat_fails (faults (disk w)) = false →
  run (wait w) = true → queued (wait w) = 0 → forceWake (wait w) = false →
  (∀ name d, entries (disk w) !! name = Some (File d) →
             skipped name (disk w)) →
  relay 1 w q = (Parked, [CallWait], (w, q)) ∧
  ∃ w', relay (S (S n)) (timer_fire w) q =
          (Parked, [CallWait; CallGet; CallWait], (w', q)) ∧
        entries (disk w') = entries (disk w) ∧
        held (disk w') = held (disk w) ∧
        queued (wait w') = 0 ∧ forceWake (wait w') = false.
Proof.
  intros Hwf Hls Hrun Hq Hfw Hsk. split.
  { rewrite relay_S. unfold iteration.
    by rewrite Wait_no_forced_wake, Hrun, Hq. }
  rewrite relay_S. unfold iteration.
  assert (Wait (timer_fire w) =
          (Returns (Some ErrTimedOut),
           {| disk := disk w;
              wait := set_forceWake false (wait (timer_fire w)) |})) as ->.
  { unfold Wait, timer_fire. cbn [wait disk]. rewrite Hq. simpl.
    by rewrite andb_false_r. }
  set (w0 := {| disk := disk w;
                wait := set_forceWake false (wait (timer_fire w)) |}).
  rewrite bool_decide_eq_false_2 by done.
  rewrite (bool_decide_eq_false_2 (Some ErrTimedOut ≠ Some ErrTimedOut))
    by (by intros ?).
  rewrite andb_false_r.
  pose proof (Get_spec w0 Hwf) as HS. cbn [w0 disk] in HS. rewrite Hls in HS.
  destruct HS as (r & w1 & HG & Hwait & Hfr & Hwf1 & Hr).
  change (Get {| disk := disk w;
                 wait := set_forceWake false (wait (timer_fire w)) |})
    with (Get w0).
  rewrite HG. destruct r as [fd|e'].
  { exfalso. destruct Hr as (_ & Hgr).
    apply (granted_not_skipped _ _ _ Hgr).
    destruct Hgr as (_ & Hf & _). eauto. }
  destruct Hr as (Hh & _). destruct Hfr as (_ & Hent & _).
  rewrite relay_S. unfold iteration.
  assert (run (wait w1) = true ∧ queued (wait w1) = 0 ∧
          forceWake (wait w1) = false) as (Hr1 & Hq1 & Hf1).
  { rewrite Hwait. unfold w0, timer_fire. cbn [wait]. rewrite Hq. simpl.
    auto. }
  rewrite Wait_no_forced_wake, Hr1, Hq1 by done. simpl.
  exists w1. auto.
Qed.

End TimerTick.

(** ** The further properties on the sample stores *)

Section MoreExamples.

#[local] Existing Instance plain_digest.
#[local] Existing Instance switch_sender.
#[local] Existing Instance plain_json.

Lemma wf_one_item_claimed : wf_fs (disk one_item_claimed).
Proof. apply (bool_decide_unpack _). by vm_compute. Defined.



Lemma Get_integrity_witness :
  wf_fs (disk one_item) ∧
  Get one_item = Ret (inl hello_handle) one_item_claimed ∧
  entries (disk one_item_claimed) !! file_path hello_handle =
    Some (File (Bytes hello_handle)) ∧
  hex_EncodeToString (Sum256 (Bytes hello_handle)) =
    string_drop (String.length time_format) (file_path hello_handle) ∧
  flock_path (lock hello_handle) = file_path hello_handle ∧
  Open hello_handle (disk one_item_claimed).
Proof.
  split; [exact wf_one_item|]. split; [exact Get_hello|].
  exact (Get_integrity one_item hello_handle one_item_claimed
           wf_one_item Get_hello).
Defined.

Lemma Get_footprint_witness :
  wf_fs (disk one_item) ∧
  Get one_item = Ret (inl hello_handle) one_item_claimed ∧
  entries (disk one_item_claimed) = entries (disk one_item) ∧
  wait one_item_claimed = wait one_item ∧
  locks (disk one_item) ⊆ locks (disk one_item_claimed) ∧
  held (disk one_item) !! flock_id (lock hello_handle) = None ∧
  ∃ ino, held (disk one_item_claimed) =
           <[flock_id (lock hello_handle) := ino]> (held (disk one_item)).
Proof.
  split; [exact wf_one_item|]. split; [exact Get_hello|].
  exact (Get_footprint one_item (inl hello_handle) one_item_claimed
           wf_one_item Get_hello).
Defined.

Lemma Store_result_witness :
  wf_fs (disk fresh_store) ∧
  (Store noon hello fresh_store).1 =
    if negb (lock_dir_exists (disk fresh_store)) then Some ErrStoreLockFailed
    else if busy (file_name noon hello) (disk fresh_store)
    then Some ErrDuplicatedStore
    else match os_Stat (file_name noon hello) (disk fresh_store) with
         | StatNotExist =>
             if write_fails (faults (disk fresh_store))
             then Some ErrStoreFailed else None
         | _ => Some ErrDuplicatedStore
         end.
Proof.
  split; [exact wf_fresh_store|].
  exact (Store_result noon hello fresh_store wf_fresh_store).
Defined.

Lemma Store_footprint_witness :
  wf_fs (disk fresh_store) ∧
  Store noon hello fresh_store = (None, one_item) ∧
  held (disk one_item) = held (disk fresh_store) ∧
  (∀ name, name ≠ file_name noon hello →
     entries (disk one_item) !! name = entries (disk fresh_store) !! name) ∧
  (∀ n, entries (disk fresh_store) !! file_name noon hello = Some n →
        entries (disk one_item) !! file_name noon hello = Some n) ∧
  (@None error_code = None →
   entries (disk fresh_store) !! file_name noon hello = None ∧
   entries (disk one_item) !! file_name noon hello = Some (File hello)).
Proof.
  split; [exact wf_fresh_store|]. split; [exact Store_hello|].
  exact (Store_footprint noon hello fresh_store None one_item
           wf_fresh_store Store_hello).
Defined.

Lemma Remove_hello :
  Remove hello_handle one_item_claimed = (None, one_item_removed).
Proof. by vm_compute. Defined.

Lemma Remove_finalizes_witness :
  wf_fs (disk one_item_claimed) ∧
  0 ≤ queued (wait one_item_claimed) ≤ int_max ∧
  Remove hello_handle one_item_claimed = (None, one_item_removed) ∧
  (∃ d, entries (disk one_item_claimed) !! file_path hello_handle =
          Some (File d)) ∧
  entries (disk one_item_removed) =
    delete (file_path hello_handle) (entries (disk one_item_claimed)) ∧
  (lock_dir_exists (disk one_item_claimed) = true →
   locks (disk one_item_removed) !! flock_path (lock hello_handle) = None) ∧
  held (disk one_item_removed) =
    delete (flock_id (lock hello_handle)) (held (disk one_item_claimed)) ∧
  queued (wait one_item_removed) =
    Z.max 0 (queued (wait one_item_claimed) - 1) ∧
  ∀ fd' w2, Get one_item_removed = Ret (inl fd') w2 →
            file_path fd' ≠ file_path hello_handle.
Proof.
  assert (0 ≤ queued (wait one_item_claimed) ≤ int_max) as H2
    by (by vm_compute).
  split; [exact wf_one_item_claimed|]. split; [done|].
  split; [exact Remove_hello|].
  exact (Remove_finalizes hello_handle one_item_claimed one_item_removed
           wf_one_item_claimed H2 Remove_hello).
Defined.

Lemma Remove_once_witness :
  Remove hello_handle one_item_claimed = (None, one_item_removed) ∧
  Remove hello_handle one_item_removed =
    (Some ErrRemoveFailed, one_item_removed).
Proof.
  split; [exact Remove_hello|].
  exact (Remove_once hello_handle one_item_claimed None one_item_removed
           Remove_hello).
Defined.

Lemma count_mirrors_files_witness :
  wf_fs (disk one_item_claimed) ∧
  queued (wait one_item_claimed) =
    Z.of_nat (size (files (disk one_item_claimed))) ∧
  Z.of_nat (size (files (disk one_item_claimed))) +
    Z.of_nat (length meanwhile) ≤ int_max ∧
  do_ops meanwhile one_item_claimed = Some one_item_later ∧
  queued (wait one_item_later) = Z.of_nat (size (files (disk one_item_later))).
Proof.
  assert (queued (wait one_item_claimed) =
          Z.of_nat (size (files (disk one_item_claimed)))) as H2
    by (by vm_compute).
  assert (Z.of_nat (size (files (disk one_item_claimed))) +
          Z.of_nat (length meanwhile) ≤ int_max) as H3 by (by vm_compute).
  assert (do_ops meanwhile one_item_claimed = Some one_item_later) as H4
    by (by vm_compute).
  split_and!; [exact wf_one_item_claimed | done | done | done |].
  exact (count_mirrors_files meanwhile one_item_claimed one_item_later
           wf_one_item_claimed H2 H3 H4).
Defined.

Lemma NewFS_outcome_witness :
  Z.of_nat (size (files left_behind)) ≤ int_max ∧
  if removeall_fails (faults left_behind) ||
     mkdirall_fails (faults left_behind) ||
     lstat_fails (faults left_behind) || readdir_fails (faults left_behind)
  then NewFS 1000000 left_behind = Panic
  else ∃ w, NewFS 1000000 left_behind = Ret tt w ∧
            entries (disk w) = <[lock_dir_name := Dir]> (entries left_behind) ∧
            locks (disk w) = ∅ ∧ held (disk w) = held left_behind ∧
            (Count w).1 = Z.of_nat (size (files (disk w))) ∧
            files (disk w) = delete lock_dir_name (files left_behind) ∧
            run (wait w) = true ∧ forceWake (wait w) = false ∧
            timer (wait w) =
              if bool_decide (1000000 ≠ 0) then Some TimerArmed else None.
Proof.
  assert (Z.of_nat (size (files left_behind)) ≤ int_max) as H1
    by (by vm_compute).
  split; [done|].
  exact (NewFS_outcome 1000000 left_behind H1).
Defined.

Lemma relay_returns_after_Close_witness :
  run (wait closed_item) = false ∧
  let '(fl, calls, _) := relay 2 closed_item true in
  (fl = Exit ∨ fl = Crashed) ∧ (length (sent calls) ≤ 1)%nat ∧
  (forceWake (wait closed_item) = false → fl = Exit ∧ calls = [CallWait]).
Proof.
  assert (run (wait closed_item) = false) as H1 by (by vm_compute).
  split; [done|].
  exact (relay_returns_after_Close closed_item true 0 H1).
Defined.

Lemma relay_two_rounds :
  relay 2 one_item true =
    (delivered.1.1, delivered.1.2, (delivered.2.1, delivered.2.2)).
Proof. by vm_compute. Defined.

Lemma relay_accounts_witness :
  wf_fs (disk one_item) ∧
  relay 2 one_item true =
    (delivered.1.1, delivered.1.2, (delivered.2.1, delivered.2.2)) ∧
  (∀ msg, msg ∈ sent delivered.1.2 →
     ∃ name d, entries (disk one_item) !! name = Some (File d) ∧
               intact name d ∧ msg = string_of_bytes d) ∧
  entries (disk delivered.2.1) ⊆ entries (disk one_item) ∧
  (∀ name nd, entries (disk one_item) !! name = Some nd →
     entries (disk delivered.2.1) !! name = None →
     ∃ d, nd = File d ∧ string_of_bytes d ∈ sent delivered.1.2).
Proof.
  split; [exact wf_one_item|]. split; [exact relay_two_rounds|].
  exact (relay_accounts 2 one_item true _ _ _ _ wf_one_item relay_two_rounds).
Defined.

Lemma recoverable_recovered : recoverable recovered.
Proof.
  destruct (NewFS_recoverable 1000000 left_behind) as (w & HN & Hrec & _).
  - apply (bool_decide_unpack _). by vm_compute.
  - by vm_compute.
  - exact left_behind_written.
  - by vm_compute.
  - unfold recovered. by rewrite HN.
Defined.

Lemma relay_delivers_all_witness :
  recoverable recovered ∧ run (wait recovered) = true ∧
  forceWake (wait recovered) = false ∧
  (∀ msg q0, (sender.Send (Sender := accepting_sender) msg q0).1 = None) ∧
  size (files (disk recovered)) = 2%nat ∧
  ∃ calls w' q',
    relay (sink_impl := accepting_sender) 3 recovered [] =
      (Parked, calls, (w', q')) ∧
    sent calls ≡ₚ
      string_of_bytes <$> (map_to_list (files (disk recovered))).*2 ∧
    files (disk w') = ∅ ∧ queued (wait w') = 0.
Proof.
  assert (run (wait recovered) = true) as H2 by (by vm_compute).
  assert (forceWake (wait recovered) = false) as H3 by (by vm_compute).
  assert (∀ msg q0, (sender.Send (Sender := accepting_sender) msg q0).1 = None)
    as H4 by done.
  assert (size (files (disk recovered)) = 2%nat) as H5 by (by vm_compute).
  split_and!; [exact recoverable_recovered | done | done | done | done |].
  exact (relay_delivers_all (sink_impl := accepting_sender) 2 recovered []
           recoverable_recovered H2 H3 H4 H5).
Defined.

Lemma stray_store_entries :
  entries (disk stray_store) =
    <[lock_dir_name := Dir]> {[ "0notes"%string := File world ]}.
Proof.
  destruct (NewFS_spec 1000000 stray_dir) as (w & HN & He & _);
    [by vm_compute..|].
  unfold stray_store. by rewrite HN.
Defined.

Lemma stray_store_skipped name d :
  entries (disk stray_store) !! name = Some (File d) →
  skipped name (disk stray_store).
Proof.
  rewrite stray_store_entries.
  intros [[_ [=]]|[_ Hl]]%lookup_insert_Some.
  apply lookup_singleton_Some in Hl as [<- _].
  right. left. vm_compute. lia.
Defined.

Lemma relay_spins_witness :
  wf_fs (disk stray_store) ∧ lstat_fails (faults (disk stray_store)) = false ∧
  run (wait stray_store) = true ∧ queued (wait stray_store) ≠ 0 ∧
  (∀ name d, entries (disk stray_store) !! name = Some (File d) →
             skipped name (disk stray_store)) ∧
  ∃ w', relay 3 stray_store true =
          (LoopAgain, mjoin (replicate 3 [CallWait; CallGet]), (w', true)) ∧
        entries (disk w') = entries (disk stray_store) ∧
        held (disk w') = held (disk stray_store) ∧
        queued (wait w') = queued (wait stray_store).
Proof.
  assert (wf_fs (disk stray_store)) as H1
    by (apply (bool_decide_unpack _); by vm_compute).
  assert (lstat_fails (faults (disk stray_store)) = false) as H2
    by (by vm_compute).
  assert (run (wait stray_store) = true) as H3 by (by vm_compute).
  assert (queued (wait stray_store) ≠ 0) as H4 by (by vm_compute).
  split_and!; [done | done | done | done | exact stray_store_skipped |].
  exact (relay_spins 3 stray_store true H1 H2 H3 H4 stray_store_skipped).
Defined.

Lemma Error_injective_witness :
  Error 9 = Error 42 ∧ (9 = 42 ∨ (¬ 0 ≤ 9 ≤ 8 ∧ ¬ 0 ≤ 42 ≤ 8)).
Proof.
  assert (Error 9 = Error 42) as H1 by (by vm_compute).
  split; [done|]. exact (Error_injective 9 42 H1).
Defined.

Lemma parseArgs_conf_file_witness :
  cli_confFile command_line = Some "conf.json"%string ∧
  "conf.json"%string ≠ ""%string ∧
  parseArgs (λ _, Some conf_json) command_line =
    Some {| IP := default (IP conf_json) (cli_IP command_line);
            Port := Port conf_json;
            TimeoutMS := default (TimeoutMS conf_json)
                           (cli_TimeoutMS command_line);
            LocalStore := default (LocalStore conf_json)
                            (cli_LocalStore command_line);
            Endpoint := default (Endpoint conf_json)
                          (cli_Endpoint command_line);
            Queue := default (Queue conf_json) (cli_Queue command_line) |}.
Proof.
  assert (cli_confFile command_line = Some "conf.json"%string) as H1
    by reflexivity.
  assert ("conf.json"%string ≠ ""%string) as H2 by done.
  split; [done|]. split; [done|].
  exact (parseArgs_conf_file (λ _, Some conf_json) command_line
           "conf.json"%string conf_json H1 H2 eq_refl).
Defined.

Lemma pair_writer_out (p w : bytes) :
  id (io_Write (Writer := pair_writer) p w).2 =
  id w ++ take (io_Write (Writer := pair_writer) p w).1.1 p.
Proof. reflexivity. Defined.

Lemma pair_writer_progress (p w : bytes) :
  p ≠ [] → (io_Write (Writer := pair_writer) p w).1.2 = false →
  (0 < (io_Write (Writer := pair_writer) p w).1.1)%nat.
Proof. intros Hp _. destruct p; [done|]. simpl. lia. Defined.

Lemma writeData_complete_witness :
  ∃ w' k, writeData (H := pair_writer) (length hello) hello [] = Some w' ∧
          id w' = id [] ++ take k hello ∧
          ((∀ p w0, (io_Write (Writer := pair_writer) p w0).1.2 = false) →
           id w' = id [] ++ hello).
Proof.
  exact (writeData_complete (W := pair_writer) id pair_writer_out
           pair_writer_progress hello []).
Defined.

Lemma ServeHTTP_routing_witness :
  status no_reply = None ∧
  ∃ rw' w', ServeHTTP 1 noon get_elsewhere no_reply fresh_store =
              Some (rw', w') ∧
    (status rw' = Some 404 ↔
     ¬ (cleanURL (URL_clean get_elsewhere) = "message"%string ∧
        (Method get_elsewhere = "GET"%string ∨
         Method get_elsewhere = "POST"%string))) ∧
    (status rw' = Some 404 →
     body rw' =
       body no_reply ++ String.list_byte_of_string "Invalid resource") ∧
    (handlers (hd ""%string (Split (cleanURL (URL_clean get_elsewhere))))
       (Method get_elsewhere) = None → w' = fresh_store).
Proof.
  split; [reflexivity|].
  exact (ServeHTTP_routing 0 noon get_elsewhere no_reply fresh_store eq_refl).
Defined.


Lemma file_name_injective_witness :
  clock_ok noon = true ∧ clock_ok noon_and_a_half = true ∧
  (file_name noon hello = file_name noon_and_a_half hello ↔
   same_second noon noon_and_a_half ∧ Sum256 hello = Sum256 hello).
Proof.
  assert (clock_ok noon = true) as H1 by (by vm_compute).
  assert (clock_ok noon_and_a_half = true) as H2 by (by vm_compute).
  split; [done|]. split; [done|].
  exact (file_name_injective noon noon_and_a_half hello hello H1 H2).
Defined.

Lemma one_item_entries :
  entries (disk one_item) =
    <[file_name noon hello := File hello]> (<[lock_dir_name := Dir]> ∅).
Proof.
  destruct (Store_spec _ _ _ _ _ wf_fresh_store Store_hello)
    as (s1 & (_ & He & _) & _ & _ & Hd & _).
  rewrite Hd. simpl. by rewrite He.
Defined.

Lemma one_item_written : written_by_store (disk one_item).
Proof.
  intros name d. rewrite one_item_entries.
  intros [[<- [= <-]]|[_ Hl]]%lookup_insert_Some.
  { exists noon. by vm_compute. }
  apply lookup_insert_Some in Hl as [[_ [=]]|[_ Hl]].
  by rewrite lookup_empty in Hl.
Defined.

Lemma one_item_dirs name :
  entries (disk one_item) !! name = Some Dir → name = lock_dir_name.
Proof.
  rewrite one_item_entries.
  intros [[_ [=]]|[_ Hl]]%lookup_insert_Some.
  apply lookup_insert_Some in Hl as [[<- _]|[_ Hl]]; [done|].
  by rewrite lookup_empty in Hl.
Defined.

Lemma duplicate_only_if_stored_witness :
  wf_fs (disk one_item) ∧ written_by_store (disk one_item) ∧
  stat_fails (faults (disk one_item)) = false ∧
  clock_ok noon_and_a_half = true ∧
  (∀ name, entries (disk one_item) !! name = Some Dir →
           name = lock_dir_name) ∧
  (Store noon_and_a_half hello one_item).1 = Some ErrDuplicatedStore ∧
  ((∃ ino, locks (disk one_item) !! file_name noon_and_a_half hello =
             Some ino ∧
           ino_locked ino (disk one_item) = true) ∨
   (∃ t d, entries (disk one_item) !! file_name noon_and_a_half hello =
             Some (File d) ∧
           clock_ok t = true ∧
           file_name noon_and_a_half hello = file_name t d ∧
           same_second t noon_and_a_half ∧ Sum256 d = Sum256 hello)).
Proof.
  assert (stat_fails (faults (disk one_item)) = false) as H3
    by (by vm_compute).
  assert (clock_ok noon_and_a_half = true) as H4 by (by vm_compute).
  assert ((Store noon_and_a_half hello one_item).1 = Some ErrDuplicatedStore)
    as H6 by (by vm_compute).
  split_and!; [exact wf_one_item | exact one_item_written | done | done |
               exact one_item_dirs | done |].
  exact (duplicate_only_if_stored noon_and_a_half hello one_item
           wf_one_item one_item_written H3 H4 one_item_dirs H6).
Defined.

Lemma relay_retries_while_sender_down_witness :
  recoverable recovered ∧ size (files (disk recovered)) ≠ 0%nat ∧
  run (wait recovered) = true ∧
  (∀ msg q0, (sender.Send (Sender := down_sender) msg q0).1 ≠ None) ∧
  ∃ calls w' q',
    relay (sink_impl := down_sender) 3 recovered 0%nat =
      (LoopAgain, calls, (w', q')) ∧
    length (sent calls) = 3%nat ∧
    entries (disk w') = entries (disk recovered) ∧
    held (disk w') = held (disk recovered) ∧
    queued (wait w') = queued (wait recovered).
Proof.
  assert (size (files (disk recovered)) ≠ 0%nat) as H2 by (by vm_compute).
  assert (run (wait recovered) = true) as H3 by (by vm_compute).
  assert (∀ msg q0, (sender.Send (Sender := down_sender) msg q0).1 ≠ None)
    as H4 by done.
  split_and!; [exact recoverable_recovered | done | done | done |].
  exact (relay_retries_while_sender_down (sink_impl := down_sender) 3
           recovered 0%nat recoverable_recovered H2 H3 H4).
Defined.

Lemma fresh_store_skipped name d :
  entries (disk fresh_store) !! name = Some (File d) →
  skipped name (disk fresh_store).
Proof.
  cbn [fresh_store disk set_entries empty_dir entries].
  intros [[_ [=]]|[_ Hl]]%lookup_insert_Some.
  by rewrite lookup_empty in Hl.
Defined.

Lemma timer_tick_one_round_witness :
  wf_fs (disk fresh_store) ∧ lstat_fails (faults (disk fresh_store)) = false ∧
  run (wait fresh_store) = true ∧ queued (wait fresh_store) = 0 ∧
  forceWake (wait fresh_store) = false ∧
  (∀ name d, entries (disk fresh_store) !! name = Some (File d) →
             skipped name (disk fresh_store)) ∧
  relay 1 fresh_store true = (Parked, [CallWait], (fresh_store, true)) ∧
  ∃ w', relay 2 (timer_fire fresh_store) true =
          (Parked, [CallWait; CallGet; CallWait], (w', true)) ∧
        entries (disk w') = entries (disk fresh_store) ∧
        held (disk w') = held (disk fresh_store) ∧
        queued (wait w') = 0 ∧ forceWake (wait w') = false.
Proof.
  split_and!; [exact wf_fresh_store | reflexivity | reflexivity | reflexivity |
               reflexivity | exact fresh_store_skipped | |].
  all: by apply (timer_tick_one_round (sink_impl := switch_sender) 0
                   fresh_store true wf_fresh_store
                   eq_refl eq_refl eq_refl eq_refl fresh_store_skipped).
Defined.

End MoreExamples.
